(** * Screenshot renderer: content intelligence and hybrid search

    A shallow embedding of the embedding store
    ([src/main/services/OpenAIEmbeddingService.ts]), of the analysis
    pipeline with its local fallbacks, the smart-folder evaluator and the
    hybrid search handler (all in [src/main/services/AIProcessor.ts]),
    followed by the properties of the specification that concern them.

    JavaScript numbers are IEEE 754 binary64 values: they are modelled by
    Rocq's primitive floats, so that [NaN], the infinities and rounding are
    those of the program.  Methods that throw, mutate the store or call a
    remote service are functions from the world before the call to an
    outcome and the world after it; the file system, the clock and the
    remote services are parameters of each model. *)

From Stdlib Require Import ZArith Lia List Bool String Ascii.
From Stdlib Require Import Floats Permutation Sorted.
From Stdlib Require Import DecimalString DecimalZ.
Import ListNotations.

(* ================================================================== *)
(** * The JavaScript values and containers the services use *)
(* ================================================================== *)

Module JS.

(** An [Error] object: only its message is observed. *)
Inductive Error : Type := JsError (message : string).

(** The outcome of a call: a value, or a thrown [Error] (for an [async]
    function: a fulfilled or a rejected promise). *)
Inductive completion (A : Type) : Type :=
| Normal (a : A)
| Throw (e : Error).
Arguments Normal {A} a.
Arguments Throw {A} e.

Definition is_throw {A : Type} (c : completion A) : bool :=
  match c with Throw _ => true | Normal _ => false end.

(** ** Strings

    A string is the sequence of its code units; [ascii] covers the first
    256 of them. *)

(** The code units below 256 that [String.prototype.trim] strips: TAB, LF,
    VT, FF, CR, SP and NBSP. *)
Definition is_white_space (c : ascii) : bool :=
  let n := nat_of_ascii c in
  ((9 <=? n) && (n <=? 13) || (n =? 32) || (n =? 160))%nat.

Fixpoint trimStart_chars (l : list ascii) : list ascii :=
  match l with
  | c :: l' => if is_white_space c then trimStart_chars l' else l
  | [] => []
  end.

Definition trim (s : string) : string :=
  let l := trimStart_chars (list_ascii_of_string s) in
  string_of_list_ascii (rev (trimStart_chars (rev l))).

(** [!s || s.trim().length === 0] on a string. *)
Definition blank (s : string) : bool :=
  (String.length s =? 0)%nat || (String.length (trim s) =? 0)%nat.

(** Truthiness of an optional string property: present and not empty. *)
Definition truthy (o : option string) : bool :=
  match o with
  | Some s => negb (String.length s =? 0)%nat
  | None => false
  end.

(** [o || d] on an optional string. *)
Definition or_else (o : option string) (d : string) : string :=
  match o with
  | Some s => if truthy o then s else d
  | None => d
  end.

(** [o || null]. *)
Definition or_null (o : option string) : option string :=
  if truthy o then o else None.

(** [Array.prototype.join]. *)
Fixpoint join (sep : string) (l : list string) : string :=
  match l with
  | [] => EmptyString
  | [s] => s
  | s :: l' => (s ++ sep ++ join sep l')%string
  end.

(** ** Arrays *)

(** [l.slice(0, k)] for an integral [k]: a negative end counts from the
    end of the array. *)
Definition slice0 {A : Type} (l : list A) (k : Z) : list A :=
  let len := Z.of_nat (List.length l) in
  let final := if (k <? 0)%Z then Z.max (len + k) 0 else Z.min k len in
  firstn (Z.to_nat final) l.

(** [Array.prototype.sort(comparefn)].  ECMAScript asks for a stable sort
    and reads a [NaN] verdict of the comparator as [+0].  For a comparator
    that is consistent on the elements every conforming engine returns the
    one stable sorted arrangement; otherwise the order is left to the
    engine.  The model is the stable insertion sort, which on the inputs of
    the examples below leaves the array as V8 does. *)
Section Sort.
Context {A : Type}.
Variable comparefn : A -> A -> float.

Definition SortCompare (x y : A) : float :=
  let v := comparefn x y in
  if is_nan v then 0%float else v.

Fixpoint insert (x : A) (l : list A) : list A :=
  match l with
  | [] => [x]
  | y :: l' =>
      if (SortCompare x y <=? 0)%float then x :: l else y :: insert x l'
  end.

Definition sort (l : list A) : list A := fold_right insert [] l.
End Sort.

(** ** Maps

    A [Map] with string keys iterates in insertion order: it is the list
    of its entries, each key once. *)
Definition Map (V : Type) : Type := list (string * V).

Section MapOps.
Context {V : Type}.

Fixpoint Map_get (m : Map V) (k : string) : option V :=
  match m with
  | [] => None
  | (k', v) :: m' => if String.eqb k k' then Some v else Map_get m' k
  end.

Definition Map_has (m : Map V) (k : string) : bool :=
  match Map_get m k with Some _ => true | None => false end.

(** [set] overwrites in place or appends. *)
Fixpoint Map_set (m : Map V) (k : string) (v : V) : Map V :=
  match m with
  | [] => [(k, v)]
  | (k', v') :: m' =>
      if String.eqb k k' then (k, v) :: m' else (k', v') :: Map_set m' k v
  end.

Definition Map_delete (m : Map V) (k : string) : Map V :=
  filter (fun kv => negb (String.eqb k (fst kv))) m.

Definition Map_size (m : Map V) : nat := List.length m.

Definition Map_values (m : Map V) : list V := map snd m.

Definition Map_keys (m : Map V) : list string := map fst m.
End MapOps.

End JS.

(* ================================================================== *)
(** * The embedding store: [OpenAIEmbeddingService] *)
(* ================================================================== *)

Module OpenAIEmbeddingService.
Import JS.

Local Open Scope string_scope.

Definition nl : string := String (ascii_of_nat 10) EmptyString.

(** The image handed to the inference client: the base64 text of the file. *)
Definition Image : Type := string.

Inductive ItemType : Type := image | text.

(** The [metadata?: any] argument, with the properties the service reads. *)
Record Metadata : Type := {
  ocr_text : option string;
  ai_title : option string;
  ai_description : option string;
  keywords : option (list string);
  comprehensive_description : option string
}.

Record IndexedItem : Type := {
  id : string;
  path : string;
  type : ItemType;
  metadata : option Metadata;
  embedding : option (list float);
  content : option string
}.

Record SearchResult : Type := {
  result_id : string;
  score : float;
  item : IndexedItem
}.

(** ** Similarity *)

(** The accumulators of the loop of [cosineSimilarity]:
    [dotProduct], [normA], [normB]. *)
Fixpoint accumulate (a b : list float) (dot na nb : float) : float * float * float :=
  match a, b with
  | x :: a', y :: b' => accumulate a' b' (dot + x * y)%float (na + x * x)%float (nb + y * y)%float
  | _, _ => (dot, na, nb)
  end.

Definition cosineSimilarity (a b : list float) : completion float :=
  if negb (List.length a =? List.length b)%nat then
    Throw (JsError "Vectors must have the same length")
  else
    let '(dotProduct, normA, normB) := accumulate a b 0%float 0%float 0%float in
    Normal (dotProduct / (sqrt normA * sqrt normB))%float.

(** ** The world the service acts on *)

(** The calls that leave the process. *)
Inductive RemoteCall : Type :=
| CallEmbeddings (input : string)
| CallGenerateComprehensiveDescription
    (img : Image) (ocr : string) (title : option string) (kws : option (list string)).

(** The document [save] writes: [{items, lastUpdated}].  The file is
    modelled by the entries it serialises. *)
Record StoreFile : Type := {
  file_items : Map IndexedItem;
  lastUpdated : Z
}.

Record World : Type := {
  items : Map IndexedItem;          (* this.items *)
  file : option StoreFile;          (* the file at this.metadataPath *)
  writes : nat;                     (* how many times the file was written *)
  calls : list RemoteCall           (* remote calls issued so far *)
}.

Definition with_items (w : World) (m : Map IndexedItem) : World :=
  {| items := m; file := file w; writes := writes w; calls := calls w |}.

Definition with_file (w : World) (f : StoreFile) : World :=
  {| items := items w; file := Some f; writes := S (writes w); calls := calls w |}.

Definition record_call (c : RemoteCall) (w : World) : World :=
  {| items := items w; file := file w; writes := writes w; calls := calls w ++ [c] |}.

(** A method: it may throw, and it may change the world before it does. *)
Definition M (A : Type) : Type := World -> completion A * World.

Definition ret {A : Type} (a : A) : M A := fun w => (Normal a, w).

Definition throw {A : Type} (msg : string) : M A := fun w => (Throw (JsError msg), w).

Definition bind {A B : Type} (m : M A) (k : A -> M B) : M B :=
  fun w =>
    match m w with
    | (Normal a, w') => k a w'
    | (Throw e, w') => (Throw e, w')
    end.

(** [try { m } catch (error) { h }]. *)
Definition try_catch {A : Type} (m : M A) (h : Error -> M A) : M A :=
  fun w =>
    match m w with
    | (Normal a, w') => (Normal a, w')
    | (Throw e, w') => h e w'
    end.

Declare Scope js_scope.
Delimit Scope js_scope with js.
Notation "x <- m ;; k" := (bind m (fun x => k))
  (at level 61, m at next level, right associativity) : js_scope.
Notation "m ;;; k" := (bind m (fun _ => k))
  (at level 61, right associativity) : js_scope.

(** What the embeddings endpoint answered. *)
Inductive EmbeddingsBody : Type :=
| NoData                                          (* data.data missing, not an array, or empty *)
| FirstEmbedding (e : option (list float)).       (* data.data[0].embedding; None: not an array *)

Inductive FetchOutcome : Type :=
| Rejected (e : Error)                            (* fetch or response.json() rejects *)
| HttpError (status : string) (errorText : string) (* !response.ok *)
| Body (data : EmbeddingsBody).

Inductive FsCheck : Type := Exists | Missing | CheckError.

Section Service.

(** The environment of one service instance. *)
Variable apiKey : string.                                  (* process.env.OPENAI_API_KEY || '' *)
Variable now : Z.                                          (* Date.now() *)
Variable readFileSync : string -> option Image.            (* None: it throws *)
Variable existsSync : string -> FsCheck.
Variable write_failure : option Error.                     (* Some e: writing the file throws e *)
Variable fetch_embeddings : string -> FetchOutcome.
Variable GenerateComprehensiveDescription :
  Image -> string -> option string -> option (list string) -> completion string.

Definition field {A : Type} (f : Metadata -> option A) (md : option Metadata) : option A :=
  match md with
  | Some m => f m
  | None => None
  end.

(** The fallback of [generateComprehensiveDescription] when the remote
    description is empty. *)
Definition fallback_empty (md : option Metadata) : string :=
  let c0 := if truthy (field ai_description md) then or_else (field ai_description md) "" else "Screenshot" in
  let c1 := if truthy (field ocr_text md)
            then c0 ++ nl ++ nl ++ "Text Content: " ++ or_else (field ocr_text md) "" else c0 in
  let c2 := if truthy (field ai_title md)
            then c1 ++ nl ++ nl ++ "Title: " ++ or_else (field ai_title md) "" else c1 in
  match field keywords md with
  | Some kws => c2 ++ nl ++ nl ++ "Keywords: " ++ join ", " kws
  | None => c2
  end.

(** Its fallback when reading the image or the remote call throws. *)
Definition fallback_error (md : option Metadata) : string :=
  let c0 := "Screenshot" in
  let c1 := if truthy (field ocr_text md) then c0 ++ nl ++ or_else (field ocr_text md) "" else c0 in
  let c2 := if truthy (field ai_title md)
            then c1 ++ nl ++ "Title: " ++ or_else (field ai_title md) "" else c1 in
  if truthy (field ai_description md) then c2 ++ nl ++ or_else (field ai_description md) "" else c2.

Definition generateComprehensiveDescription (imagePath : string) (md : option Metadata) : M string :=
  fun w =>
    if truthy (field comprehensive_description md) then
      (Normal (or_else (field comprehensive_description md) ""), w)
    else
      match readFileSync imagePath with
      | None => (Normal (fallback_error md), w)
      | Some img =>
          let ocr := or_else (field ocr_text md) "" in
          let title := or_null (field ai_title md) in
          let kws := field keywords md in
          let w' := record_call (CallGenerateComprehensiveDescription img ocr title kws) w in
          match GenerateComprehensiveDescription img ocr title kws with
          | Normal description =>
              if negb (String.length description =? 0)%nat then (Normal description, w')
              else (Normal (fallback_empty md), w')
          | Throw _ => (Normal (fallback_error md), w')
          end
      end.

(** The character budget of one embedding request. *)
Definition text_budget : nat := N.to_nat 8000.

Definition createEmbedding (text : string) : M (list float) :=
  fun w =>
    if (String.length apiKey =? 0)%nat then throw "OpenAI API key not configured" w
    else if blank text then throw "Empty text provided for embedding" w
    else
      let limitedText := substring 0 text_budget text in
      let w' := record_call (CallEmbeddings limitedText) w in
      match fetch_embeddings limitedText with
      | Rejected e => (Throw e, w')
      | HttpError status errorText =>
          throw ("OpenAI Embedding API error: " ++ status ++ " - " ++ errorText) w'
      | Body NoData => throw "Invalid embedding response from OpenAI API" w'
      | Body (FirstEmbedding None) => throw "Invalid embedding array from OpenAI API" w'
      | Body (FirstEmbedding (Some [])) => throw "Invalid embedding array from OpenAI API" w'
      | Body (FirstEmbedding (Some v)) => (Normal v, w')
      end.

(** [save]: the whole map is written to a temporary file that is then
    renamed over the store file. *)
Definition save : M unit :=
  fun w =>
    match write_failure with
    | Some e => (Throw e, w)
    | None => (Normal tt, with_file w {| file_items := items w; lastUpdated := now |})
    end.

Definition addImage (id0 imagePath : string) (md : option Metadata) : M unit :=
  fun w =>
    if Map_has (items w) id0 then (Normal tt, w)
    else
      (comprehensiveContent <- generateComprehensiveDescription imagePath md ;;
       if blank comprehensiveContent
       then throw ("No comprehensive content generated for image " ++ id0)
       else
         emb <- createEmbedding comprehensiveContent ;;
         if (List.length emb =? 0)%nat
         then throw ("Failed to create embedding for image " ++ id0)
         else
           let it := {| id := id0; path := imagePath; type := image; metadata := md;
                        embedding := Some emb; content := Some comprehensiveContent |} in
           (fun w' => (Normal tt, with_items w' (Map_set (items w') id0 it))) ;;;
           save)%js w.

(** The loop of [searchByText] over the entries of the map; a record
    without an [embedding] property is skipped. *)
Fixpoint score_items (queryEmbedding : list float) (m : Map IndexedItem)
  : completion (list SearchResult) :=
  match m with
  | [] => Normal []
  | (k, it) :: m' =>
      match embedding it with
      | None => score_items queryEmbedding m'
      | Some e =>
          match cosineSimilarity queryEmbedding e with
          | Throw err => Throw err
          | Normal similarity =>
              match score_items queryEmbedding m' with
              | Throw err => Throw err
              | Normal rs => Normal ({| result_id := k; score := similarity; item := it |} :: rs)
              end
          end
      end
  end.

(** The comparator of the sort: [(a, b) => b.score - a.score]. *)
Definition by_score (a b : SearchResult) : float := (score b - score a)%float.

(** [searchByText(query, k)]; every error raised inside the [try] block is
    logged and answered by the empty array.  ([k] defaults to 10.) *)
Definition searchByText (query : string) (k : Z) : M (list SearchResult) :=
  fun w =>
    if (Map_size (items w) =? 0)%nat then (Normal [], w)
    else
      try_catch
        (queryEmbedding <- createEmbedding query ;;
         fun w' =>
           match score_items queryEmbedding (items w') with
           | Throw e => (Throw e, w')
           | Normal results => (Normal (slice0 (sort by_score results) k), w')
           end)%js
        (fun _ => ret [])
        w.

Definition removeItem (id0 : string) : M unit :=
  fun w => (Normal tt, with_items w (Map_delete (items w) id0)).

(** A record is stale when it has a path and the file is gone, or the
    check itself fails. *)
Definition stale (it : IndexedItem) : bool :=
  if (String.length (path it) =? 0)%nat then false
  else match existsSync (path it) with
       | Exists => false
       | Missing => true
       | CheckError => true
       end.

Definition purgeStaleEmbeddings : M unit :=
  fun w =>
    let kept := filter (fun kv => negb (stale (snd kv))) (items w) in
    let removedCount := (Map_size (items w) - Map_size kept)%nat in
    let w' := with_items w kept in
    if (0 <? removedCount)%nat
    then try_catch save (fun _ => ret tt) w'
    else (Normal tt, w').

Definition cleanup : M unit :=
  (save ;;; fun w => (Normal tt, with_items w []))%js.

Definition getItemCount (w : World) : nat := Map_size (items w).

(** A new instance over the same storage: the constructor's
    [loadExistingData]. *)
Definition restart (w : World) : World :=
  {| items := match file w with
              | Some f => file_items f
              | None => []
              end;
     file := file w;
     writes := 0;
     calls := [] |}.

End Service.

End OpenAIEmbeddingService.

(* ================================================================== *)
(** * The analysis pipeline: [AIProcessor] *)
(* ================================================================== *)

Module AIProcessor.
Import JS.

Local Open Scope string_scope.

Definition nl : string := String (ascii_of_nat 10) EmptyString.

Definition Image : Type := string.

Record AIAnalysisResult : Type := {
  ocr_text : option string;
  ai_title : option string;
  ai_description : option string;
  ai_keywords : option (list string);
  confidence_score : option float;
  content_type : option string;
  app_detected : option string;
  url_detected : option string;
  comprehensive_description : option string
}.

(** The part of the answer of [AnalyzeScreenshotContent] the pipeline reads. *)
Record ContentAnalysis : Type := {
  analysis_content_type : string;
  analysis_app_detected : option string;
  analysis_url_detected : option string
}.

(** What [ExtractAllText] resolved to. *)
Inductive OcrAnswer : Type :=
| OcrObject (text : option string) (confidence : option float)  (* an object with a [text] property *)
| OcrString (s : string)
| OcrOther.                                                     (* anything else *)

Record OcrResult : Type := { text : string; confidence : float }.

Inductive RemoteCall : Type :=
| CallExtractAllText (img : Image)
| CallGenerateScreenshotTitle (img : Image) (ocr : string)
| CallAnalyzeScreenshotContentDetailed (img : Image) (ocr : string)
| CallAnalyzeScreenshotContent (img : Image)
| CallGenerateComprehensiveDescription
    (img : Image) (ocr : string) (title : option string) (kws : option (list string)).

(** A stage: it may throw, and it adds the remote calls it issues to those
    issued so far. *)
Definition M (A : Type) : Type := list RemoteCall -> completion A * list RemoteCall.

Definition ret {A : Type} (a : A) : M A := fun cs => (Normal a, cs).

Definition bind {A B : Type} (m : M A) (k : A -> M B) : M B :=
  fun cs =>
    match m cs with
    | (Normal a, cs') => k a cs'
    | (Throw e, cs') => (Throw e, cs')
    end.

Definition call {A : Type} (c : RemoteCall) (answer : completion A) : M A :=
  fun cs => (answer, (cs ++ [c])%list).

Declare Scope pipeline_scope.
Delimit Scope pipeline_scope with pipeline.
Notation "x <- m ;; k" := (bind m (fun x => k))
  (at level 61, m at next level, right associativity) : pipeline_scope.

Section Pipeline.

(** The file system and the inference client. *)
Variable readFileSync : string -> completion Image.
Variable ExtractAllText : Image -> completion OcrAnswer.
Variable GenerateScreenshotTitle : Image -> string -> completion string.
Variable AnalyzeScreenshotContentDetailed : Image -> string -> completion string.
Variable AnalyzeScreenshotContent : Image -> completion ContentAnalysis.
Variable GenerateComprehensiveDescription :
  Image -> string -> option string -> option (list string) -> completion string.

(** The local heuristics, which call nothing: the title taken from the
    first suitable line ([generateTitleHeuristic]), the sentence the
    fallback of [generateDescription] builds from the vote of regular
    expressions ([analyzeContentHeuristic]), and the most frequent words
    that are not stop words (the body of [extractKeywords]).  The
    pipeline is stated over any such functions; [FallbackHeuristics]
    below defines the first and the last. *)
Variable generateTitleHeuristic : string -> string.
Variable describeHeuristic : string -> string.
Variable frequentWords : string -> list string.

(** The double that the literal [0.8] denotes. *)
Definition default_confidence : float := 0x1.999999999999ap-1%float.

(** [result.confidence || 0.8]: zero and [NaN] are falsy. *)
Definition confidence_or_default (c : option float) : float :=
  match c with
  | Some v => if is_zero v || is_nan v then default_confidence else v
  | None => default_confidence
  end.

Definition extractText (img : Image) : M OcrResult :=
  fun cs =>
    let cs' := (cs ++ [CallExtractAllText img])%list in
    match ExtractAllText img with
    | Normal (OcrObject t c) =>
        (Normal {| text := or_else t ""; confidence := confidence_or_default c |}, cs')
    | Normal (OcrString s) => (Normal {| text := s; confidence := default_confidence |}, cs')
    | Normal OcrOther => (Normal {| text := ""; confidence := 0%float |}, cs')
    | Throw _ => (Normal {| text := ""; confidence := 0%float |}, cs')
    end.

Definition generateTitle (img : Image) (ocrText : string) : M string :=
  fun cs =>
    let cs' := (cs ++ [CallGenerateScreenshotTitle img ocrText])%list in
    match GenerateScreenshotTitle img ocrText with
    | Normal titleResult =>
        if negb (String.length titleResult =? 0)%nat
        then (Normal (substring 0 50 titleResult), cs')
        else (Normal (generateTitleHeuristic ocrText), cs')
    | Throw _ => (Normal (generateTitleHeuristic ocrText), cs')
    end.

Definition generateDescription (img : Image) (ocrText : string) : M string :=
  fun cs =>
    let cs' := (cs ++ [CallAnalyzeScreenshotContentDetailed img ocrText])%list in
    match AnalyzeScreenshotContentDetailed img ocrText with
    | Normal descriptionResult =>
        if negb (String.length descriptionResult =? 0)%nat
        then (Normal descriptionResult, cs')
        else (Normal (describeHeuristic ocrText), cs')
    | Throw _ => (Normal "Screenshot", cs')
    end.

Definition extractKeywords (ocrText : string) : M (list string) :=
  if blank ocrText then ret [] else ret (frequentWords ocrText).

Definition title_or_default (title : string) : string :=
  if (String.length title =? 0)%nat then "Screenshot" else title.

Definition generateComprehensiveDescription
    (img : Image) (ocrText title : string) (kws : list string) : M string :=
  fun cs =>
    let title' := or_null (Some title) in
    let cs' := (cs ++ [CallGenerateComprehensiveDescription img ocrText title' (Some kws)])%list in
    match GenerateComprehensiveDescription img ocrText title' (Some kws) with
    | Normal comprehensiveResult =>
        if negb (String.length comprehensiveResult =? 0)%nat
        then (Normal comprehensiveResult, cs')
        else
          let f0 := title_or_default title in
          let f1 := if (String.length ocrText =? 0)%nat then f0
                    else f0 ++ nl ++ nl ++ "Text content: " ++ ocrText in
          let f2 := match kws with
                    | [] => f1
                    | _ :: _ => f1 ++ nl ++ nl ++ "Keywords: " ++ join ", " kws
                    end in
          (Normal f2, cs')
    | Throw _ =>
        let f0 := title_or_default title in
        let f1 := if (String.length ocrText =? 0)%nat then f0 else f0 ++ nl ++ ocrText in
        (Normal f1, cs')
    end.

Definition doProcessScreenshot (imagePath : string) : M AIAnalysisResult :=
  (img <- (fun cs => (readFileSync imagePath, cs)) ;;
   ocrResult <- extractText img ;;
   if negb (String.length (text ocrResult) =? 0)%nat
      && negb (String.length (trim (text ocrResult)) =? 0)%nat
   then
     titleResult <- generateTitle img (text ocrResult) ;;
     descriptionResult <- generateDescription img (text ocrResult) ;;
     keywordsResult <- extractKeywords (text ocrResult) ;;
     contentAnalysis <- call (CallAnalyzeScreenshotContent img) (AnalyzeScreenshotContent img) ;;
     comprehensiveDescription <-
       generateComprehensiveDescription img (text ocrResult) titleResult keywordsResult ;;
     ret {| ocr_text := Some (text ocrResult);
            confidence_score := Some (confidence ocrResult);
            ai_title := Some titleResult;
            ai_description := Some descriptionResult;
            ai_keywords := Some keywordsResult;
            content_type := Some (analysis_content_type contentAnalysis);
            app_detected := or_null (analysis_app_detected contentAnalysis);
            url_detected := or_null (analysis_url_detected contentAnalysis);
            comprehensive_description := Some comprehensiveDescription |}
   else
     ret {| ocr_text := Some (text ocrResult);
            confidence_score := Some (confidence ocrResult);
            ai_title := None;
            ai_description := None;
            ai_keywords := None;
            content_type := None;
            app_detected := None;
            url_detected := None;
            comprehensive_description := None |})%pipeline.

End Pipeline.

End AIProcessor.

(* ================================================================== *)
(** * The local fallbacks of the pipeline *)
(* ================================================================== *)

Module FallbackHeuristics.
Import JS.

Local Open Scope string_scope.

Definition code (c : ascii) : nat := nat_of_ascii c.

Definition between (lo hi n : nat) : bool := ((lo <=? n) && (n <=? hi))%nat.

(** [\w]: a letter, a digit or the underscore. *)
Definition is_word (c : ascii) : bool :=
  between 48 57 (code c) || between 65 90 (code c) || between 97 122 (code c)
  || (code c =? 95)%nat.

(** [String.prototype.toLowerCase] on the first 256 code units. *)
Definition lower (c : ascii) : ascii :=
  let n := code c in
  if between 65 90 n || (between 192 222 n && negb (n =? 215)%nat)
  then ascii_of_nat (n + 32) else c.

Definition toLowerCase (s : string) : string :=
  string_of_list_ascii (map lower (list_ascii_of_string s)).

(** [s.split('\n')]. *)
Fixpoint split_lines (cur : list ascii) (l : list ascii) : list string :=
  match l with
  | [] => [string_of_list_ascii (rev cur)]
  | c :: l' =>
      if (code c =? 10)%nat
      then string_of_list_ascii (rev cur) :: split_lines [] l'
      else split_lines (c :: cur) l'
  end.

(** [s.split(/\s+/)]: [in_run] says that the last character read was
    white space. *)
Fixpoint split_spaces (cur : list ascii) (in_run : bool) (l : list ascii) : list string :=
  match l with
  | [] => [string_of_list_ascii (rev cur)]
  | c :: l' =>
      if is_white_space c then
        if in_run then split_spaces [] true l'
        else string_of_list_ascii (rev cur) :: split_spaces [] true l'
      else split_spaces (c :: cur) false l'
  end.

(** [s.replace(/\s+/g, ' ')]. *)
Fixpoint collapse_spaces (in_run : bool) (l : list ascii) : list ascii :=
  match l with
  | [] => []
  | c :: l' =>
      if is_white_space c then
        if in_run then collapse_spaces true l' else " "%char :: collapse_spaces true l'
      else c :: collapse_spaces false l'
  end.

(** The characters [cleanTitle] keeps: [\w], [\s] and [-.,!?]. *)
Definition title_char (c : ascii) : bool :=
  is_word c || is_white_space c
  || existsb (Ascii.eqb c) ["-"; "."; ","; "!"; "?"]%char.

Definition cleanTitle (title : string) : string :=
  trim (string_of_list_ascii
          (collapse_spaces false (filter title_char (list_ascii_of_string title)))).

(** [/^[^\w\s]*$/.test(line)]: nothing but symbols. *)
Definition only_symbols (line : string) : bool :=
  forallb (fun c => negb (is_word c || is_white_space c)) (list_ascii_of_string line).

(** The loop over the lines: the first line of 3 to 50 characters that is
    not symbols only. *)
Fixpoint first_title_line (lines : list string) : option string :=
  match lines with
  | [] => None
  | line :: rest =>
      if (String.length line <? 3)%nat || only_symbols line then first_title_line rest
      else if (String.length line <=? 50)%nat then Some line
      else first_title_line rest
  end.

Section Title.

Variable today : string.                      (* new Date().toLocaleDateString() *)

Definition generateTitleHeuristic (ocrText : string) : string :=
  if blank ocrText then "Screenshot " ++ today
  else
    let lines := filter (fun line => negb (String.length line =? 0)%nat)
                        (map trim (split_lines [] (list_ascii_of_string ocrText))) in
    match lines with
    | [] => "Screenshot " ++ today
    | firstLine :: _ =>
        match first_title_line lines with
        | Some line => cleanTitle line
        | None =>
            cleanTitle (if (50 <? String.length firstLine)%nat
                        then substring 0 47 firstLine ++ "..."
                        else firstLine)
        end
    end.

End Title.

Definition stopWords : list string :=
  ["the"; "and"; "or"; "but"; "in"; "on"; "at"; "to"; "for"; "of"; "with"; "by";
   "this"; "that"; "these"; "those"; "is"; "are"; "was"; "were"; "be"; "been";
   "have"; "has"; "had"; "do"; "does"; "did"; "will"; "would"; "could"; "should";
   "may"; "might"; "must"; "can"; "from"; "up"; "about"; "into"; "through"; "during"].

Definition isStopWord (word : string) : bool := existsb (String.eqb word) stopWords.

(** [text.replace(/[^\w\s]/g, ' ')]. *)
Definition blank_symbols (s : string) : string :=
  string_of_list_ascii
    (map (fun c => if is_word c || is_white_space c then c else " "%char)
         (list_ascii_of_string s)).

(** The words counted: lowercased, symbols blanked out, split at white
    space, longer than 3 characters, no stop words. *)
Definition candidate_words (ocrText : string) : list string :=
  filter (fun word => negb (isStopWord word))
    (filter (fun word => (3 <? String.length word)%nat)
       (split_spaces [] false (list_ascii_of_string (blank_symbols (toLowerCase ocrText))))).

(** [wordCount.set(word, (wordCount.get(word) || 0) + 1)] over the words. *)
Definition count_words (words : list string) : Map nat :=
  fold_left (fun wordCount word =>
               Map_set wordCount word
                 (match Map_get wordCount word with Some n => n | None => 0 end + 1))
            words [].

(** [entries.sort((a, b) => b[1] - a[1])]: counts are small integers, the
    comparator is consistent and the sort is the stable one. *)
Fixpoint insert_by_count (x : string * nat) (l : list (string * nat)) : list (string * nat) :=
  match l with
  | [] => [x]
  | y :: l' => if (snd y <=? snd x)%nat then x :: l else y :: insert_by_count x l'
  end.

Definition sort_by_count (l : list (string * nat)) : list (string * nat) :=
  fold_right insert_by_count [] l.

(** The body of [extractKeywords] on a text that is not blank. *)
Definition frequentWords (ocrText : string) : list string :=
  map fst (slice0 (sort_by_count (count_words (candidate_words ocrText))) 10).

End FallbackHeuristics.

(* ================================================================== *)
(** * Smart folders: [DatabaseManager] *)
(* ================================================================== *)

Module DatabaseManager.
Import JS.

Local Open Scope Z_scope.

(** A row of the table [screenshots]; times are epoch milliseconds. *)
Record Screenshot : Type := {
  id : string;
  filepath : string;
  filename : string;
  created_at : Z;
  updated_at : Z;
  file_size : Z;
  format : string;
  is_favorite : bool
}.

Record ScreenshotMetadata : Type := {
  screenshot_id : string;
  ocr_text : option string;
  ai_title : option string;
  ai_description : option string;
  ai_keywords : string;                 (* the JSON text of the column *)
  comprehensive_description : option string
}.

Record Tag : Type := { tag_id : Z; tag_name : string; tag_color : string }.

Record FolderRow : Type := { folder_id : Z; folder_name : string; is_smart : bool }.

(** The tables the evaluator reads, each in rowid order. *)
Record Database : Type := {
  screenshots : list Screenshot;
  screenshot_tags : list (string * Z);         (* (screenshot_id, tag_id) *)
  screenshot_metadata : list ScreenshotMetadata
}.

(** The [filter_rules] object of a folder. *)
Record FilterRules : Type := {
  rule_type : option string;
  days : option Z;
  tagId : option Z;
  startDate : option Z;
  endDate : option Z;
  contentType : option string
}.

(** [n || d] on an optional integer: absent and [0] are falsy. *)
Definition num_or (n : option Z) (d : Z) : Z :=
  match n with
  | Some v => if v =? 0 then d else v
  | None => d
  end.

(** [ORDER BY created_at DESC], rows of equal time in table order. *)
Fixpoint insert_desc (x : Screenshot) (l : list Screenshot) : list Screenshot :=
  match l with
  | [] => [x]
  | y :: l' => if created_at y <=? created_at x then x :: l else y :: insert_desc x l'
  end.

Definition order_by_created_at_desc (l : list Screenshot) : list Screenshot :=
  fold_right insert_desc [] l.

Definition getScreenshot (db : Database) (i : string) : option Screenshot :=
  find (fun s => String.eqb (id s) i) (screenshots db).

(** [getAllScreenshots()] without a limit. *)
Definition getAllScreenshots (db : Database) : list Screenshot :=
  order_by_created_at_desc (screenshots db).

Definition milliseconds_per_day : Z := 24 * 60 * 60 * 1000.

Section Evaluator.

Variable now : Z.                                   (* Date.now() *)
Variable sql_like : string -> string -> bool.       (* [text LIKE '%' || pattern || '%'] *)

(** The [switch] on [rules.type]: the first label strictly equal to it. *)
Definition getScreenshotsForSmartFolder (db : Database) (rules : FilterRules)
  : list Screenshot :=
  match rule_type rules with
  | None => []
  | Some t =>
      if String.eqb t "all" then getAllScreenshots db
      else if String.eqb t "recent" then
        let daysAgo := num_or (days rules) 7 in
        let since := now - daysAgo * milliseconds_per_day in
        order_by_created_at_desc
          (filter (fun s => since <? created_at s) (screenshots db))
      else if String.eqb t "favorites" then
        order_by_created_at_desc (filter is_favorite (screenshots db))
      else if String.eqb t "tag" then
        match tagId rules with
        | None => []
        | Some tag =>
            if tag =? 0 then []
            else order_by_created_at_desc
                   (filter (fun s => existsb (fun st => String.eqb (fst st) (id s)
                                                        && (snd st =? tag))
                                             (screenshot_tags db))
                           (screenshots db))
        end
      else if String.eqb t "date_range" then
        let startDate' := num_or (startDate rules) 0 in
        let endDate' := num_or (endDate rules) now in
        order_by_created_at_desc
          (filter (fun s => (startDate' <=? created_at s) && (created_at s <=? endDate'))
                  (screenshots db))
      else if String.eqb t "content_type" then
        let pattern := or_else (contentType rules) "" in
        order_by_created_at_desc
          (filter (fun s => existsb (fun m => String.eqb (screenshot_id m) (id s)
                                              && sql_like pattern (ai_keywords m))
                                    (screenshot_metadata db))
                  (screenshots db))
      else []
  end.

End Evaluator.

(** ** Pages of the table *)

(** A number in a condition: absent and [0] are falsy. *)
Definition truthy_num (n : option Z) : option Z :=
  match n with
  | Some v => if v =? 0 then None else Some v
  | None => None
  end.

(** The clauses [LIMIT n] and [OFFSET m] of SQLite: a negative limit is
    no limit, a negative offset is no offset. *)
Definition sql_limit {A : Type} (n : Z) (rows : list A) : list A :=
  if n <? 0 then rows else firstn (Z.to_nat n) rows.

Definition sql_offset {A : Type} (m : Z) (rows : list A) : list A :=
  skipn (Z.to_nat m) rows.

(** [getAllScreenshots(limit, offset)]: [LIMIT] is added to the query when
    [limit] is truthy, and [OFFSET] after it when [offset] is. *)
Definition getAllScreenshots_limit (db : Database) (limit offset : option Z) : list Screenshot :=
  let rows := order_by_created_at_desc (screenshots db) in
  match truthy_num limit with
  | Some n =>
      match truthy_num offset with
      | Some m => sql_limit n (sql_offset m rows)
      | None => sql_limit n rows
      end
  | None => rows
  end.

(** ** Changes to the tables *)

(** The properties of a [Partial<Screenshot>] the callers set on a row
    that is modelled. *)
Record ScreenshotUpdates : Type := {
  set_filepath : option string;
  set_filename : option string;
  set_is_favorite : option bool
}.

Definition no_fields (u : ScreenshotUpdates) : bool :=
  match set_filepath u, set_filename u, set_is_favorite u with
  | None, None, None => true
  | _, _, _ => false
  end.

Definition with_screenshots (db : Database) (rows : list Screenshot) : Database :=
  {| screenshots := rows;
     screenshot_tags := screenshot_tags db;
     screenshot_metadata := screenshot_metadata db |}.

Section Statements.

Variable now : Z.                        (* Date.now() *)
Variable foreign_keys : bool.            (* whether the connection enforces foreign keys *)

(** [SET field = ?, ..., updated_at = ?] on one row. *)
Definition apply_updates (u : ScreenshotUpdates) (s : Screenshot) : Screenshot :=
  {| id := id s;
     filepath := match set_filepath u with Some p => p | None => filepath s end;
     filename := match set_filename u with Some f => f | None => filename s end;
     created_at := created_at s;
     updated_at := now;
     file_size := file_size s;
     format := format s;
     is_favorite := match set_is_favorite u with Some b => b | None => is_favorite s end |}.

(** The column [filepath] is [UNIQUE]. *)
Definition filepath_taken (db : Database) (i : string) (u : ScreenshotUpdates) : bool :=
  match set_filepath u with
  | Some p =>
      existsb (fun s => negb (String.eqb (id s) i) && String.eqb (filepath s) p) (screenshots db)
  | None => false
  end.

(** [updateScreenshot(id, updates)]: whether a row was changed. *)
Definition updateScreenshot (db : Database) (i : string) (u : ScreenshotUpdates)
  : completion bool * Database :=
  if no_fields u then (Normal false, db)
  else
    match getScreenshot db i with
    | None => (Normal false, db)
    | Some _ =>
        if filepath_taken db i u
        then (Throw (JsError "UNIQUE constraint failed: screenshots.filepath"), db)
        else (Normal true,
              with_screenshots db
                (map (fun s => if String.eqb (id s) i then apply_updates u s else s)
                     (screenshots db)))
    end.

(** [deleteScreenshot(id)]: whether a row was deleted; the rows that refer
    to it go with it ([ON DELETE CASCADE]) when foreign keys are enforced. *)
Definition deleteScreenshot (db : Database) (i : string) : bool * Database :=
  (existsb (fun s => String.eqb (id s) i) (screenshots db),
   {| screenshots := filter (fun s => negb (String.eqb (id s) i)) (screenshots db);
      screenshot_tags :=
        if foreign_keys
        then filter (fun st => negb (String.eqb (fst st) i)) (screenshot_tags db)
        else screenshot_tags db;
      screenshot_metadata :=
        if foreign_keys
        then filter (fun m => negb (String.eqb (screenshot_id m) i)) (screenshot_metadata db)
        else screenshot_metadata db |}).

(** [addMetadata(metadata)]: one more row of [screenshot_metadata]; the
    insertion is refused when foreign keys are enforced and the screenshot
    has no row. *)
Definition addMetadata (db : Database) (row : ScreenshotMetadata) : completion unit * Database :=
  match foreign_keys, getScreenshot db (screenshot_id row) with
  | true, None => (Throw (JsError "FOREIGN KEY constraint failed"), db)
  | _, _ =>
      (Normal tt,
       {| screenshots := screenshots db;
          screenshot_tags := screenshot_tags db;
          screenshot_metadata := (screenshot_metadata db ++ [row])%list |})
  end.

End Statements.

End DatabaseManager.

(* ================================================================== *)
(** * Hybrid search: the handler of [search-screenshots] *)
(* ================================================================== *)

Module SearchHandler.
Import JS.

(** An entry of the answer, as [DatabaseManager]'s [SearchResult]. *)
Record SearchResult : Type := {
  screenshot : DatabaseManager.Screenshot;
  metadata : option DatabaseManager.ScreenshotMetadata;
  tags : option (list DatabaseManager.Tag);
  folders : option (list DatabaseManager.FolderRow);
  relevance_score : option float
}.

Definition entry_id (e : SearchResult) : string := DatabaseManager.id (screenshot e).

Section Handler.

(** The embedding service's environment. *)
Variable apiKey : string.
Variable fetch_embeddings : string -> OpenAIEmbeddingService.FetchOutcome.

(** The database: the table of screenshots, the lexical search over it and
    the per-screenshot reads. *)
Variable db : DatabaseManager.Database.
Variable searchScreenshots : string -> Z -> completion (list SearchResult).
Variable getMetadata : string -> option DatabaseManager.ScreenshotMetadata.
Variable getTagsForScreenshot : string -> list DatabaseManager.Tag.
Variable getFoldersForScreenshot : string -> list DatabaseManager.FolderRow.

(** The first loop: a semantic result enters the map when the database
    still has its screenshot. *)
Definition add_semantic (resultMap : Map SearchResult) (result : OpenAIEmbeddingService.SearchResult)
  : Map SearchResult :=
  let i := OpenAIEmbeddingService.result_id result in
  match DatabaseManager.getScreenshot db i with
  | Some s =>
      Map_set resultMap i
        {| screenshot := s;
           metadata := getMetadata i;
           tags := Some (getTagsForScreenshot i);
           folders := Some (getFoldersForScreenshot i);
           relevance_score := Some (OpenAIEmbeddingService.score result) |}
  | None => resultMap
  end.

(** The second loop: a lexical result enters when its id is not a key yet. *)
Definition add_text (resultMap : Map SearchResult) (result : SearchResult) : Map SearchResult :=
  if Map_has resultMap (entry_id result) then resultMap
  else Map_set resultMap (entry_id result) result.

Definition merge (semanticResults : list OpenAIEmbeddingService.SearchResult)
                 (textResults : list SearchResult) : Map SearchResult :=
  fold_left add_text textResults (fold_left add_semantic semanticResults []).

(** The handler; [embeddingService] is [None] when the service could not
    be set up.  ([limit] defaults to 50.) *)
Definition search_screenshots
    (embeddingService : option OpenAIEmbeddingService.World) (query : string) (limit : Z)
  : list SearchResult * option OpenAIEmbeddingService.World :=
  match searchScreenshots query limit with
  | Throw _ => ([], embeddingService)
  | Normal textResults =>
      match embeddingService with
      | None => (textResults, None)
      | Some w =>
          match OpenAIEmbeddingService.searchByText apiKey fetch_embeddings query limit w with
          | (Normal semanticResults, w') =>
              (slice0 (Map_values (merge semanticResults textResults)) limit, Some w')
          | (Throw _, w') => (textResults, Some w')
          end
      end
  end.

End Handler.

End SearchHandler.

(* ================================================================== *)
(** * Regular expressions and the string functions of the file names *)
(* ================================================================== *)

Module RegExp.
Import JS.

(** The regular expressions of the program are built from literals,
    classes, groups, alternation and the quantifiers [?], [*], [+], [{n}]
    and [{n,m}]; one of them ends in the assertion [$] under the flag [m].
    For such an expression [RegExp.prototype.test] answers whether some
    string of its language occurs, which Brzozowski derivatives decide;
    the assertion consumes nothing and looks at the next code unit. *)
Inductive regex : Type :=
| Fail                                   (* no string at all *)
| Empty                                  (* the empty string *)
| Chr (p : ascii -> bool)                (* one code unit of a class *)
| Seq (r1 r2 : regex)
| Alt (r1 r2 : regex)
| Star (r : regex)
| EndOfLine.                             (* [$] under the flag [m] *)

(** The line terminators below 256: LF and CR. *)
Definition is_line_terminator (c : ascii) : bool :=
  let n := nat_of_ascii c in ((n =? 10) || (n =? 13))%nat.

(** Whether the expression matches the empty string in front of [next]
    ([None]: at the end of the input). *)
Fixpoint nullable (next : option ascii) (r : regex) : bool :=
  match r with
  | Fail => false
  | Empty => true
  | Chr _ => false
  | Seq r1 r2 => nullable next r1 && nullable next r2
  | Alt r1 r2 => nullable next r1 || nullable next r2
  | Star _ => true
  | EndOfLine =>
      match next with
      | None => true
      | Some c => is_line_terminator c
      end
  end.

(** What is left to match once [c] has been read. *)
Fixpoint derivative (c : ascii) (r : regex) : regex :=
  match r with
  | Fail => Fail
  | Empty => Fail
  | EndOfLine => Fail
  | Chr p => if p c then Empty else Fail
  | Seq r1 r2 =>
      Alt (Seq (derivative c r1) r2)
          (if nullable (Some c) r1 then derivative c r2 else Fail)
  | Alt r1 r2 => Alt (derivative c r1) (derivative c r2)
  | Star r1 => Seq (derivative c r1) (Star r1)
  end.

(** The whole of [s] is a string of the expression. *)
Fixpoint matches (r : regex) (s : list ascii) : bool :=
  match s with
  | [] => nullable None r
  | c :: s' => matches (derivative c r) s'
  end.

(** [/^r$/.test(s)]. *)
Definition test_anchored (r : regex) (s : string) : bool :=
  matches r (list_ascii_of_string s).

Definition anything : regex := Star (Chr (fun _ => true)).

(** [/r/.test(s)]: a match may start and end anywhere. *)
Definition test (r : regex) (s : string) : bool :=
  matches (Seq anything (Seq r anything)) (list_ascii_of_string s).

(** ** Classes and abbreviations *)

(** [\d]. *)
Definition is_digit (c : ascii) : bool :=
  let n := nat_of_ascii c in ((48 <=? n) && (n <=? 57))%nat.

(** The canonical form of a code unit under the flag [i]: a letter of
    [a-z] is read as its capital; a code unit from 128 on never becomes
    one below 128. *)
Definition canonicalize (c : ascii) : ascii :=
  let n := nat_of_ascii c in
  if ((97 <=? n) && (n <=? 122))%nat then ascii_of_nat (n - 32) else c.

Definition chr (c : ascii) : regex := Chr (Ascii.eqb c).

Definition chr_i (c : ascii) : regex :=
  Chr (fun x => Ascii.eqb (canonicalize x) (canonicalize c)).

Fixpoint literal (s : string) : regex :=
  match s with
  | EmptyString => Empty
  | String c s' => Seq (chr c) (literal s')
  end.

(** A literal under the flag [i]. *)
Fixpoint literal_i (s : string) : regex :=
  match s with
  | EmptyString => Empty
  | String c s' => Seq (chr_i c) (literal_i s')
  end.

Definition digit : regex := Chr is_digit.

(** [r?], [r+] and [r{n}]. *)
Definition opt (r : regex) : regex := Alt r Empty.

Definition plus (r : regex) : regex := Seq r (Star r).

Fixpoint times (n : nat) (r : regex) : regex :=
  match n with
  | O => Empty
  | S n' => Seq r (times n' r)
  end.

(** The concatenation of the parts of a pattern. *)
Fixpoint cat (l : list regex) : regex :=
  match l with
  | [] => Empty
  | r :: l' => Seq r (cat l')
  end.

(** The alternatives of a group. *)
Fixpoint any_of (l : list regex) : regex :=
  match l with
  | [] => Fail
  | r :: l' => Alt r (any_of l')
  end.

End RegExp.

Module Text.
Import JS.

Local Open Scope string_scope.

(** [String(n)] for an integer below 10^21: the decimal digits, with a
    sign when negative. *)
Definition Number_toString (z : Z) : string := NilZero.string_of_int (Z.to_int z).

(** [s.replace(/[class]/g, '')]: the code units of the class are dropped. *)
Definition remove_all (class : ascii -> bool) (s : string) : string :=
  string_of_list_ascii (filter (fun c => negb (class c)) (list_ascii_of_string s)).

(** [s.replace(/[class]/g, by)]: each one is replaced. *)
Definition replace_each (class : ascii -> bool) (by_ : ascii) (s : string) : string :=
  string_of_list_ascii
    (map (fun c => if class c then by_ else c) (list_ascii_of_string s)).

(** [s.replace(/[class]+/g, by)]: each maximal run is replaced by one
    [by]; [in_run] says that the last code unit read was of the class. *)
Fixpoint replace_runs (class : ascii -> bool) (by_ : ascii) (in_run : bool) (l : list ascii)
  : list ascii :=
  match l with
  | [] => []
  | c :: l' =>
      if class c then
        if in_run then replace_runs class by_ true l'
        else by_ :: replace_runs class by_ true l'
      else c :: replace_runs class by_ false l'
  end.

(** [s.split(sep)[0]] for a separator of one code unit. *)
Fixpoint before_first (sep : ascii) (l : list ascii) : list ascii :=
  match l with
  | [] => []
  | c :: l' => if Ascii.eqb c sep then [] else c :: before_first sep l'
  end.

(** The maximal run of digits at the head. *)
Fixpoint leading_digits (l : list ascii) : list ascii :=
  match l with
  | c :: l' => if RegExp.is_digit c then c :: leading_digits l' else []
  | [] => []
  end.

(** [s.match(/(\d{n,})/)]: the leftmost place where [n] digits follow
    each other, and all the digits from there. *)
Fixpoint match_digits (n : nat) (l : list ascii) : option (list ascii) :=
  match l with
  | [] => if (n =? 0)%nat then Some [] else None
  | c :: l' =>
      if (n <=? List.length (leading_digits l))%nat then Some (leading_digits l)
      else match_digits n l'
  end.

End Text.

(* ================================================================== *)
(** * Files on disk: [FileSystemManager] *)
(* ================================================================== *)

Module FileSystemManager.
Import JS.

Local Open Scope string_scope.

(** The file system: the paths that exist. *)
Definition Files : Type := list string.

Definition existsSync (fs : Files) (p : string) : bool := existsb (String.eqb p) fs.

Definition unlinkSync (fs : Files) (p : string) : Files :=
  filter (fun q => negb (String.eqb p q)) fs.

Definition writeFileSync (fs : Files) (p : string) : Files :=
  if existsSync fs p then fs else p :: fs.

(** The name [saveScreenshot] gives a capture that comes without one:
    [iso] is [new Date().toISOString()]. *)
Definition is_colon_or_dot (c : ascii) : bool := Ascii.eqb c ":" || Ascii.eqb c ".".

Definition generated_filename (iso : string) : string :=
  "screenshot-" ++ Text.replace_each is_colon_or_dot "-" iso ++ ".png".

Section Manager.

Variable join : list string -> string.               (* path.join *)
Variable extname : string -> string.                 (* path.extname *)
Variable basename : string -> string -> string.      (* path.basename *)
Variable originalsDir : string.
Variable thumbnailsDir : string.
Variable unlink_fails : string -> bool.              (* unlinkSync throws on this path *)

(** The loop of [ensureUniqueFilename]; [fuel] bounds its iterations. *)
Fixpoint unique_loop (fuel : nat) (directory baseName ext : string) (counter : Z)
    (finalFilename : string) (fs : Files) : option string :=
  match fuel with
  | O => None
  | S fuel' =>
      if existsSync fs (join [directory; finalFilename])
      then unique_loop fuel' directory baseName ext (counter + 1)
             (baseName ++ "-" ++ Text.Number_toString counter ++ ext) fs
      else Some finalFilename
  end.

Definition ensureUniqueFilename (fuel : nat) (filename directory : string) (fs : Files)
  : option string :=
  let ext := extname filename in
  let baseName := basename filename ext in
  unique_loop fuel directory baseName ext 1 filename fs.

(** [saveScreenshot(imageData, filename)], as far as names and files go:
    the path written, and the files afterwards. *)
Definition saveScreenshot (fuel : nat) (iso : string) (filename : option string) (fs : Files)
  : option (string * Files) :=
  let filename' := if truthy filename then or_else filename "" else generated_filename iso in
  match ensureUniqueFilename fuel filename' originalsDir fs with
  | Some finalFilename =>
      let filePath := join [originalsDir; finalFilename] in
      Some (filePath, writeFileSync fs filePath)
  | None => None
  end.

(** [deleteFile]: whether a file was removed; a failing [unlinkSync] is
    logged and answered by [false]. *)
Definition deleteFile (filePath : string) (fs : Files) : bool * Files :=
  if existsSync fs filePath then
    if unlink_fails filePath then (false, fs) else (true, unlinkSync fs filePath)
  else (false, fs).

(** The keys of [thumbnailSizes]. *)
Definition thumbnailSizes : list string := ["small"; "medium"; "large"].

Definition deleteScreenshotFiles (screenshotId originalPath : string) (fs : Files) : Files :=
  fold_left
    (fun fs' sizeName =>
       snd (deleteFile (join [thumbnailsDir; sizeName; screenshotId ++ "-" ++ sizeName ++ ".png"])
                       fs'))
    thumbnailSizes
    (snd (deleteFile originalPath fs)).

(** [/^Screenshot \d{4}-\d{2}-\d{2} at \d{2}\.\d{2}\.\d{2}\.png$/]. *)
Definition screenshotPattern : RegExp.regex :=
  RegExp.cat
    [RegExp.literal "Screenshot "; RegExp.times 4 RegExp.digit; RegExp.literal "-";
     RegExp.times 2 RegExp.digit; RegExp.literal "-"; RegExp.times 2 RegExp.digit;
     RegExp.literal " at "; RegExp.times 2 RegExp.digit; RegExp.literal ".";
     RegExp.times 2 RegExp.digit; RegExp.literal "."; RegExp.times 2 RegExp.digit;
     RegExp.literal ".png"].

(** The files of [originalsDir] the scan keeps. *)
Definition potential_screenshot (file : string) : bool :=
  if RegExp.test_anchored screenshotPattern file then true
  else
    let ext := FallbackHeuristics.toLowerCase (extname file) in
    String.eqb ext ".png" || String.eqb ext ".jpg" || String.eqb ext ".jpeg".

(** [scanForExistingScreenshots]; [readdirSync] is the listing of
    [originalsDir], or the error it throws. *)
Definition scanForExistingScreenshots (readdirSync : completion (list string)) : list string :=
  match readdirSync with
  | Normal files_ =>
      map (fun file => join [originalsDir; file]) (filter potential_screenshot files_)
  | Throw _ => []
  end.

End Manager.

End FileSystemManager.

(* ================================================================== *)
(** * The main process: file names *)
(* ================================================================== *)

Module Main.
Import JS RegExp.

Local Open Scope string_scope.

(** [\d{4}-\d{2}-\d{2}] and [\d{1,2}\.\d{2}\.\d{2}]. *)
Definition date_part : regex :=
  cat [times 4 digit; literal_i "-"; times 2 digit; literal_i "-"; times 2 digit].

Definition time_part : regex :=
  cat [digit; opt digit; literal_i "."; times 2 digit; literal_i "."; times 2 digit].

Definition am_pm : regex := opt (Alt (literal_i " AM") (literal_i " PM")).

(** The four patterns of [isDefaultScreenshotName], each anchored at both
    ends and under the flag [i]. *)
Definition defaultPatterns : list regex :=
  [ cat [literal_i "Screenshot "; date_part; literal_i " at "; time_part; am_pm;
         literal_i ".png"];
    cat [literal_i "CleanShot "; date_part; literal_i " at "; time_part;
         opt (literal_i "@2x"); literal_i ".png"];
    cat [literal_i "screenshot_"; plus digit; literal_i ".png"];
    cat [literal_i "Screen Shot "; date_part; literal_i " at "; time_part; am_pm;
         literal_i ".png"] ].

Definition isDefaultScreenshotName (filename : string) : bool :=
  existsb (fun pattern => test_anchored pattern filename) defaultPatterns.

Definition shouldRenameFile (filename : string) : bool := isDefaultScreenshotName filename.

(** The class [[^\w\s-]] of the code units a title loses. *)
Definition not_for_filename (c : ascii) : bool :=
  negb (FallbackHeuristics.is_word c || is_white_space c || Ascii.eqb c "-").

(** The title as a part of a file name:
    [.replace(/[^\w\s-]/g, '').replace(/\s+/g, '-').toLowerCase().substring(0, 50)]. *)
Definition cleanTitle (aiTitle : string) : string :=
  substring 0 50
    (FallbackHeuristics.toLowerCase
       (string_of_list_ascii
          (Text.replace_runs is_white_space "-" false
             (list_ascii_of_string (Text.remove_all not_for_filename aiTitle))))).

Section Rename.

Variable now : Z.                                   (* Date.now() *)
Variable dirname : string -> string.                (* path.dirname *)
Variable join : list string -> string.              (* path.join *)
Variable rename_fails : string -> string -> bool.   (* fs.rename rejects for another reason *)

(** [fs.rename(old, new)] when nothing is at [new]: [None] when it rejects. *)
Definition rename (old new : string) (fs : FileSystemManager.Files)
  : option FileSystemManager.Files :=
  if FileSystemManager.existsSync fs old && negb (rename_fails old new)
  then Some (new :: FileSystemManager.unlinkSync fs old)
  else None.

(** [renameScreenshotFile]: the new file name, or [None] for [null]. *)
Definition renameScreenshotFile (filepath currentFilename aiTitle : string)
    (fs : FileSystemManager.Files) : option string * FileSystemManager.Files :=
  let cleanTitle' := cleanTitle aiTitle in
  if (String.length cleanTitle' <? 3)%nat then (None, fs)
  else
    let timestamp :=
      match Text.match_digits 13 (list_ascii_of_string currentFilename) with
      | Some digits => string_of_list_ascii digits
      | None => Text.Number_toString now
      end in
    let newFilename := cleanTitle' ++ "-" ++ timestamp ++ ".png" in
    let newFilepath := join [dirname filepath; newFilename] in
    if FileSystemManager.existsSync fs newFilepath then (None, fs)
    else
      match rename filepath newFilepath fs with
      | Some fs' => (Some newFilename, fs')
      | None => (None, fs)
      end.

End Rename.


(** ** The state of the main process *)

Record App : Type := {
  database : DatabaseManager.Database;                          (* dbManager *)
  search_index : Map (string * string);     (* table search_index: content, keywords *)
  files : FileSystemManager.Files;
  embeddingService : option OpenAIEmbeddingService.World;
  inference_calls : list AIProcessor.RemoteCall
}.

Definition with_database (app : App) (db : DatabaseManager.Database) : App :=
  {| database := db; search_index := search_index app; files := files app;
     embeddingService := embeddingService app; inference_calls := inference_calls app |}.

Definition with_search_index (app : App) (idx : Map (string * string)) : App :=
  {| database := database app; search_index := idx; files := files app;
     embeddingService := embeddingService app; inference_calls := inference_calls app |}.

Definition with_service (app : App) (s : option OpenAIEmbeddingService.World) : App :=
  {| database := database app; search_index := search_index app; files := files app;
     embeddingService := s; inference_calls := inference_calls app |}.

Definition with_calls (app : App) (cs : list AIProcessor.RemoteCall) : App :=
  {| database := database app; search_index := search_index app; files := files app;
     embeddingService := embeddingService app; inference_calls := cs |}.

Definition with_files (app : App) (fs : FileSystemManager.Files) : App :=
  {| database := database app; search_index := search_index app; files := fs;
     embeddingService := embeddingService app; inference_calls := inference_calls app |}.

(** [fs.existsSync] as the embedding service sees the files. *)
Definition existsSync_check (fs : FileSystemManager.Files) (p : string)
  : OpenAIEmbeddingService.FsCheck :=
  if FileSystemManager.existsSync fs p
  then OpenAIEmbeddingService.Exists else OpenAIEmbeddingService.Missing.

Section Process.

(** The file contents and the inference client. *)
Variable readFileSync : string -> completion AIProcessor.Image.
Variable ExtractAllText : AIProcessor.Image -> completion AIProcessor.OcrAnswer.
Variable GenerateScreenshotTitle : AIProcessor.Image -> string -> completion string.
Variable AnalyzeScreenshotContentDetailed : AIProcessor.Image -> string -> completion string.
Variable AnalyzeScreenshotContent :
  AIProcessor.Image -> completion AIProcessor.ContentAnalysis.
Variable GenerateComprehensiveDescription :
  AIProcessor.Image -> string -> option string -> option (list string) -> completion string.
Variable generateTitleHeuristic : string -> string.
Variable describeHeuristic : string -> string.
Variable frequentWords : string -> list string.

(** The embeddings endpoint and the store file. *)
Variable apiKey : string.
Variable write_failure : option Error.
Variable fetch_embeddings : string -> OpenAIEmbeddingService.FetchOutcome.

(** The database connection, the clock and the paths. *)
Variable foreign_keys : bool.
Variable stringify : list string -> string.           (* JSON.stringify of an array of strings *)
Variable now : Z.                                     (* Date.now() *)
Variable toISOString : string.                        (* new Date().toISOString() *)
Variable join : list string -> string.                (* path.join *)
Variable thumbnailsDir : string.
Variable unlink_fails : string -> bool.

(** [aiProcessor.processScreenshot] when no other call for the same
    screenshot is in flight. *)
Definition processScreenshot (imagePath : string)
  : AIProcessor.M AIProcessor.AIAnalysisResult :=
  AIProcessor.doProcessScreenshot readFileSync ExtractAllText GenerateScreenshotTitle
    AnalyzeScreenshotContentDetailed AnalyzeScreenshotContent GenerateComprehensiveDescription
    generateTitleHeuristic describeHeuristic frequentWords imagePath.

Definition addImage (screenshotId imagePath : string)
    (md : option OpenAIEmbeddingService.Metadata)
  : OpenAIEmbeddingService.M unit :=
  OpenAIEmbeddingService.addImage apiKey now
    (fun p => match readFileSync p with Normal img => Some img | Throw _ => None end)
    write_failure fetch_embeddings GenerateComprehensiveDescription screenshotId imagePath md.

Definition keywords_or_empty (a : AIProcessor.AIAnalysisResult) : list string :=
  match AIProcessor.ai_keywords a with
  | Some kws => kws
  | None => []
  end.

(** The row handed to [addMetadata]. *)
Definition metadata_row (screenshotId : string) (a : AIProcessor.AIAnalysisResult)
  : DatabaseManager.ScreenshotMetadata :=
  {| DatabaseManager.screenshot_id := screenshotId;
     DatabaseManager.ocr_text := AIProcessor.ocr_text a;
     DatabaseManager.ai_title := AIProcessor.ai_title a;
     DatabaseManager.ai_description := AIProcessor.ai_description a;
     DatabaseManager.ai_keywords := stringify (keywords_or_empty a);
     DatabaseManager.comprehensive_description := AIProcessor.comprehensive_description a |}.

(** The metadata handed to [addImage]. *)
Definition embedding_metadata (a : AIProcessor.AIAnalysisResult)
  : OpenAIEmbeddingService.Metadata :=
  {| OpenAIEmbeddingService.ocr_text := AIProcessor.ocr_text a;
     OpenAIEmbeddingService.ai_title := AIProcessor.ai_title a;
     OpenAIEmbeddingService.ai_description := AIProcessor.ai_description a;
     OpenAIEmbeddingService.keywords := AIProcessor.ai_keywords a;
     OpenAIEmbeddingService.comprehensive_description :=
       AIProcessor.comprehensive_description a |}.

(** [[ocr_text || '', ai_title || '', ai_description || '', ...keywords]
    .filter(Boolean).join(' ')]. *)
Definition searchContent (a : AIProcessor.AIAnalysisResult) : string :=
  JS.join " "
    (filter (fun s => negb (String.length s =? 0)%nat)
       ([or_else (AIProcessor.ocr_text a) ""; or_else (AIProcessor.ai_title a) "";
         or_else (AIProcessor.ai_description a) ""] ++ keywords_or_empty a)%list).

(** [updateSearchIndex]: [INSERT OR REPLACE] of the row of the screenshot. *)
Definition updateSearchIndex (screenshotId content : string) (keywords : list string) (app : App)
  : completion unit * App :=
  match foreign_keys, DatabaseManager.getScreenshot (database app) screenshotId with
  | true, None => (Throw (JsError "FOREIGN KEY constraint failed"), app)
  | _, _ =>
      (Normal tt,
       with_search_index app
         (Map_delete (search_index app) screenshotId
            ++ [(screenshotId, (content, JS.join " " keywords))])%list)
  end.

(** The automatic renaming at the end of [processScreenshotWithAI]: the
    row gets a new [filename]; an error is logged and nothing else. *)
Definition autoRename (screenshotId : string) (a : AIProcessor.AIAnalysisResult)
    (db : DatabaseManager.Database) : DatabaseManager.Database :=
  match AIProcessor.ai_title a with
  | Some title =>
      if (3 <? String.length title)%nat then
        match DatabaseManager.getScreenshot db screenshotId with
        | Some screenshot =>
            if isDefaultScreenshotName (DatabaseManager.filename screenshot) then
              let cleanTitle' := cleanTitle title in
              if (3 <? String.length cleanTitle')%nat then
                let timestamp :=
                  string_of_list_ascii
                    (Text.before_first "T" (list_ascii_of_string toISOString)) in
                let newFilename := cleanTitle' ++ "-" ++ timestamp ++ ".png" in
                match DatabaseManager.updateScreenshot now db screenshotId
                        {| DatabaseManager.set_filepath := None;
                           DatabaseManager.set_filename := Some newFilename;
                           DatabaseManager.set_is_favorite := None |} with
                | (Normal _, db') => db'
                | (Throw _, _) => db
                end
              else db
            else db
        | None => db
        end
      else db
  | None => db
  end.

(** [processScreenshotWithAI]; it never rejects: what the pipeline or the
    database throws is logged.  (The notifications and the message to the
    window, which come last and change nothing here, are left out.) *)
Definition processScreenshotWithAI (screenshotId imagePath : string) (app : App) : App :=
  match processScreenshot imagePath (inference_calls app) with
  | (Throw _, cs) => with_calls app cs
  | (Normal analysisResult, cs) =>
      let app0 := with_calls app cs in
      if truthy (AIProcessor.ocr_text analysisResult)
         || truthy (AIProcessor.ai_title analysisResult)
      then
        match DatabaseManager.addMetadata foreign_keys (database app0)
                (metadata_row screenshotId analysisResult) with
        | (Throw _, _) => app0
        | (Normal _, db1) =>
            let app1 := with_database app0 db1 in
            let app2 :=
              match embeddingService app1 with
              | Some w =>
                  if truthy (AIProcessor.comprehensive_description analysisResult)
                  then with_service app1
                         (Some (snd (addImage screenshotId imagePath
                                       (Some (embedding_metadata analysisResult)) w)))
                  else app1
              | None => app1
              end in
            match updateSearchIndex screenshotId (searchContent analysisResult)
                    (keywords_or_empty analysisResult) app2 with
            | (Throw _, _) => app2
            | (Normal _, app3) =>
                with_database app3 (autoRename screenshotId analysisResult (database app3))
            end
        end
      else app0
  end.

(** ** The handlers of the screenshot channels *)

(** [get-all-screenshots] ([page] defaults to 0, [limit] to 50). *)
Definition get_all_screenshots (page limit : Z) (app : App) : list DatabaseManager.Screenshot :=
  DatabaseManager.getAllScreenshots_limit (database app) (Some limit) (Some (page * limit)%Z).

(** [toggle-favorite]. *)
Definition toggle_favorite (i : string) (app : App) : completion bool * App :=
  match DatabaseManager.getScreenshot (database app) i with
  | Some screenshot =>
      let (answer, db') :=
        DatabaseManager.updateScreenshot now (database app) i
          {| DatabaseManager.set_filepath := None;
             DatabaseManager.set_filename := None;
             DatabaseManager.set_is_favorite :=
               Some (negb (DatabaseManager.is_favorite screenshot)) |} in
      (answer, with_database app db')
  | None => (Normal false, app)
  end.

(** [delete-screenshot]: the files, the record of the embedding index and
    the row. *)
Definition delete_screenshot (i : string) (app : App) : bool * App :=
  match DatabaseManager.getScreenshot (database app) i with
  | Some screenshot =>
      let files' :=
        FileSystemManager.deleteScreenshotFiles join thumbnailsDir unlink_fails
          i (DatabaseManager.filepath screenshot) (files app) in
      let service' :=
        match embeddingService app with
        | Some w => Some (snd (OpenAIEmbeddingService.removeItem i w))
        | None => None
        end in
      let (deleted, db') := DatabaseManager.deleteScreenshot foreign_keys (database app) i in
      (deleted,
       {| database := db';
          search_index :=
            if foreign_keys then Map_delete (search_index app) i else search_index app;
          files := files';
          embeddingService := service'; inference_calls := inference_calls app |})
  | None => (false, app)
  end.

End Process.

End Main.


(* ================================================================== *)
(** * The local description of a screenshot *)
(* ================================================================== *)

Module ContentHeuristics.
Import JS RegExp.

Local Open Scope string_scope.

(** The classes [\s], [\w], [.] and [[\s\S]]. *)
Definition white_space : regex := Chr is_white_space.
Definition word : regex := Chr FallbackHeuristics.is_word.
Definition dot : regex := Chr (fun c => negb (is_line_terminator c)).
Definition any_char : regex := Chr (fun _ => true).

Definition line_feed : ascii := ascii_of_nat 10.

Definition codePatterns : list regex :=
  [ cat [literal "function"; Star white_space; chr "("%char];       (* /function\s*\(/ *)
    cat [literal "class"; plus white_space; plus word];              (* /class\s+\w+/ *)
    cat [literal "import"; plus white_space; chr "{"%char];          (* /import\s+\{/ *)
    cat [literal "export"; plus white_space];                        (* /export\s+/ *)
    literal "console.log";                                           (* /console\.log/ *)
    cat [literal "return"; plus white_space];                        (* /return\s+/ *)
    cat [chr "{"%char; Star white_space; chr line_feed];             (* /\{\s*\n/ *)
    cat [chr "}"%char; Star white_space; chr ";"%char];              (* /\}\s*;/ *)
    cat [literal "/*"; Star any_char; literal "*/"];                 (* /\/\*[\s\S]*?\*\// *)
    cat [literal "//"; Star dot; EndOfLine] ].                       (* /\/\/.*$/m *)

Definition webPatterns : list regex :=
  [ cat [literal "http"; opt (chr "s"%char); literal "://"];         (* /https?:\/\// *)
    cat [chr "@"%char; plus word; chr "."%char;
         any_of [literal "com"; literal "org"; literal "net"]];      (* /@\w+\.(com|org|net)/ *)
    literal "www.";                                                  (* /www\./ *)
    cat [literal ".htm"; opt (chr "l"%char)];                        (* /\.html?/ *)
    literal ".css";                                                  (* /\.css/ *)
    literal ".js" ].                                                 (* /\.js/ *)

Definition uiPatterns : list regex :=
  map literal ["button"; "click"; "menu"; "dialog"; "window"; "tab"; "toolbar"; "sidebar"].

Definition chartPatterns : list regex :=
  map literal ["chart"; "graph"; "diagram"; "axis"; "legend"; "plot"; "data"].

(** [/a|b|c/]. *)
Definition one_of (words : list string) : regex := any_of (map literal words).

(** [patterns.some(pattern => pattern.test(text))]. *)
Definition some_test (patterns : list regex) (text : string) : bool :=
  existsb (fun pattern => test pattern text) patterns.

Record Analysis : Type := {
  type : string;
  isCode : bool;
  isText : bool;
  isUI : bool;
  isWebpage : bool;
  isDiagram : bool;
  isChart : bool;
  language : option string;
  app : option string             (* [framework] and [domain] are never set *)
}.

Definition analyzeContentHeuristic (ocrText : string) : Analysis :=
  let text := FallbackHeuristics.toLowerCase ocrText in
  let isCode := some_test codePatterns text in
  let isWebpage := some_test webPatterns text in
  let isUI := some_test uiPatterns text in
  let isChart := some_test chartPatterns text in
  let isDiagram := test (one_of ["diagram"; "flowchart"; "workflow"; "process"]) text in
  let isText := negb isCode && negb isChart && negb isDiagram in
  let type :=
    if isCode then "code"
    else if isWebpage then "webpage"
    else if isChart then "chart"
    else if isDiagram then "diagram"
    else if isUI then "interface"
    else if isText then "document"
    else "content" in
  let language :=
    if isCode then
      if test (one_of ["typescript"; "tsx"]) text then Some "typescript"
      else if test (one_of ["javascript"; "jsx"]) text then Some "javascript"
      else if test (one_of ["python"; "def "; "import "]) text then Some "python"
      else if test (one_of ["java"; "public class"]) text then Some "java"
      else if test (one_of ["swift"; "func "; "var "; "let "]) text then Some "swift"
      else None
    else None in
  let app :=
    if test (one_of ["vscode"; "visual studio code"]) text then Some "VS Code"
    else if test (literal "xcode") text then Some "Xcode"
    else if test (one_of ["terminal"; "bash"; "zsh"]) text then Some "Terminal"
    else if test (one_of ["chrome"; "safari"; "firefox"]) text then Some "Browser"
    else None in
  {| type := type; isCode := isCode; isText := isText; isUI := isUI;
     isWebpage := isWebpage; isDiagram := isDiagram; isChart := isChart;
     language := language; app := app |}.

(** [ocrText.split(/\s+/).length]. *)
Definition word_count (ocrText : string) : Z :=
  Z.of_nat (List.length (FallbackHeuristics.split_spaces [] false (list_ascii_of_string ocrText))).

(** The description [generateDescription] puts together when the remote
    one is empty.  (The part for [analysis.domain] never shows: the
    analysis has no such property.) *)
Definition describeHeuristic (ocrText : string) : string :=
  let analysis := analyzeContentHeuristic ocrText in
  let description := type analysis ++ " screenshot" in
  let description :=
    match app analysis with
    | Some a => description ++ " from " ++ a
    | None => description
    end in
  if (100 <? String.length ocrText)%nat
  then description ++ " containing " ++ Text.Number_toString (word_count ocrText) ++ " words"
  else description.

End ContentHeuristics.

(* ================================================================== *)
(** * The components of the window: editor, search bar, shortcuts *)
(* ================================================================== *)

(** The annotations of [ScreenshotEditor] and their history.  A handler
    reads the state of the last rendering and sets the next one; the
    events come one at a time. *)
Module ScreenshotEditor.
Import JS.

Local Open Scope Z_scope.

(** [a[i]] for an integral [i]; [None] is [undefined]. *)
Definition at_index {A : Type} (a : list A) (i : Z) : option A :=
  if i <? 0 then None else nth_error a (Z.to_nat i).

Section Editor.

Variable Annotation : Type.

Record State : Type := {
  annotations : list Annotation;
  history : list (list Annotation);
  historyIndex : Z
}.

(** [useState([])], [useState([])] and [useState(-1)]. *)
Definition initial : State := {| annotations := []; history := []; historyIndex := -1 |}.

Definition addAnnotation (annotation : Annotation) (st : State) : State :=
  let newAnnotations := (annotations st ++ [annotation])%list in
  let newHistory := (slice0 (history st) (historyIndex st + 1) ++ [newAnnotations])%list in
  {| annotations := newAnnotations;
     history := newHistory;
     historyIndex := Z.of_nat (List.length newHistory) - 1 |}.

(** [undo] and [redo]; the answer is [None] when the entry read from the
    history is [undefined], which would leave the component without an
    array of annotations. *)
Definition undo (st : State) : option State :=
  if 0 <? historyIndex st then
    match at_index (history st) (historyIndex st - 1) with
    | Some prevAnnotations =>
        Some {| annotations := prevAnnotations; history := history st;
                historyIndex := historyIndex st - 1 |}
    | None => None
    end
  else Some st.

Definition redo (st : State) : option State :=
  if historyIndex st <? Z.of_nat (List.length (history st)) - 1 then
    match at_index (history st) (historyIndex st + 1) with
    | Some nextAnnotations =>
        Some {| annotations := nextAnnotations; history := history st;
                historyIndex := historyIndex st + 1 |}
    | None => None
    end
  else Some st.

(** What the user does: ends a drawing or places a text, or presses one
    of the two buttons. *)
Inductive Event : Type :=
| Add (annotation : Annotation)
| Undo
| Redo.

Definition handle (e : Event) (st : State) : option State :=
  match e with
  | Add annotation => Some (addAnnotation annotation st)
  | Undo => undo st
  | Redo => redo st
  end.

Fixpoint run (events : list Event) (st : State) : option State :=
  match events with
  | [] => Some st
  | e :: events' =>
      match handle e st with
      | Some st' => run events' st'
      | None => None
      end
  end.

Definition is_add (e : Event) : bool :=
  match e with
  | Add _ => true
  | _ => false
  end.

End Editor.

Arguments annotations {Annotation} _.
Arguments history {Annotation} _.
Arguments historyIndex {Annotation} _.
Arguments initial {Annotation}.
Arguments addAnnotation {Annotation} _ _.
Arguments undo {Annotation} _.
Arguments redo {Annotation} _.
Arguments Add {Annotation} _.
Arguments Undo {Annotation}.
Arguments Redo {Annotation}.
Arguments handle {Annotation} _ _.
Arguments run {Annotation} _ _.
Arguments is_add {Annotation} _.

End ScreenshotEditor.

(** The search history of [SearchBar], in the component and in
    [localStorage] (where it is the JSON text of the array). *)
Module SearchBar.
Import JS.

Record State : Type := {
  searchHistory : list string;
  stored : option (list string)      (* localStorage['screenshot-search-history'] *)
}.

(** The component when it is mounted. *)
Definition mount (storage : option (list string)) : State :=
  {| searchHistory := match storage with Some h => h | None => [] end;
     stored := storage |}.

Definition saveToHistory (query : string) (st : State) : State :=
  if (String.length (trim query) =? 0)%nat then st
  else
    let newHistory :=
      slice0 (query :: filter (fun h => negb (String.eqb h query)) (searchHistory st)) 10 in
    {| searchHistory := newHistory; stored := Some newHistory |}.

Definition handleSubmit (value : string) (st : State) : State :=
  if negb (String.length (trim value) =? 0)%nat then saveToHistory (trim value) st else st.

End SearchBar.

(** The keyboard shortcuts of the window: [useKeyboardShortcuts],
    [createShortcut], and the list the [App] component installs.  An
    action is named by a label; [None] is an absent property. *)
Module KeyboardShortcuts.
Import JS.

Local Open Scope string_scope.

Record KeyboardShortcut (Action : Type) : Type := {
  key : string;
  ctrlKey : option bool;
  metaKey : option bool;
  shiftKey : option bool;
  altKey : option bool;
  action : Action
}.

Arguments key {Action} _.
Arguments ctrlKey {Action} _.
Arguments metaKey {Action} _.
Arguments shiftKey {Action} _.
Arguments altKey {Action} _.
Arguments action {Action} _.

Record KeyboardEvent : Type := {
  event_key : string;
  event_ctrlKey : bool;
  event_metaKey : bool;
  event_shiftKey : bool;
  event_altKey : bool;
  typing : bool      (* the target is an INPUT, a TEXTAREA or editable content *)
}.

(** [!!flag]. *)
Definition is_set (flag : option bool) : bool :=
  match flag with
  | Some b => b
  | None => false
  end.

Definition shortcut_matches {Action : Type} (shortcut : KeyboardShortcut Action)
    (event : KeyboardEvent) : bool :=
  let keyMatches :=
    String.eqb (FallbackHeuristics.toLowerCase (key shortcut))
               (FallbackHeuristics.toLowerCase (event_key event)) in
  let ctrlMatches := Bool.eqb (is_set (ctrlKey shortcut)) (event_ctrlKey event) in
  let metaMatches := Bool.eqb (is_set (metaKey shortcut)) (event_metaKey event) in
  let shiftMatches := Bool.eqb (is_set (shiftKey shortcut)) (event_shiftKey event) in
  let altMatches := Bool.eqb (is_set (altKey shortcut)) (event_altKey event) in
  keyMatches && ctrlMatches && metaMatches && shiftMatches && altMatches.

(** [handleKeyDown]: the action that runs, if any. *)
Definition handleKeyDown {Action : Type} (enabled : bool)
    (shortcuts : list (KeyboardShortcut Action)) (event : KeyboardEvent) : option Action :=
  if negb enabled then None
  else if typing event then None
  else
    match find (fun shortcut => shortcut_matches shortcut event) shortcuts with
    | Some matchingShortcut => Some (action matchingShortcut)
    | None => None
    end.

Record Modifiers : Type := {
  cmd : option bool;
  ctrl : option bool;
  shift : option bool;
  alt : option bool
}.

(** [isMac] is [navigator.platform.toUpperCase().indexOf('MAC') >= 0]. *)
Definition createShortcut {Action : Type} (isMac : bool) (key : string) (action : Action)
    (modifiers : Modifiers) : KeyboardShortcut Action :=
  {| key := key;
     metaKey := if isMac then cmd modifiers else Some false;
     ctrlKey := if negb isMac then ctrl modifiers else Some false;
     shiftKey := shift modifiers;
     altKey := alt modifiers;
     action := action |}.

Definition no_modifiers : Modifiers :=
  {| cmd := None; ctrl := None; shift := None; alt := None |}.
Definition with_cmd : Modifiers :=
  {| cmd := Some true; ctrl := None; shift := None; alt := None |}.
Definition with_cmd_shift : Modifiers :=
  {| cmd := Some true; ctrl := None; shift := Some true; alt := None |}.

(** The shortcuts of [App], by what they do. *)
Inductive AppAction : Type :=
| CaptureScreen | FocusSearch | Refresh | GridView | ListView | SelectAll | DeselectAll
| DeleteSelected | FavoriteSelected | ExportSelected | OpenEditor | CloseEditor
| ShowShortcuts.

Definition keyboardShortcuts (isMac : bool) : list (KeyboardShortcut AppAction) :=
  [ createShortcut isMac "5" CaptureScreen with_cmd_shift;
    createShortcut isMac "f" FocusSearch with_cmd;
    createShortcut isMac "r" Refresh with_cmd;
    createShortcut isMac "1" GridView with_cmd;
    createShortcut isMac "2" ListView with_cmd;
    createShortcut isMac "a" SelectAll with_cmd;
    createShortcut isMac "d" DeselectAll with_cmd;
    createShortcut isMac "Backspace" DeleteSelected no_modifiers;
    createShortcut isMac "l" FavoriteSelected with_cmd;
    createShortcut isMac "e" ExportSelected with_cmd;
    createShortcut isMac "Enter" OpenEditor no_modifiers;
    createShortcut isMac "Escape" CloseEditor no_modifiers;
    createShortcut isMac "?" ShowShortcuts with_cmd ].

(** The handler [App] installs: [editing] says that a screenshot is being
    edited, [modal] that the list of shortcuts is shown. *)
Definition app_key_down (isMac editing modal : bool) (event : KeyboardEvent)
  : option AppAction :=
  handleKeyDown (negb editing && negb modal) (keyboardShortcuts isMac) event.

End KeyboardShortcuts.
(* ================================================================== *)
(** * Binary64 arithmetic facts *)
(* ================================================================== *)

Module Float64.

Local Open Scope Z_scope.

Definition emin : Z := SpecFloat.emin prec emax.
Definition fexp64 (e : Z) : Z := SpecFloat.fexp prec emax e.

Lemma emin_value : emin = -1074.
Proof. reflexivity. Qed.

Lemma fexp64_value e : fexp64 e = Z.max (e - 53) (-1074).
Proof. reflexivity. Qed.

(** The number of binary digits of a positive number brackets it between
    two consecutive powers of two. *)
Lemma digits2_pos_bounds (p : positive) :
  2 ^ (Z.pos (digits2_pos p) - 1) <= Z.pos p < 2 ^ Z.pos (digits2_pos p).
Proof.
  induction p as [p IH | p IH | ]; cbn [digits2_pos].
  - rewrite Pos2Z.inj_succ.
    replace (Z.succ (Z.pos (digits2_pos p)) - 1) with (Z.succ (Z.pos (digits2_pos p) - 1)) by lia.
    rewrite !Z.pow_succ_r by lia. lia.
  - rewrite Pos2Z.inj_succ.
    replace (Z.succ (Z.pos (digits2_pos p)) - 1) with (Z.succ (Z.pos (digits2_pos p) - 1)) by lia.
    rewrite !Z.pow_succ_r by lia. lia.
  - cbn. lia.
Qed.

Lemma shr_1_lower (mrs : shr_record) (k : Z) :
  0 <= k -> 2 ^ (k + 1) <= shr_m mrs -> 2 ^ k <= shr_m (shr_1 mrs).
Proof.
  intros Hk H. destruct mrs as [m r s]. cbn [shr_m] in H.
  rewrite Z.pow_add_r, Z.pow_1_r in H by lia.
  assert (0 < 2 ^ k) by (apply Z.pow_pos_nonneg; lia).
  destruct m as [ | [p | p | ] | p ]; cbn [shr_1 shr_m]; lia.
Qed.

(** Shifting right by [p] bits keeps at least the leading bits. *)
Lemma iter_shr_1_lower (p : positive) :
  forall (mrs : shr_record) (k : Z),
    0 <= k -> 2 ^ (k + Z.pos p) <= shr_m mrs ->
    2 ^ k <= shr_m (iter_pos shr_1 p mrs).
Proof.
  induction p as [p IH | p IH | ]; intros mrs k Hk H; cbn [iter_pos].
  - apply IH; [lia | ]. apply IH; [lia | ]. apply shr_1_lower; [lia | ].
    replace (k + Z.pos p + Z.pos p + 1) with (k + Z.pos p~1) by lia. exact H.
  - apply IH; [lia | ]. apply IH; [lia | ].
    replace (k + Z.pos p + Z.pos p) with (k + Z.pos p~0) by lia. exact H.
  - apply shr_1_lower; assumption.
Qed.

Lemma shr_m_of_loc m l : shr_m (shr_record_of_loc m l) = m.
Proof. destruct l as [ | [ | | ] ]; reflexivity. Qed.

(** Rounding a positive mantissa whose exponent is at least [emin] to the
    format never loses all of its bits. *)
Lemma shr_fexp_pos (m : positive) (e : Z) (l : location) :
  emin <= e ->
  1 <= shr_m (fst (shr_fexp prec emax (Z.pos m) e l)) /\
  emin <= snd (shr_fexp prec emax (Z.pos m) e l).
Proof.
  intros He. unfold shr_fexp, shr. cbn [Zdigits2].
  change (SpecFloat.fexp prec emax) with fexp64. rewrite fexp64_value.
  rewrite emin_value in *.
  destruct (Z.max (Z.pos (digits2_pos m) + e - 53) (-1074) - e) as [ | q | q ] eqn:Hn;
    cbn [fst snd]; rewrite ?shr_m_of_loc; try (split; lia).
  split; [ | lia ].
  assert (Hq : Z.pos q = Z.pos (digits2_pos m) - 53) by lia.
  assert (H52 : 2 ^ 52 <= shr_m (iter_pos shr_1 q (shr_record_of_loc (Z.pos m) l))).
  { apply iter_shr_1_lower; [lia | ]. rewrite shr_m_of_loc.
    replace (52 + Z.pos q) with (Z.pos (digits2_pos m) - 1) by lia.
    apply digits2_pos_bounds. }
  assert (1 <= 2 ^ 52) by (cbv; discriminate). lia.
Qed.

Lemma round_nearest_even_ge m l : m <= round_nearest_even m l.
Proof.
  destruct l as [ | [ | | ] ]; cbn [round_nearest_even]; try lia.
  destruct (Z.even m); lia.
Qed.

(** The two results a correctly signed non-zero rounding can have. *)
Definition signed_nonzero (s : bool) (x : spec_float) : Prop :=
  (exists m e, x = S754_finite s m e) \/ x = S754_infinity s.

Lemma binary_round_aux_signed (s : bool) (m : positive) (e : Z) (l : location) :
  emin <= e -> signed_nonzero s (binary_round_aux prec emax s (Z.pos m) e l).
Proof.
  intros He. unfold binary_round_aux.
  destruct (shr_fexp_pos m e l He) as [H1 H2].
  destruct (shr_fexp prec emax (Z.pos m) e l) as [mrs' e'] eqn:E1. cbn [fst snd] in H1, H2.
  pose proof (round_nearest_even_ge (shr_m mrs') (loc_of_shr_record mrs')) as Hr.
  destruct (round_nearest_even (shr_m mrs') (loc_of_shr_record mrs')) as [ | m1 | m1 ] eqn:E2;
    try lia.
  destruct (shr_fexp_pos m1 e' loc_Exact H2) as [H3 H4].
  destruct (shr_fexp prec emax (Z.pos m1) e' loc_Exact) as [mrs'' e''] eqn:E3.
  cbn [fst snd] in H3, H4.
  destruct (shr_m mrs'') as [ | m2 | m2 ]; try lia.
  destruct (e'' <=? emax - prec); [left; eauto | right; reflexivity].
Qed.

Lemma shl_align_exp_ge (m : positive) (e e' : Z) :
  emin <= e -> emin <= e' -> emin <= snd (shl_align m e e').
Proof.
  intros H1 H2. unfold shl_align. destruct (e' - e); cbn [snd]; lia.
Qed.

Lemma binary_round_signed (s : bool) (m : positive) (e : Z) :
  emin <= e -> signed_nonzero s (binary_round prec emax s m e).
Proof.
  intros He. unfold binary_round.
  pose proof (shl_align_exp_ge m e (SpecFloat.fexp prec emax (Z.pos (digits2_pos m) + e)) He) as Hs.
  destruct (shl_align m e (SpecFloat.fexp prec emax (Z.pos (digits2_pos m) + e))) as [mz ez].
  cbn [snd] in Hs. apply binary_round_aux_signed. apply Hs.
  change (SpecFloat.fexp prec emax) with fexp64. rewrite fexp64_value, emin_value. lia.
Qed.

(** ** Subtraction and comparison of finite numbers *)

Lemma iter_xO_value (m d : positive) :
  Z.pos (Pos.iter xO m d) = Z.pos m * 2 ^ Z.pos d.
Proof.
  induction d as [ | d IH ] using Pos.peano_ind.
  - cbn. lia.
  - rewrite Pos.iter_succ, Pos2Z.inj_xO, IH, Pos2Z.inj_succ, Z.pow_succ_r by lia. lia.
Qed.

Lemma shl_align_value (m : positive) (e e' : Z) :
  e' <= e -> Z.pos (fst (shl_align m e e')) = Z.pos m * 2 ^ (e - e').
Proof.
  intros Hle. unfold shl_align.
  destruct (e' - e) as [ | d | d ] eqn:Hd; cbn [fst]; try lia.
  - replace (e - e') with 0 by lia. cbn. lia.
  - rewrite iter_xO_value. f_equal. f_equal. lia.
Qed.

(** What [bounded] says of a mantissa and its exponent. *)
Lemma bounded_canonical (m : positive) (e : Z) :
  bounded prec emax m e = true ->
  emin <= e /\ Z.pos m < 2 ^ 53 /\ (emin < e -> 2 ^ 52 <= Z.pos m).
Proof.
  unfold bounded, canonical_mantissa. intros H.
  apply andb_true_iff in H. destruct H as [H _]. apply Z.eqb_eq in H.
  change (SpecFloat.fexp prec emax) with fexp64 in H. rewrite fexp64_value in H.
  rewrite emin_value.
  pose proof (digits2_pos_bounds m) as [Hlo Hhi].
  assert (Hd : Z.pos (digits2_pos m) <= 53) by lia.
  split; [lia | split].
  - apply Z.lt_le_trans with (1 := Hhi). apply Z.pow_le_mono_r; lia.
  - intros He. assert (Hd' : Z.pos (digits2_pos m) = 53) by lia.
    rewrite Hd' in Hlo. exact Hlo.
Qed.

(** Among canonical mantissas a smaller exponent means a smaller number. *)
Lemma canonical_exp_lt (m1 m2 : positive) (e1 e2 : Z) :
  bounded prec emax m1 e1 = true -> bounded prec emax m2 e2 = true ->
  e1 < e2 -> Z.pos m1 < Z.pos m2 * 2 ^ (e2 - e1).
Proof.
  intros H1 H2 Hlt.
  apply bounded_canonical in H1. apply bounded_canonical in H2.
  destruct H1 as (He1 & Hm1 & _). destruct H2 as (He2 & _ & Hm2).
  specialize (Hm2 ltac:(lia)).
  assert (Hp : 2 ^ 1 <= 2 ^ (e2 - e1)) by (apply Z.pow_le_mono_r; lia).
  change (2 ^ 1) with 2 in Hp.
  change (2 ^ 53) with (2 ^ 52 * 2) in Hm1.
  assert (0 < 2 ^ 52) by (cbv; reflexivity).
  nia.
Qed.

(** The exact difference of the aligned mantissas, as [SFsub] forms it. *)
Definition aligned_diff (sx : bool) (mx : positive) (ex : Z)
                        (sy : bool) (my : positive) (ey : Z) : Z :=
  let ez := Z.min ex ey in
  cond_Zopp sx (Z.pos (fst (shl_align mx ex ez))) -
  cond_Zopp sy (Z.pos (fst (shl_align my ey ez))).

Lemma finite_compare_diff sx mx ex sy my ey :
  bounded prec emax mx ex = true -> bounded prec emax my ey = true ->
  SFcompare (S754_finite sx mx ex) (S754_finite sy my ey)
  = Some (aligned_diff sx mx ex sy my ey ?= 0).
Proof.
  intros Hx Hy. unfold aligned_diff. cbv zeta.
  rewrite !shl_align_value by lia.
  cbn [SFcompare]. f_equal.
  rewrite Pos.compare_cont_spec. cbn [Pos.switch_Eq].
  destruct (Z.compare_spec ex ey) as [Heq | Hlt | Hgt].
  - subst ey. rewrite Z.min_id, Z.sub_diag. change (2 ^ 0) with 1. rewrite !Z.mul_1_r.
    change (Pos.compare mx my) with (Z.pos mx ?= Z.pos my).
    destruct (Z.compare_spec (Z.pos mx) (Z.pos my)) as [E | E | E];
      destruct sx, sy; cbn [cond_Zopp CompOpp]; symmetry;
      first [ apply Z.compare_eq_iff | apply Z.compare_lt_iff | apply Z.compare_gt_iff ]; lia.
  - pose proof (canonical_exp_lt _ _ _ _ Hx Hy Hlt) as Hc.
    rewrite Z.min_l by lia. rewrite Z.sub_diag. change (2 ^ 0) with 1. rewrite Z.mul_1_r.
    destruct sx, sy; cbn [cond_Zopp]; symmetry;
      first [ apply Z.compare_lt_iff; lia | apply Z.compare_gt_iff; lia ].
  - pose proof (canonical_exp_lt _ _ _ _ Hy Hx ltac:(lia)) as Hc.
    rewrite Z.min_r by lia. rewrite Z.sub_diag. change (2 ^ 0) with 1. rewrite Z.mul_1_r.
    destruct sx, sy; cbn [cond_Zopp]; symmetry;
      first [ apply Z.compare_lt_iff; lia | apply Z.compare_gt_iff; lia ].
Qed.

Lemma binary_normalize_compare (d e : Z) :
  emin <= e ->
  SFcompare (binary_normalize prec emax d e false) (S754_zero false) = Some (d ?= 0).
Proof.
  intros He. destruct d as [ | p | p ]; cbn [binary_normalize].
  - reflexivity.
  - destruct (binary_round_signed false p e He) as [(m & e' & ->) | ->]; reflexivity.
  - destruct (binary_round_signed true p e He) as [(m & e' & ->) | ->]; reflexivity.
Qed.

(** The sign of a difference is the outcome of the comparison, except for
    two infinities of the same sign, whose difference is [NaN]. *)
Definition same_infinities (x y : spec_float) : bool :=
  match x, y with
  | S754_infinity sx, S754_infinity sy => Bool.eqb sx sy
  | _, _ => false
  end.

Lemma SFsub_compare (x y : spec_float) :
  valid_binary x = true -> valid_binary y = true ->
  x <> S754_nan -> y <> S754_nan -> same_infinities x y = false ->
  SFcompare (SF64sub x y) (S754_zero false) = SFcompare x y.
Proof.
  intros Vx Vy Nx Ny Hinf.
  destruct x as [sx | sx | | sx mx ex], y as [sy | sy | | sy my ey];
    try congruence;
    try (destruct sx, sy; cbn in Hinf |- *; congruence).
  cbn [SpecFloat.valid_binary] in Vx, Vy.
  rewrite (finite_compare_diff sx mx ex sy my ey Vx Vy).
  unfold SF64sub, SFsub. apply binary_normalize_compare.
  apply bounded_canonical in Vx. apply bounded_canonical in Vy. lia.
Qed.

(** ** The order of non-[NaN] numbers *)

(** A key whose lexicographic order is the order [SFcompare] decides. *)
Definition key (x : spec_float) : Z * Z * Z :=
  match x with
  | S754_nan => (0, 0, 0)
  | S754_zero _ => (0, 0, 0)
  | S754_infinity true => (-2, 0, 0)
  | S754_infinity false => (2, 0, 0)
  | S754_finite true m e => (-1, - e, - Z.pos m)
  | S754_finite false m e => (1, e, Z.pos m)
  end.

Definition lex_lt (a b : Z * Z * Z) : Prop :=
  let '(a1, a2, a3) := a in
  let '(b1, b2, b3) := b in
  a1 < b1 \/ (a1 = b1 /\ (a2 < b2 \/ (a2 = b2 /\ a3 < b3))).

Definition lex_le (a b : Z * Z * Z) : Prop :=
  let '(a1, a2, a3) := a in
  let '(b1, b2, b3) := b in
  a1 < b1 \/ (a1 = b1 /\ (a2 < b2 \/ (a2 = b2 /\ a3 <= b3))).

Lemma lex_le_trans a b c : lex_le a b -> lex_le b c -> lex_le a c.
Proof.
  destruct a as [[a1 a2] a3], b as [[b1 b2] b3], c as [[c1 c2] c3]. cbn. lia.
Qed.

Lemma lex_le_total a b : lex_le a b \/ lex_le b a.
Proof. destruct a as [[a1 a2] a3], b as [[b1 b2] b3]. cbn. lia. Qed.

Lemma lex_lt_not_le a b : lex_lt a b <-> ~ lex_le b a.
Proof. destruct a as [[a1 a2] a3], b as [[b1 b2] b3]. cbn. lia. Qed.

Lemma lex_le_not_lt a b : lex_le a b <-> ~ lex_lt b a.
Proof. destruct a as [[a1 a2] a3], b as [[b1 b2] b3]. cbn. lia. Qed.

Ltac compare_cases :=
  repeat match goal with
  | |- context [Pos.compare_cont Eq ?a ?b] =>
      rewrite (Pos.compare_cont_spec a b Eq); cbn [Pos.switch_Eq];
      change (Pos.compare a b) with (Z.compare (Z.pos a) (Z.pos b))
  | |- context [Z.compare ?a ?b] => destruct (Z.compare_spec a b)
  end.

Lemma SFcompare_Lt_key (x y : spec_float) :
  x <> S754_nan -> y <> S754_nan ->
  (SFcompare x y = Some Lt <-> lex_lt (key x) (key y)).
Proof.
  intros Nx Ny.
  destruct x as [sx | sx | | sx mx ex], y as [sy | sy | | sy my ey]; try congruence;
    try destruct sx; try destruct sy; cbn [SFcompare key lex_lt CompOpp];
    compare_cases; cbn [CompOpp]; split; intros Hyp; try discriminate; try lia; try reflexivity.
Qed.

Lemma SFcompare_Gt_key (x y : spec_float) :
  x <> S754_nan -> y <> S754_nan ->
  (SFcompare x y = Some Gt <-> lex_lt (key y) (key x)).
Proof.
  intros Nx Ny.
  destruct x as [sx | sx | | sx mx ex], y as [sy | sy | | sy my ey]; try congruence;
    try destruct sx; try destruct sy; cbn [SFcompare key lex_lt CompOpp];
    compare_cases; cbn [CompOpp]; split; intros Hyp; try discriminate; try lia; try reflexivity.
Qed.

Lemma SFcompare_some (x y : spec_float) :
  x <> S754_nan -> y <> S754_nan -> exists c, SFcompare x y = Some c.
Proof.
  intros Nx Ny.
  destruct x as [sx | sx | | sx mx ex], y as [sy | sy | | sy my ey]; try congruence;
    cbn [SFcompare]; eauto.
Qed.

Lemma SFltb_key (x y : spec_float) :
  x <> S754_nan -> y <> S754_nan ->
  (SFltb x y = true <-> lex_lt (key x) (key y)).
Proof.
  intros Nx Ny. rewrite <- (SFcompare_Lt_key x y Nx Ny). unfold SFltb.
  destruct (SFcompare x y) as [[ | | ] | ]; split; congruence.
Qed.

Lemma SFleb_key (x y : spec_float) :
  x <> S754_nan -> y <> S754_nan ->
  (SFleb x y = true <-> lex_le (key x) (key y)).
Proof.
  intros Nx Ny.
  rewrite lex_le_not_lt, <- (SFcompare_Gt_key x y Nx Ny). unfold SFleb.
  destruct (SFcompare_some x y Nx Ny) as [[ | | ] ->]; split; congruence.
Qed.

Lemma SFcompare_nan_l (y : spec_float) : SFcompare S754_nan y = None.
Proof. reflexivity. Qed.

Lemma SFcompare_nan_r (x : spec_float) : SFcompare x S754_nan = None.
Proof. destruct x; reflexivity. Qed.

(** ** The same facts on primitive floats *)

Local Open Scope float_scope.

Lemma is_nan_spec (x : float) : is_nan x = true <-> Prim2SF x = S754_nan.
Proof.
  unfold is_nan. rewrite eqb_spec. unfold SFeqb.
  destruct (Prim2SF x) as [s | s | | s m e] eqn:E; cbn [SFcompare].
  - split; [discriminate | congruence].
  - destruct s; (split; [discriminate | congruence]).
  - split; reflexivity.
  - rewrite Z.compare_refl, Pos.compare_cont_refl.
    destruct s; cbn; (split; [discriminate | congruence]).
Qed.

Lemma not_nan_spec (x : float) : is_nan x = false <-> Prim2SF x <> S754_nan.
Proof.
  rewrite <- is_nan_spec. destruct (is_nan x); split; congruence.
Qed.

Definition fkey (x : float) : Z * Z * Z := key (Prim2SF x).

Lemma leb_key (x y : float) :
  is_nan x = false -> is_nan y = false ->
  ((x <=? y) = true <-> lex_le (fkey x) (fkey y)).
Proof.
  intros Nx Ny. rewrite leb_spec. apply SFleb_key; apply not_nan_spec; assumption.
Qed.

Lemma ltb_key (x y : float) :
  is_nan x = false -> is_nan y = false ->
  ((x <? y) = true <-> lex_lt (fkey x) (fkey y)).
Proof.
  intros Nx Ny. rewrite ltb_spec. apply SFltb_key; apply not_nan_spec; assumption.
Qed.

Lemma leb_nan_l (x y : float) : is_nan x = true -> (x <=? y) = false.
Proof.
  intros H. apply is_nan_spec in H. rewrite leb_spec, H. reflexivity.
Qed.

Lemma leb_nan_r (x y : float) : is_nan y = true -> (x <=? y) = false.
Proof.
  intros H. apply is_nan_spec in H. rewrite leb_spec, H.
  unfold SFleb. rewrite SFcompare_nan_r. reflexivity.
Qed.

Lemma ltb_nan_l (x y : float) : is_nan x = true -> (x <? y) = false.
Proof.
  intros H. apply is_nan_spec in H. rewrite ltb_spec, H. reflexivity.
Qed.

Lemma ltb_nan_r (x y : float) : is_nan y = true -> (x <? y) = false.
Proof.
  intros H. apply is_nan_spec in H. rewrite ltb_spec, H.
  unfold SFltb. rewrite SFcompare_nan_r. reflexivity.
Qed.

Lemma leb_trans (x y z : float) :
  (x <=? y) = true -> (y <=? z) = true -> (x <=? z) = true.
Proof.
  intros Hxy Hyz.
  destruct (is_nan x) eqn:Nx; [rewrite (leb_nan_l x y Nx) in Hxy; discriminate | ].
  destruct (is_nan y) eqn:Ny; [rewrite (leb_nan_r x y Ny) in Hxy; discriminate | ].
  destruct (is_nan z) eqn:Nz; [rewrite (leb_nan_r y z Nz) in Hyz; discriminate | ].
  apply leb_key in Hxy; try assumption. apply leb_key in Hyz; try assumption.
  apply leb_key; try assumption. eapply lex_le_trans; eassumption.
Qed.

Lemma leb_total (x y : float) :
  is_nan x = false -> is_nan y = false -> (x <=? y) = false -> (y <=? x) = true.
Proof.
  intros Nx Ny H. apply leb_key; try assumption.
  destruct (lex_le_total (fkey x) (fkey y)) as [Hle | Hle]; [ | exact Hle].
  apply (leb_key x y Nx Ny) in Hle. congruence.
Qed.

Lemma ltb_leb (x y : float) :
  is_nan x = false -> is_nan y = false -> (x <? y) = negb (y <=? x).
Proof.
  intros Nx Ny.
  pose proof (ltb_key x y Nx Ny) as Hlt. pose proof (leb_key y x Ny Nx) as Hle.
  pose proof (lex_lt_not_le (fkey x) (fkey y)) as Hn.
  destruct (x <? y), (y <=? x); cbn; try reflexivity; exfalso; intuition congruence.
Qed.

Lemma Prim2SF_zero : Prim2SF 0 = S754_zero false.
Proof. reflexivity. Qed.

(** The difference of two numbers is [NaN] only for two equal infinities;
    otherwise its sign decides their order. *)
Lemma sub_leb_zero (x y : float) :
  is_nan x = false -> is_nan y = false ->
  (if is_nan (x - y) then true else (x - y <=? 0)) = (x <=? y).
Proof.
  intros Nx Ny.
  pose proof (proj1 (not_nan_spec x) Nx) as Nx'.
  pose proof (proj1 (not_nan_spec y) Ny) as Ny'.
  destruct (same_infinities (Prim2SF x) (Prim2SF y)) eqn:Hinf.
  - assert (Hd : is_nan (x - y) = true).
    { apply is_nan_spec. rewrite sub_spec.
      destruct (Prim2SF x) as [ | sx | | ], (Prim2SF y) as [ | sy | | ]; try discriminate.
      destruct sx, sy; try discriminate; reflexivity. }
    rewrite Hd, leb_spec.
    destruct (Prim2SF x) as [ | sx | | ], (Prim2SF y) as [ | sy | | ]; try discriminate.
    destruct sx, sy; try discriminate; reflexivity.
  - pose proof (SFsub_compare (Prim2SF x) (Prim2SF y) (Prim2SF_valid x) (Prim2SF_valid y)
                  Nx' Ny' Hinf) as Hc.
    destruct (SFcompare_some _ _ Nx' Ny') as [c Hxy].
    rewrite Hxy in Hc.
    assert (Hd : is_nan (x - y) = false).
    { apply not_nan_spec. rewrite sub_spec. intros E. rewrite E in Hc. discriminate. }
    rewrite Hd, !leb_spec, sub_spec, Prim2SF_zero. unfold SFleb. rewrite Hc, Hxy. reflexivity.
Qed.

(** ** Zeros and [NaN] *)

Definition zero_or_nan (x : float) : Prop :=
  (exists s, Prim2SF x = S754_zero s) \/ Prim2SF x = S754_nan.

Lemma is_zero_spec (x : float) :
  is_zero x = true <-> exists s, Prim2SF x = S754_zero s.
Proof.
  unfold is_zero. rewrite eqb_spec.
  change (Prim2SF zero) with (S754_zero false). unfold SFeqb.
  destruct (Prim2SF x) as [s | s | | s m e]; cbn [SFcompare].
  - split; eauto.
  - destruct s; (split; [discriminate | intros [s' H]; discriminate]).
  - split; [discriminate | intros [s' H]; discriminate].
  - destruct s; (split; [discriminate | intros [s' H]; discriminate]).
Qed.

Lemma zero_or_nan_zero : zero_or_nan 0.
Proof. left. exists false. reflexivity. Qed.

Lemma mul_zero_l (x y : float) : is_zero x = true -> zero_or_nan (x * y).
Proof.
  intros H. apply is_zero_spec in H. destruct H as [s H].
  unfold zero_or_nan. rewrite mul_spec, H. unfold SF64mul.
  destruct (Prim2SF y) as [sy | sy | | sy my ey]; cbn [SFmul]; eauto.
Qed.

Lemma mul_zero_r (x y : float) : is_zero y = true -> zero_or_nan (x * y).
Proof.
  intros H. apply is_zero_spec in H. destruct H as [s H].
  unfold zero_or_nan. rewrite mul_spec, H. unfold SF64mul.
  destruct (Prim2SF x) as [sx | sx | | sx mx ex]; cbn [SFmul]; eauto.
Qed.

Lemma mul_self_zero (x : float) : is_zero x = true -> Prim2SF (x * x) = S754_zero false.
Proof.
  intros H. apply is_zero_spec in H. destruct H as [s H].
  rewrite mul_spec, H. destruct s; reflexivity.
Qed.

Lemma add_zero_or_nan (x y : float) : zero_or_nan x -> zero_or_nan y -> zero_or_nan (x + y).
Proof.
  unfold zero_or_nan. rewrite add_spec. unfold SF64add.
  intros [[sx ->] | ->] [[sy ->] | ->]; cbn [SFadd]; eauto.
  destruct sx, sy; eauto.
Qed.

Lemma add_pos_zero (x y : float) :
  Prim2SF x = S754_zero false -> Prim2SF y = S754_zero false ->
  Prim2SF (x + y) = S754_zero false.
Proof. intros Hx Hy. rewrite add_spec, Hx, Hy. reflexivity. Qed.

Lemma sqrt_pos_zero (x : float) :
  Prim2SF x = S754_zero false -> Prim2SF (sqrt x) = S754_zero false.
Proof. intros Hx. rewrite sqrt_spec, Hx. reflexivity. Qed.

Lemma pos_zero_is_zero (x : float) : Prim2SF x = S754_zero false -> is_zero x = true.
Proof. intros H. apply is_zero_spec. eauto. Qed.

Lemma div_zero_or_nan (x y : float) :
  zero_or_nan x -> zero_or_nan y -> is_nan (x / y) = true.
Proof.
  unfold zero_or_nan. intros Hx Hy. apply is_nan_spec. rewrite div_spec. unfold SF64div.
  destruct Hx as [[sx ->] | ->], Hy as [[sy ->] | ->]; reflexivity.
Qed.

(** ** Multiplication commutes *)

Lemma SFmul_comm (x y : spec_float) : SF64mul x y = SF64mul y x.
Proof.
  unfold SF64mul.
  destruct x as [sx | sx | | sx mx ex], y as [sy | sy | | sy my ey]; cbn [SFmul];
    rewrite ?(xorb_comm sy sx); try reflexivity.
  rewrite (Pos.mul_comm my mx), (Z.add_comm ey ex). reflexivity.
Qed.

Lemma mul_comm (x y : float) : (x * y = y * x)%float.
Proof. apply Prim2SF_inj. rewrite !mul_spec. apply SFmul_comm. Qed.

End Float64.

(* ================================================================== *)
(** * Facts about arrays, sorting and maps *)
(* ================================================================== *)

Module JSFacts.
Import JS.

Lemma substring_length (n : nat) :
  forall s : string, (String.length (substring 0 n s) <= n)%nat.
Proof.
  induction n as [ | n IH]; intros [ | c s]; cbn [substring String.length]; try lia.
  specialize (IH s). lia.
Qed.

Lemma slice0_length {A : Type} (l : list A) (k : Z) :
  (0 <= k)%Z -> (Z.of_nat (List.length (slice0 l k)) <= k)%Z.
Proof.
  intros Hk. unfold slice0.
  destruct (Z.ltb_spec k 0) as [Hneg | _]; [lia | ].
  rewrite length_firstn. lia.
Qed.

Lemma slice0_all {A : Type} (l : list A) (k : Z) :
  (Z.of_nat (List.length l) <= k)%Z -> slice0 l k = l.
Proof.
  intros Hk. unfold slice0.
  destruct (Z.ltb_spec k 0) as [Hneg | _]; [lia | ].
  apply firstn_all2. lia.
Qed.

Lemma firstn_In {A : Type} (n : nat) :
  forall (l : list A) (x : A), In x (firstn n l) -> In x l.
Proof.
  induction n as [ | n IH]; intros [ | y l] x H; cbn [firstn] in H; try contradiction.
  destruct H as [-> | H]; [left; reflexivity | right; apply IH; exact H].
Qed.

Lemma slice0_In {A : Type} (l : list A) (k : Z) (x : A) :
  In x (slice0 l k) -> In x l.
Proof. unfold slice0. apply firstn_In. Qed.

Lemma firstn_StronglySorted {A : Type} (R : A -> A -> Prop) (n : nat) :
  forall l, StronglySorted R l -> StronglySorted R (firstn n l).
Proof.
  induction n as [ | n IH]; intros l Hs; [constructor | ].
  destruct l as [ | x l]; [constructor | ].
  cbn [firstn]. inversion Hs as [ | ? ? Hs' Hall]; subst.
  constructor; [apply IH; exact Hs' | ].
  rewrite Forall_forall in *. intros y Hy. apply Hall. eapply firstn_In. exact Hy.
Qed.

Lemma slice0_StronglySorted {A : Type} (R : A -> A -> Prop) (l : list A) (k : Z) :
  StronglySorted R l -> StronglySorted R (slice0 l k).
Proof. unfold slice0. apply firstn_StronglySorted. Qed.

Lemma firstn_NoDup {A : Type} (n : nat) :
  forall l : list A, NoDup l -> NoDup (firstn n l).
Proof.
  induction n as [ | n IH]; intros [ | x l] Hnd; cbn [firstn]; try constructor.
  - inversion Hnd as [ | ? ? Hx Hl]; subst. intros Hin. apply Hx. eapply firstn_In. exact Hin.
  - inversion Hnd; subst. apply IH. assumption.
Qed.

Lemma slice0_map {A B : Type} (f : A -> B) (l : list A) (k : Z) :
  map f (slice0 l k) = slice0 (map f l) k.
Proof. unfold slice0. rewrite length_map. symmetry. apply firstn_map. Qed.

Lemma slice0_NoDup {A : Type} (l : list A) (k : Z) : NoDup l -> NoDup (slice0 l k).
Proof. unfold slice0. apply firstn_NoDup. Qed.

Lemma slice0_app_prefix {A : Type} (l1 l2 : list A) (k : Z) :
  (Z.of_nat (List.length l1) <= k)%Z ->
  exists l2', slice0 (l1 ++ l2) k = l1 ++ l2' /\ forall x, In x l2' -> In x l2.
Proof.
  intros Hk. unfold slice0.
  destruct (Z.ltb_spec k 0) as [Hneg | _]; [lia | ].
  rewrite length_app.
  set (n := Z.to_nat (Z.min k (Z.of_nat (List.length l1 + List.length l2)))).
  assert (Hn : (List.length l1 <= n)%nat) by (unfold n; lia).
  replace n with (List.length l1 + (n - List.length l1))%nat by lia.
  rewrite firstn_app_2. eexists. split; [reflexivity | ].
  intros x. apply firstn_In.
Qed.

Section SortFacts.
Context {A : Type}.
Variable comparefn : A -> A -> float.

(** [x] may stand before [y]. *)
Definition before (x y : A) : Prop := (SortCompare comparefn x y <=? 0)%float = true.

Lemma insert_Permutation (x : A) (l : list A) :
  Permutation (insert comparefn x l) (x :: l).
Proof.
  induction l as [ | y l IH]; cbn [insert]; [reflexivity | ].
  destruct (SortCompare comparefn x y <=? 0)%float; [reflexivity | ].
  rewrite IH. apply perm_swap.
Qed.

Lemma sort_Permutation (l : list A) : Permutation (sort comparefn l) l.
Proof.
  induction l as [ | x l IH]; cbn [sort fold_right]; [reflexivity | ].
  fold (sort comparefn l). rewrite insert_Permutation. constructor. exact IH.
Qed.

Lemma sort_In (l : list A) (x : A) : In x (sort comparefn l) <-> In x l.
Proof.
  split; apply Permutation_in; [ | symmetry ]; apply sort_Permutation.
Qed.

Lemma sort_length (l : list A) : List.length (sort comparefn l) = List.length l.
Proof. apply Permutation_length, sort_Permutation. Qed.

(** On a set of elements where the comparator is a total preorder the
    sort sorts. *)
Variable good : A -> Prop.
Hypothesis before_total :
  forall x y, good x -> good y -> ~ before x y -> before y x.
Hypothesis before_trans :
  forall x y z, good x -> good y -> good z -> before x y -> before y z -> before x z.

Lemma insert_sorted (x : A) (l : list A) :
  good x -> Forall good l ->
  StronglySorted before l -> StronglySorted before (insert comparefn x l).
Proof.
  intros Gx. induction l as [ | y l IH]; intros Gl Hs; cbn [insert].
  - repeat constructor.
  - inversion Gl as [ | ? ? Gy Gl']; subst.
    inversion Hs as [ | ? ? Hs' Hall]; subst.
    destruct (SortCompare comparefn x y <=? 0)%float eqn:E.
    + constructor; [exact Hs | ].
      constructor; [exact E | ].
      rewrite Forall_forall in *. intros z Hz.
      apply before_trans with y; auto.
    + constructor; [apply IH; assumption | ].
      rewrite Forall_forall in *. intros z Hz.
      apply (Permutation_in _ (insert_Permutation x l)) in Hz.
      destruct Hz as [<- | Hz]; [ | auto].
      apply before_total; auto. unfold before. congruence.
Qed.

Lemma sort_sorted (l : list A) :
  Forall good l -> StronglySorted before (sort comparefn l).
Proof.
  induction l as [ | x l IH]; intros Gl; cbn [sort fold_right]; [constructor | ].
  fold (sort comparefn l). inversion Gl as [ | ? ? Gx Gl']; subst.
  apply insert_sorted; auto.
  rewrite Forall_forall in *. intros z Hz. apply Gl'. apply sort_In. exact Hz.
Qed.
End SortFacts.

Section MapFacts.
Context {V : Type}.

Lemma Map_get_In (m : Map V) (k : string) (v : V) :
  Map_get m k = Some v -> In (k, v) m.
Proof.
  induction m as [ | [k' v'] m IH]; cbn [Map_get]; [discriminate | ].
  destruct (String.eqb_spec k k') as [-> | Hne].
  - intros [= ->]. left. reflexivity.
  - intros H. right. apply IH. exact H.
Qed.

Lemma Map_has_In (m : Map V) (k : string) :
  Map_has m k = true <-> In k (Map_keys m).
Proof.
  unfold Map_has, Map_keys.
  induction m as [ | [k' v'] m IH]; cbn [Map_get map fst In].
  - split; [discriminate | tauto].
  - destruct (String.eqb_spec k k') as [-> | Hne].
    + split; auto.
    + rewrite IH. split; [auto | intros [E | H]; congruence].
Qed.

Lemma Map_delete_has (m : Map V) (k : string) : Map_has (Map_delete m k) k = false.
Proof.
  destruct (Map_has (Map_delete m k) k) eqn:E; [ | reflexivity].
  apply Map_has_In in E. unfold Map_keys, Map_delete in E.
  apply in_map_iff in E. destruct E as ([k' v] & Hk & Hin). cbn in Hk. subst k'.
  apply filter_In in Hin. destruct Hin as [_ Hf]. cbn in Hf.
  rewrite String.eqb_refl in Hf. discriminate.
Qed.
Lemma Map_has_app (m m' : Map V) (k : string) :
  Map_has (m ++ m') k = Map_has m k || Map_has m' k.
Proof.
  unfold Map_has. induction m as [ | [k' v'] m IH]; cbn [app Map_get]; [reflexivity | ].
  destruct (String.eqb k k'); [reflexivity | exact IH].
Qed.

Lemma Map_has_false (m : Map V) (k : string) :
  Map_has m k = false <-> ~ In k (Map_keys m).
Proof.
  rewrite <- Map_has_In. destruct (Map_has m k); split; congruence.
Qed.

Lemma Map_set_fresh (m : Map V) (k : string) (v : V) :
  Map_has m k = false -> Map_set m k v = m ++ [(k, v)].
Proof.
  unfold Map_has. induction m as [ | [k' v'] m IH]; cbn [Map_get Map_set app]; [reflexivity | ].
  destruct (String.eqb k k'); [discriminate | ].
  intros H. rewrite (IH H). reflexivity.
Qed.
End MapFacts.

End JSFacts.

(* ================================================================== *)
(** * Properties of the embedding store *)
(* ================================================================== *)

Module EmbeddingStoreTheory.
Import JS JSFacts OpenAIEmbeddingService.

Local Open Scope string_scope.

(** Results in descending order of score: every entry scores at least as
    much as each entry after it. *)
Definition descending (rs : list SearchResult) : Prop :=
  StronglySorted (fun a b => (score b <=? score a)%float = true) rs.

Definition scored (r : SearchResult) : Prop := is_nan (score r) = false.

Lemma before_by_score (x y : SearchResult) :
  scored x -> scored y ->
  (before by_score x y <-> (score y <=? score x)%float = true).
Proof.
  unfold scored, before, SortCompare, by_score. intros Nx Ny.
  pose proof (Float64.sub_leb_zero (score y) (score x) Ny Nx) as H.
  destruct (is_nan (score y - score x)); rewrite <- H; [ | reflexivity].
  split; reflexivity.
Qed.

Lemma sort_by_score_descending (rs : list SearchResult) :
  Forall scored rs -> descending (sort by_score rs).
Proof.
  intros Hrs.
  assert (Hs : StronglySorted (before by_score) (sort by_score rs)).
  { apply sort_sorted with (good := scored); [ | | exact Hrs].
    - intros x y Gx Gy Hn. apply before_by_score; [assumption | assumption | ].
      apply Float64.leb_total; try assumption.
      destruct (score y <=? score x)%float eqn:E; [ | reflexivity].
      exfalso. apply Hn. apply before_by_score; assumption.
    - intros x y z Gx Gy Gz Hxy Hyz.
      apply before_by_score in Hxy; try assumption.
      apply before_by_score in Hyz; try assumption.
      apply before_by_score; try assumption.
      eapply Float64.leb_trans; eassumption. }
  assert (Hg : Forall scored (sort by_score rs)).
  { rewrite Forall_forall in *. intros r Hr. apply Hrs. apply (sort_In by_score). exact Hr. }
  unfold descending. induction Hs as [ | a l Hs IH Hall]; [constructor | ].
  inversion Hg as [ | ? ? Ga Gl]; subst.
  constructor; [apply IH; exact Gl | ].
  rewrite Forall_forall in *. intros b Hb.
  apply before_by_score; auto.
Qed.

(** A descending list of two or more entries holds no [NaN] score. *)
Lemma descending_scored (rs : list SearchResult) :
  descending rs -> (2 <= List.length rs)%nat -> Forall scored rs.
Proof.
  unfold descending, scored. intros Hs Hlen.
  destruct rs as [ | a [ | b t]]; cbn in Hlen; try lia.
  inversion Hs as [ | ? ? _ Hall]; subst.
  assert (Ha : is_nan (score a) = false).
  { inversion Hall as [ | ? ? Hba _]; subst.
    destruct (is_nan (score a)) eqn:E; [ | reflexivity].
    rewrite (Float64.leb_nan_r _ _ E) in Hba. discriminate. }
  constructor; [exact Ha | ].
  rewrite Forall_forall in *. intros c Hc. specialize (Hall c Hc).
  destruct (is_nan (score c)) eqn:E; [ | reflexivity].
  rewrite (Float64.leb_nan_l _ _ E) in Hall. discriminate.
Qed.

Section Theory.

Variable apiKey : string.
Variable now : Z.
Variable readFileSync : string -> option Image.
Variable existsSync : string -> FsCheck.
Variable write_failure : option Error.
Variable fetch_embeddings : string -> FetchOutcome.
Variable GenerateComprehensiveDescription :
  Image -> string -> option string -> option (list string) -> completion string.

Abbreviation createEmbedding := (createEmbedding apiKey fetch_embeddings).
Abbreviation searchByText := (searchByText apiKey fetch_embeddings).
Abbreviation generateComprehensiveDescription :=
  (generateComprehensiveDescription readFileSync GenerateComprehensiveDescription).
Abbreviation save := (save now write_failure).
Abbreviation addImage :=
  (addImage apiKey now readFileSync write_failure fetch_embeddings GenerateComprehensiveDescription).
Abbreviation purgeStaleEmbeddings := (purgeStaleEmbeddings now existsSync write_failure).

(** ** Which parts of the world each helper touches *)

Lemma createEmbedding_store (text0 : string) (w w' : World) (r : completion (list float)) :
  createEmbedding text0 w = (r, w') ->
  items w' = items w /\ file w' = file w /\ writes w' = writes w.
Proof.
  unfold OpenAIEmbeddingService.createEmbedding, throw. intros H.
  destruct (String.length apiKey =? 0)%nat; [inversion H; subst; auto | ].
  destruct (blank text0); [inversion H; subst; auto | ].
  destruct (fetch_embeddings _) as [e | st tx | [ | [[ | x v] | ]]];
    inversion H; subst; auto.
Qed.

Lemma createEmbedding_nonempty (text0 : string) (w w' : World) (v : list float) :
  createEmbedding text0 w = (Normal v, w') -> v <> [].
Proof.
  unfold OpenAIEmbeddingService.createEmbedding, throw. intros H.
  destruct (String.length apiKey =? 0)%nat; [discriminate | ].
  destruct (blank text0); [discriminate | ].
  destruct (fetch_embeddings _) as [e | st tx | [ | [[ | x v'] | ]]];
    inversion H; subst; discriminate.
Qed.

Lemma generateComprehensiveDescription_store (p : string) (md : option Metadata) (w : World) :
  exists c w', generateComprehensiveDescription p md w = (Normal c, w')
               /\ items w' = items w /\ file w' = file w /\ writes w' = writes w.
Proof.
  unfold OpenAIEmbeddingService.generateComprehensiveDescription.
  destruct (truthy (field comprehensive_description md)); [eauto 6 | ].
  destruct (readFileSync p) as [img | ]; [ | eauto 6].
  destruct (GenerateComprehensiveDescription _ _ _ _) as [d | e]; [ | eauto 6].
  destruct (negb (String.length d =? 0)%nat); eauto 6.
Qed.

(** ** Scoring *)

Lemma score_items_spec (qe : list float) (m : Map IndexedItem) (rs : list SearchResult) :
  score_items qe m = Normal rs ->
  Forall (fun r => In (result_id r, item r) m /\
                   exists e, embedding (item r) = Some e /\
                             cosineSimilarity qe e = Normal (score r)) rs.
Proof.
  revert rs. induction m as [ | [k it] m IH]; intros rs H; cbn [score_items] in H.
  - inversion H. constructor.
  - destruct (embedding it) as [e | ] eqn:Ee.
    + destruct (cosineSimilarity qe e) as [s | err] eqn:Ec; [ | discriminate].
      destruct (score_items qe m) as [rs' | err]; [ | discriminate].
      inversion H; subst. constructor.
      * cbn. split; [left; reflexivity | eauto].
      * specialize (IH rs' eq_refl). rewrite Forall_forall in *.
        intros r Hr. destruct (IH r Hr) as [Hin Hex]. split; [right; exact Hin | exact Hex].
    + specialize (IH rs H). rewrite Forall_forall in *.
      intros r Hr. destruct (IH r Hr) as [Hin Hex]. split; [right; exact Hin | exact Hex].
Qed.

(** [searchByText] has no path that throws. *)
Lemma searchByText_cases (query : string) (k : Z) (w : World) :
  (exists w', searchByText query k w = (Normal [], w')) \/
  (exists qe w' rs,
      createEmbedding query w = (Normal qe, w') /\
      score_items qe (items w') = Normal rs /\
      searchByText query k w = (Normal (slice0 (sort by_score rs) k), w')).
Proof.
  unfold OpenAIEmbeddingService.searchByText, try_catch, bind, ret.
  destruct (Map_size (items w) =? 0)%nat; [left; eauto | ].
  destruct (createEmbedding query w) as [[qe | e] w'] eqn:Ec; [ | left; eauto].
  destruct (score_items qe (items w')) as [rs | e] eqn:Es; [ | left; eauto].
  right. exists qe, w', rs. auto.
Qed.

Lemma searchByText_length (query : string) (k : Z) (w : World) :
  (0 <= k)%Z ->
  exists rs w', searchByText query k w = (Normal rs, w') /\ (Z.of_nat (List.length rs) <= k)%Z.
Proof.
  intros Hk.
  destruct (searchByText_cases query k w) as [(w' & ->) | (qe & w' & rs & _ & _ & ->)].
  - exists [], w'. cbn. auto.
  - eexists _, w'. split; [reflexivity | ]. apply slice0_length. exact Hk.
Qed.

Lemma score_items_NoDup (qe : list float) (m : Map IndexedItem) (rs : list SearchResult) :
  NoDup (Map_keys m) -> score_items qe m = Normal rs -> NoDup (map result_id rs).
Proof.
  revert rs. induction m as [ | [k it] m IH]; intros rs Hnd H; cbn [score_items] in H.
  - inversion H. constructor.
  - cbn [Map_keys map fst] in Hnd. inversion Hnd as [ | ? ? Hk Hm]; subst.
    destruct (embedding it) as [e | ]; [ | apply IH; assumption].
    destruct (cosineSimilarity qe e) as [sc | err]; [ | discriminate].
    destruct (score_items qe m) as [rs' | err] eqn:Es; [ | discriminate].
    inversion H; subst. cbn [map result_id]. constructor; [ | apply IH; auto].
    intros Hin. apply Hk. apply in_map_iff in Hin. destruct Hin as (r & Hr & Hin).
    pose proof (score_items_spec _ _ _ Es) as Hspec. rewrite Forall_forall in Hspec.
    destruct (Hspec r Hin) as [Hitem _]. unfold Map_keys.
    apply in_map_iff. exists (result_id r, item r). split; [exact Hr | exact Hitem].
Qed.

(** The ids of the results are distinct, as the keys of the map are. *)
Lemma searchByText_NoDup (query : string) (k : Z) (w w' : World) (rs : list SearchResult) :
  NoDup (Map_keys (items w)) ->
  searchByText query k w = (Normal rs, w') -> NoDup (map result_id rs).
Proof.
  intros Hnd H.
  destruct (searchByText_cases query k w) as [(w1 & E) | (qe & w1 & rs1 & Hc & Hs & E)];
    rewrite E in H; inversion H; subst.
  - constructor.
  - destruct (createEmbedding_store _ _ _ _ Hc) as (Hitems & _ & _). rewrite Hitems in Hs.
    rewrite slice0_map. apply slice0_NoDup.
    apply (Permutation_NoDup (l := map result_id rs1)).
    + apply Permutation_map. symmetry. apply sort_Permutation.
    + eapply score_items_NoDup; eassumption.
Qed.

(** C1 (as amended).  For a non-negative [k], in every state of the store,
    [searchByText(query, k)] returns at most [k] entries, each a record
    of the store with the cosine similarity of its vector against the
    embedded query; and whenever none of the scores computed for the
    stored records is [NaN], the entries are in descending order of
    score. *)
Theorem searchByText_top_k (query : string) (k : Z) (w : World) :
  (0 <= k)%Z ->
  exists rs w',
    searchByText query k w = (Normal rs, w') /\
    (Z.of_nat (List.length rs) <= k)%Z /\
    (forall r, In r rs ->
       In (result_id r, item r) (items w) /\
       exists qe w1 e, createEmbedding query w = (Normal qe, w1) /\
                       embedding (item r) = Some e /\
                       cosineSimilarity qe e = Normal (score r)) /\
    ((forall qe w1 scores,
         createEmbedding query w = (Normal qe, w1) ->
         score_items qe (items w) = Normal scores -> Forall scored scores) ->
     descending rs).
Proof.
  intros Hk.
  destruct (searchByText_cases query k w) as [(w' & ->) | (qe & w' & rs & Hc & Hs & ->)].
  - exists [], w'. split; [reflexivity | ]. split; [cbn; lia | ].
    split; [intros r [] | intros _; constructor].
  - destruct (createEmbedding_store _ _ _ _ Hc) as (Hitems & _ & _). rewrite Hitems in Hs.
    eexists _, w'. split; [reflexivity | ].
    split; [apply slice0_length; exact Hk | ].
    split.
    + intros r Hr. apply slice0_In in Hr. apply (proj1 (sort_In by_score _ _)) in Hr.
      pose proof (score_items_spec _ _ _ Hs) as Hspec.
      rewrite Forall_forall in Hspec. destruct (Hspec r Hr) as [Hin (e & He & Hcos)].
      split; [exact Hin | ]. exists qe, w', e. auto.
    + intros Hscored. apply slice0_StronglySorted. apply sort_by_score_descending.
      eapply Hscored; eassumption.
Qed.

(** C2.  On vectors of different lengths [cosineSimilarity] throws; it
    returns no number. *)
Theorem cosineSimilarity_length_mismatch (a b : list float) :
  List.length a <> List.length b ->
  cosineSimilarity a b = Throw (JsError "Vectors must have the same length") /\
  forall v, cosineSimilarity a b <> Normal v.
Proof.
  intros Hne. unfold cosineSimilarity.
  destruct (Nat.eqb_spec (List.length a) (List.length b)) as [E | _]; [contradiction | ].
  cbn [negb]. split; [reflexivity | discriminate].
Qed.

(** ** Failures of the embedding call *)

Lemma searchByText_never_throws (query : string) (k : Z) (w : World) :
  exists rs w', searchByText query k w = (Normal rs, w').
Proof.
  destruct (searchByText_cases query k w) as [(w' & ->) | (qe & w' & rs & _ & _ & ->)]; eauto.
Qed.

(** C5 (as amended).  When the embedding call fails during [searchByText]
    the error does not reach the caller: the call completes normally with
    the empty array, as it does when nothing matches. *)
Theorem searchByText_embedding_failure (query : string) (k : Z) (w w' : World) (e : Error) :
  createEmbedding query w = (Throw e, w') ->
  fst (searchByText query k w) = Normal [].
Proof.
  intros Hc. unfold OpenAIEmbeddingService.searchByText, try_catch, bind, ret.
  destruct (Map_size (items w) =? 0)%nat; [reflexivity | ].
  rewrite Hc. reflexivity.
Qed.

(** ** [addImage] *)

Lemma createEmbedding_empty_vector (text0 : string) (w : World) :
  fetch_embeddings (substring 0 text_budget text0) = Body (FirstEmbedding (Some [])) ->
  is_throw (fst (createEmbedding text0 w)) = true.
Proof.
  intros H. unfold OpenAIEmbeddingService.createEmbedding, throw.
  destruct (String.length apiKey =? 0)%nat; [reflexivity | ].
  destruct (blank text0); [reflexivity | ].
  rewrite H. reflexivity.
Qed.

(** C8.  An [addImage] call for an id that is not indexed yet, in which
    the resolved description is blank, or the embedding computation fails,
    or the endpoint answers an empty vector, throws; the record map and the
    store file are what they were, and the file was not written. *)
Theorem addImage_failure_not_indexed
    (id0 imagePath : string) (md : option Metadata) (w w1 : World) (c : string) :
  Map_has (items w) id0 = false ->
  generateComprehensiveDescription imagePath md w = (Normal c, w1) ->
  blank c = true \/
  is_throw (fst (createEmbedding c w1)) = true \/
  fetch_embeddings (substring 0 text_budget c) = Body (FirstEmbedding (Some [])) ->
  exists e w',
    addImage id0 imagePath md w = (Throw e, w') /\
    items w' = items w /\ file w' = file w /\ writes w' = writes w /\
    Map_has (items w') id0 = false.
Proof.
  intros Hnew Hg Hfail.
  destruct (generateComprehensiveDescription_store imagePath md w)
    as (c' & w1' & Hg' & Hi1 & Hf1 & Hw1).
  rewrite Hg in Hg'. inversion Hg'; subst c' w1'. clear Hg'.
  unfold OpenAIEmbeddingService.addImage, bind. rewrite Hnew, Hg.
  destruct (blank c) eqn:Hb.
  - unfold throw. eexists _, w1. split; [reflexivity | ]. rewrite Hi1. auto.
  - assert (Ht : is_throw (fst (createEmbedding c w1)) = true).
    { destruct Hfail as [Hfail | [Hfail | Hfail]];
        [discriminate | exact Hfail | apply createEmbedding_empty_vector; exact Hfail]. }
    destruct (createEmbedding c w1) as [[v | e] w2] eqn:Hc; [discriminate | ].
    destruct (createEmbedding_store _ _ _ _ Hc) as (Hi2 & Hf2 & Hw2).
    exists e, w2. split; [reflexivity | ].
    rewrite Hi2, Hf2, Hw2, Hi1, Hf1, Hw1. auto.
Qed.

(** C9.  [addImage] on an id that already has a record returns at once:
    the whole world (record map, store file, remote calls issued) is
    unchanged. *)
Theorem addImage_idempotent (id0 imagePath : string) (md : option Metadata) (w : World) :
  Map_has (items w) id0 = true ->
  addImage id0 imagePath md w = (Normal tt, w).
Proof.
  intros Hhas. unfold OpenAIEmbeddingService.addImage. rewrite Hhas. reflexivity.
Qed.

(** ** Persistence *)

(** What [addImage] leaves behind when it indexes a record. *)
Lemma addImage_success_persisted
    (id0 imagePath : string) (md : option Metadata) (w w' : World) :
  Map_has (items w) id0 = false ->
  addImage id0 imagePath md w = (Normal tt, w') ->
  Map_has (items w') id0 = true /\
  exists f, file w' = Some f /\ file_items f = items w'.
Proof.
  intros Hnew H.
  unfold OpenAIEmbeddingService.addImage, bind in H. rewrite Hnew in H.
  destruct (generateComprehensiveDescription imagePath md w) as [[c | e] w1]; [ | discriminate].
  destruct (blank c); [discriminate | ].
  destruct (createEmbedding c w1) as [[v | e] w2]; [ | discriminate].
  destruct (List.length v =? 0)%nat; [discriminate | ].
  unfold OpenAIEmbeddingService.save in H.
  destruct write_failure as [e | ]; [discriminate | ].
  inversion H; subst w'. cbn [items file with_file with_items]. split; [ | eauto].
  clear. unfold Map_has. induction (items w2) as [ | [k' v'] m IH]; cbn [Map_set Map_get].
  - rewrite String.eqb_refl. reflexivity.
  - destruct (String.eqb id0 k') eqn:E; cbn [Map_get]; rewrite ?E, ?String.eqb_refl; auto.
Qed.

(** [removeItem] touches the map in memory only. *)
Lemma removeItem_file (id0 : string) (w : World) :
  removeItem id0 w = (Normal tt, with_items w (Map_delete (items w) id0)) /\
  file (snd (removeItem id0 w)) = file w.
Proof. split; reflexivity. Qed.

(** C6 (the code at the failing input).  Once a record is in the store
    file, [removeItem] deletes it from the map in memory and leaves the
    file as it was: a service restarted from the file holds the record
    again. *)
Theorem removeItem_not_persisted (id0 : string) (it : IndexedItem) (f : StoreFile) (w : World) :
  file w = Some f ->
  Map_get (file_items f) id0 = Some it ->
  let w' := snd (removeItem id0 w) in
  Map_has (items w') id0 = false /\
  file w' = Some f /\
  Map_get (items (restart w')) id0 = Some it.
Proof.
  intros Hf Hget. cbn. split; [apply Map_delete_has | ]. split; [exact Hf | ].
  rewrite Hf. exact Hget.
Qed.

(** ** Vectors of zeros *)

Definition all_zero (a : list float) : bool := forallb is_zero a.

Definition same_dimension (qe : list float) (m : Map IndexedItem) : Prop :=
  Forall (fun kv => match embedding (snd kv) with
                    | Some e => List.length e = List.length qe
                    | None => True
                    end) m.

Lemma accumulate_zero_l (a : list float) :
  forall (b : list float) (dot na nb : float),
    all_zero a = true -> Float64.zero_or_nan dot -> Prim2SF na = S754_zero false ->
    Float64.zero_or_nan (fst (fst (accumulate a b dot na nb))) /\
    Prim2SF (snd (fst (accumulate a b dot na nb))) = S754_zero false.
Proof.
  induction a as [ | x a IH]; intros b dot na nb Hz Hd Hn.
  - destruct b; cbn; auto.
  - destruct b as [ | y b]; [cbn; auto | ].
    cbn [all_zero forallb] in Hz. apply andb_true_iff in Hz. destruct Hz as [Hx Ha].
    cbn [accumulate]. apply IH; [exact Ha | | ].
    + apply Float64.add_zero_or_nan; [exact Hd | apply Float64.mul_zero_l; exact Hx].
    + apply Float64.add_pos_zero; [exact Hn | apply Float64.mul_self_zero; exact Hx].
Qed.

Lemma accumulate_zero_r (a : list float) :
  forall (b : list float) (dot na nb : float),
    all_zero b = true -> Float64.zero_or_nan dot -> Prim2SF nb = S754_zero false ->
    Float64.zero_or_nan (fst (fst (accumulate a b dot na nb))) /\
    Prim2SF (snd (accumulate a b dot na nb)) = S754_zero false.
Proof.
  induction a as [ | x a IH]; intros b dot na nb Hz Hd Hn.
  - destruct b; cbn; auto.
  - destruct b as [ | y b]; [cbn; auto | ].
    cbn [all_zero forallb] in Hz. apply andb_true_iff in Hz. destruct Hz as [Hy Hb].
    cbn [accumulate]. apply IH; [exact Hb | | ].
    + apply Float64.add_zero_or_nan; [exact Hd | apply Float64.mul_zero_r; exact Hy].
    + apply Float64.add_pos_zero; [exact Hn | apply Float64.mul_self_zero; exact Hy].
Qed.

Lemma cosineSimilarity_zero (a b : list float) :
  List.length a = List.length b ->
  all_zero a = true \/ all_zero b = true ->
  exists v, cosineSimilarity a b = Normal v /\ is_nan v = true.
Proof.
  intros Hlen Hz. unfold cosineSimilarity.
  rewrite (proj2 (Nat.eqb_eq _ _) Hlen). cbn [negb].
  destruct Hz as [Ha | Hb].
  - pose proof (accumulate_zero_l a b 0 0 0 Ha Float64.zero_or_nan_zero eq_refl) as [Hd Hn].
    destruct (accumulate a b 0 0 0) as [[d n1] n2]. cbn [fst snd] in Hd, Hn.
    eexists. split; [reflexivity | ].
    apply Float64.div_zero_or_nan; [exact Hd | ].
    apply Float64.mul_zero_l, Float64.pos_zero_is_zero, Float64.sqrt_pos_zero, Hn.
  - pose proof (accumulate_zero_r a b 0 0 0 Hb Float64.zero_or_nan_zero eq_refl) as [Hd Hn].
    destruct (accumulate a b 0 0 0) as [[d n1] n2]. cbn [fst snd] in Hd, Hn.
    eexists. split; [reflexivity | ].
    apply Float64.div_zero_or_nan; [exact Hd | ].
    apply Float64.mul_zero_r, Float64.pos_zero_is_zero, Float64.sqrt_pos_zero, Hn.
Qed.

Lemma score_items_total (qe : list float) (m : Map IndexedItem) :
  same_dimension qe m ->
  exists rs,
    score_items qe m = Normal rs /\
    (List.length rs <= List.length m)%nat /\
    forall k it e, In (k, it) m -> embedding it = Some e ->
      exists r, In r rs /\ result_id r = k /\ item r = it /\
                cosineSimilarity qe e = Normal (score r).
Proof.
  unfold same_dimension.
  induction m as [ | [k0 it0] m IH]; intros Hdim.
  - exists []. split; [reflexivity | ]. split; [cbn; lia | intros k it e []].
  - inversion Hdim as [ | ? ? H0 Hm]; subst. cbn [snd] in H0.
    destruct (IH Hm) as (rs & Hrs & Hlen & Hall). cbn [score_items]. rewrite Hrs.
    destruct (embedding it0) as [e0 | ] eqn:E0.
    + unfold cosineSimilarity at 1.
      rewrite (proj2 (Nat.eqb_eq _ _) (eq_sym H0)). cbn [negb].
      destruct (accumulate qe e0 0 0 0) as [[d n1] n2] eqn:Eacc.
      eexists. split; [reflexivity | ]. split; [cbn; lia | ].
      intros k it e [Heq | Hin] He.
      * inversion Heq; subst k it. rewrite E0 in He. inversion He; subst e.
        eexists. split; [left; reflexivity | ]. cbn [result_id item score].
        repeat split. unfold cosineSimilarity.
        rewrite (proj2 (Nat.eqb_eq _ _) (eq_sym H0)). cbn [negb]. rewrite Eacc. reflexivity.
      * destruct (Hall k it e Hin He) as (r & Hr & Hrest).
        exists r. split; [right; exact Hr | exact Hrest].
    + exists rs. split; [reflexivity | ]. split; [cbn; lia | ].
      intros k it e [Heq | Hin] He.
      * inversion Heq; subst k it. congruence.
      * apply (Hall k it e Hin He).
Qed.

(** C10.  [cosineSimilarity] divides without a guard: on vectors of equal
    length it always returns a number; when one of them is all zeros that
    number is [NaN]; so the similarity of a vector with itself is [1] only
    if the vector is not all zeros; and a stored all-zero vector puts an
    entry with a [NaN] score in the results of [searchByText]. *)
Theorem cosineSimilarity_unguarded_division :
  (forall a b : list float,
      List.length a = List.length b -> exists v, cosineSimilarity a b = Normal v) /\
  (forall a b : list float,
      List.length a = List.length b ->
      all_zero a = true \/ all_zero b = true ->
      exists v, cosineSimilarity a b = Normal v /\ is_nan v = true) /\
  (forall a : list float,
      cosineSimilarity a a = Normal 1%float -> all_zero a = false) /\
  (forall (query : string) (k : Z) (w w' : World) (qe z : list float)
          (id0 : string) (it : IndexedItem),
      createEmbedding query w = (Normal qe, w') ->
      same_dimension qe (items w) ->
      In (id0, it) (items w) -> embedding it = Some z -> all_zero z = true ->
      (Z.of_nat (Map_size (items w)) <= k)%Z ->
      exists rs r,
        fst (searchByText query k w) = Normal rs /\
        In r rs /\ result_id r = id0 /\ item r = it /\ is_nan (score r) = true).
Proof.
  split.
  { intros a b Hlen. unfold cosineSimilarity.
    rewrite (proj2 (Nat.eqb_eq _ _) Hlen). cbn [negb].
    destruct (accumulate a b 0 0 0) as [[d n1] n2]. eauto. }
  split; [exact cosineSimilarity_zero | ]. split.
  - intros a H. destruct (all_zero a) eqn:Ez; [ | reflexivity].
    destruct (cosineSimilarity_zero a a eq_refl (or_introl Ez)) as (v & Hv & Hnan).
    rewrite H in Hv. inversion Hv; subst v. cbv in Hnan. discriminate.
  - intros query k w w' qe z id0 it Hc Hdim Hin Hz Hzero Hk.
    destruct (createEmbedding_store _ _ _ _ Hc) as (Hitems & _ & _).
    destruct (score_items_total qe (items w) Hdim) as (rs & Hrs & Hlen & Hall).
    destruct (Hall id0 it z Hin Hz) as (r & Hr & Hid & Hit & Hcos).
    exists (sort by_score rs), r.
    split.
    + unfold OpenAIEmbeddingService.searchByText, try_catch, bind, ret.
      destruct (Map_size (items w) =? 0)%nat eqn:Esz.
      * apply Nat.eqb_eq in Esz. unfold Map_size in Esz.
        destruct (items w); [contradiction | discriminate].
      * rewrite Hc, Hitems, Hrs. cbn [fst]. f_equal. apply slice0_all.
        rewrite sort_length. unfold Map_size in Hk. lia.
    + split; [apply (sort_In by_score); exact Hr | ].
      split; [exact Hid | ]. split; [exact Hit | ].
      assert (Hl : List.length qe = List.length z).
      { unfold same_dimension in Hdim. rewrite Forall_forall in Hdim.
        specialize (Hdim _ Hin). cbn [snd] in Hdim. rewrite Hz in Hdim. auto. }
      destruct (cosineSimilarity_zero qe z Hl (or_intror Hzero)) as (v & Hv & Hnan).
      rewrite Hv in Hcos. inversion Hcos; subst v. exact Hnan.
Qed.

(** ** Further properties of the store *)

Lemma accumulate_swap (a : list float) :
  forall (b : list float) (dot na nb : float),
    accumulate b a dot nb na
    = (fst (fst (accumulate a b dot na nb)),
       snd (accumulate a b dot na nb),
       snd (fst (accumulate a b dot na nb))).
Proof.
  induction a as [ | x a IH]; intros [ | y b] dot na nb; cbn [accumulate fst snd]; try reflexivity.
  rewrite (Float64.mul_comm y x). apply IH.
Qed.

(** X1.  The similarity is symmetric, to the last bit: [sim(a, b)] and
    [sim(b, a)] are the same number, or both calls throw. *)
Theorem cosineSimilarity_symmetric (a b : list float) :
  cosineSimilarity a b = cosineSimilarity b a.
Proof.
  unfold cosineSimilarity. rewrite (Nat.eqb_sym (List.length b) (List.length a)).
  destruct (List.length a =? List.length b)%nat; cbn [negb]; [ | reflexivity].
  rewrite (accumulate_swap a b 0 0 0).
  destruct (accumulate a b 0 0 0) as [[d n1] n2]. cbn [fst snd].
  rewrite (Float64.mul_comm (sqrt n2) (sqrt n1)). reflexivity.
Qed.

Lemma substring_within (n : nat) :
  forall s : string, (String.length s <= n)%nat -> substring 0 n s = s.
Proof.
  induction n as [ | n IH]; intros [ | c s] H; cbn [substring String.length] in *;
    try reflexivity; try lia.
  rewrite IH by lia. reflexivity.
Qed.

(** X2.  Without an API key, or for a blank text, [createEmbedding]
    throws and sends nothing: the world is as before.  Otherwise it sends
    one request, whatever the endpoint answers, and the request carries
    the first 8000 characters of the text at most; a text within the
    budget is sent whole. *)
Theorem createEmbedding_budget (text0 : string) (w : World) :
  if (String.length apiKey =? 0)%nat || blank text0 then
    exists e, createEmbedding text0 w = (Throw e, w)
  else
    exists r,
      createEmbedding text0 w
      = (r, record_call (CallEmbeddings (substring 0 text_budget text0)) w) /\
      calls (snd (createEmbedding text0 w))
      = (calls w ++ [CallEmbeddings (substring 0 text_budget text0)])%list /\
      (N.of_nat (String.length (substring 0 text_budget text0)) <= 8000)%N /\
      ((N.of_nat (String.length text0) <= 8000)%N ->
       substring 0 text_budget text0 = text0).
Proof.
  unfold OpenAIEmbeddingService.createEmbedding, throw.
  destruct (String.length apiKey =? 0)%nat; cbn [orb]; [eexists; reflexivity | ].
  destruct (blank text0); [eexists; reflexivity | ].
  assert (Hbudget : (N.of_nat (String.length (substring 0 text_budget text0)) <= 8000)%N).
  { pose proof (substring_length text_budget text0) as Hlen.
    unfold text_budget in Hlen at 2. lia. }
  assert (Hwhole : (N.of_nat (String.length text0) <= 8000)%N ->
                   substring 0 text_budget text0 = text0).
  { intros Hlen. apply substring_within. unfold text_budget. lia. }
  destruct (fetch_embeddings _) as [e | st tx | [ | [[ | x v] | ]]];
    eexists; (split; [reflexivity | ]); (split; [reflexivity | ]); split; assumption.
Qed.

(** X3.  When nothing fails, [addImage] appends the record with the vector
    the endpoint returned and the resolved description, and writes the
    whole map to the store file, once. *)
Theorem addImage_indexes
    (id0 imagePath : string) (md : option Metadata) (w w1 w2 : World)
    (c : string) (v : list float) :
  Map_has (items w) id0 = false ->
  generateComprehensiveDescription imagePath md w = (Normal c, w1) ->
  blank c = false ->
  createEmbedding c w1 = (Normal v, w2) ->
  write_failure = None ->
  exists w',
    addImage id0 imagePath md w = (Normal tt, w') /\
    items w' = (items w ++ [(id0, {| id := id0; path := imagePath; type := image;
                                     metadata := md; embedding := Some v;
                                     content := Some c |})])%list /\
    file w' = Some {| file_items := items w'; lastUpdated := now |} /\
    writes w' = S (writes w).
Proof.
  intros Hnew Hg Hb Hc Hwrite.
  destruct (generateComprehensiveDescription_store imagePath md w)
    as (c' & w1' & Hg' & Hi1 & Hf1 & Hw1).
  rewrite Hg in Hg'. inversion Hg'; subst c' w1'. clear Hg'.
  destruct (createEmbedding_store _ _ _ _ Hc) as (Hi2 & Hf2 & Hw2).
  pose proof (createEmbedding_nonempty _ _ _ _ Hc) as Hv.
  unfold OpenAIEmbeddingService.addImage, bind. rewrite Hnew, Hg, Hb, Hc.
  destruct v as [ | x v]; [congruence | ]. cbn [List.length Nat.eqb].
  unfold OpenAIEmbeddingService.save. rewrite Hwrite.
  eexists. split; [reflexivity | ].
  cbn [items file writes with_file with_items].
  rewrite Map_set_fresh by (rewrite Hi2, Hi1; exact Hnew).
  rewrite Hi2, Hi1, Hw2, Hw1. auto.
Qed.

Lemma filter_length_existsb {A : Type} (f : A -> bool) (l : list A) :
  (0 <? List.length l - List.length (filter (fun x => negb (f x)) l))%nat = existsb f l.
Proof.
  induction l as [ | x l IH]; [reflexivity | ].
  cbn [filter existsb List.length].
  pose proof (filter_length_le (fun x => negb (f x)) l) as Hle.
  destruct (f x); cbn [negb orb List.length].
  - apply Nat.ltb_lt. lia.
  - rewrite <- IH. reflexivity.
Qed.

(** X4.  [purgeStaleEmbeddings] never throws, whether the store file can
    be written or not: a failing [save] is caught.  It removes from the
    map the records whose file is gone (or cannot be checked) and no
    other, and sends nothing.  When it removed a record and the write
    succeeds, the store file is written once and equals the map; when it
    removed none, or the write fails, the store file is as before. *)
Theorem purgeStaleEmbeddings_spec (w : World) :
  fst (purgeStaleEmbeddings w) = Normal tt /\
  items (snd (purgeStaleEmbeddings w))
  = filter (fun kv => negb (stale existsSync (snd kv))) (items w) /\
  calls (snd (purgeStaleEmbeddings w)) = calls w /\
  match existsb (fun kv => stale existsSync (snd kv)) (items w), write_failure with
  | true, None =>
      file (snd (purgeStaleEmbeddings w))
      = Some {| file_items := items (snd (purgeStaleEmbeddings w)); lastUpdated := now |} /\
      writes (snd (purgeStaleEmbeddings w)) = S (writes w)
  | _, _ =>
      file (snd (purgeStaleEmbeddings w)) = file w /\
      writes (snd (purgeStaleEmbeddings w)) = writes w
  end.
Proof.
  unfold OpenAIEmbeddingService.purgeStaleEmbeddings, Map_size.
  rewrite (filter_length_existsb (fun kv => stale existsSync (snd kv)) (items w)).
  destruct (existsb (fun kv => stale existsSync (snd kv)) (items w)).
  - unfold try_catch, OpenAIEmbeddingService.save, ret.
    destruct write_failure as [e | ]; cbn; repeat split; reflexivity.
  - cbn. destruct write_failure; repeat split; reflexivity.
Qed.

End Theory.

(** ** The properties on concrete stores *)

Definition record_of (i : string) (v : list float) : string * IndexedItem :=
  (i, {| id := i; path := "/shots/" ++ i ++ ".png"; type := image; metadata := None;
         embedding := Some v; content := Some "a screenshot" |}).

Definition result_of (i : string) (v : list float) (s : float) : SearchResult :=
  {| result_id := i; score := s; item := snd (record_of i v) |}.

Definition in_memory (m : Map IndexedItem) : World :=
  {| items := m; file := None; writes := 0; calls := [] |}.

Definition saved (m : Map IndexedItem) : World :=
  {| items := m; file := Some {| file_items := m; lastUpdated := 0 |}; writes := 1; calls := [] |}.

(** Records whose vectors point against, nowhere and along the query. *)
Definition three_records : Map IndexedItem :=
  [record_of "a" [(-1)%float]; record_of "b" [0%float]; record_of "c" [1%float]].

Definition two_records : Map IndexedItem :=
  [record_of "a" [(-1)%float]; record_of "c" [1%float]].

(** An endpoint that embeds every text as the unit vector [1], and one
    that cannot be reached. *)
Definition unit_answer (_ : string) : FetchOutcome := Body (FirstEmbedding (Some [1%float])).
Definition unreachable (_ : string) : FetchOutcome := Rejected (JsError "fetch failed").
Definition no_image (_ : string) : option Image := None.
Definition no_description (_ : Image) (_ : string) (_ : option string) (_ : option (list string))
  : completion string := Throw (JsError "inference failed").

(** C1, counterexample.  With a zero vector in the store the middle score
    is [NaN]; the comparator finds nothing out of order and the array is
    returned as scored: the last entry outscores the first.  No
    arrangement of these three entries is in descending order.  And a
    negative [k] is read from the end of the array: [k = -1] on two
    records returns one entry. *)
Lemma searchByText_nan_not_descending :
  fst (searchByText "sk-test" unit_answer "query" 10 (in_memory three_records))
  = Normal [result_of "a" [(-1)%float] (-1)%float;
            result_of "b" [0%float] nan;
            result_of "c" [1%float] 1%float] /\
  (forall rs,
      Permutation rs [result_of "a" [(-1)%float] (-1)%float;
                      result_of "b" [0%float] nan;
                      result_of "c" [1%float] 1%float] ->
      ~ descending rs) /\
  fst (searchByText "sk-test" unit_answer "query" (-1) (in_memory two_records))
  = Normal [result_of "c" [1%float] 1%float].
Proof.
  split; [vm_compute; reflexivity | ]. split; [ | vm_compute; reflexivity].
  intros rs Hp Hd.
  assert (Hlen : (2 <= List.length rs)%nat).
  { rewrite (Permutation_length Hp). cbn. lia. }
  pose proof (descending_scored rs Hd Hlen) as Hs.
  rewrite Forall_forall in Hs.
  assert (Hb : In (result_of "b" [0%float] nan) rs).
  { apply (Permutation_in _ (Permutation_sym Hp)). right. left. reflexivity. }
  specialize (Hs _ Hb). vm_compute in Hs. discriminate.
Qed.

(** Two records against the query, then one along it: the search for two
    entries puts the last record first and cuts the third entry. *)
Definition against_against_along : Map IndexedItem :=
  [record_of "a" [(-1)%float]; record_of "e" [(-1)%float]; record_of "c" [1%float]].

Lemma searchByText_top_k_witness :
  exists rs w',
    searchByText "sk-test" unit_answer "query" 2 (in_memory against_against_along)
    = (Normal rs, w') /\
    rs = [result_of "c" [1%float] 1%float; result_of "a" [(-1)%float] (-1)%float] /\
    (Z.of_nat (List.length rs) <= 2)%Z /\
    descending rs /\
    forall r, In r rs ->
      In (result_id r, item r) against_against_along /\
      exists qe w1 e,
        createEmbedding "sk-test" unit_answer "query" (in_memory against_against_along)
        = (Normal qe, w1) /\
        embedding (item r) = Some e /\
        cosineSimilarity qe e = Normal (score r).
Proof.
  assert (Hk : (0 <= 2)%Z) by lia.
  destruct (searchByText_top_k "sk-test" unit_answer "query" 2
              (in_memory against_against_along) Hk)
    as (rs & w' & Hs & Hlen & Hin & Hdesc).
  exists rs, w'. split; [exact Hs | ].
  split; [vm_compute in Hs; inversion Hs; reflexivity | ].
  split; [exact Hlen | ].
  split; [ | exact Hin].
  apply Hdesc. intros qe w1 scores Hc Hsc.
  vm_compute in Hc. inversion Hc; subst qe w1.
  vm_compute in Hsc. inversion Hsc; subst scores.
  repeat constructor.
Defined.

Lemma cosineSimilarity_length_mismatch_witness :
  cosineSimilarity [1%float] [1%float; 2%float]
  = Throw (JsError "Vectors must have the same length") /\
  forall v, cosineSimilarity [1%float] [1%float; 2%float] <> Normal v.
Proof.
  apply (cosineSimilarity_length_mismatch [1%float] [1%float; 2%float]).
  cbn. discriminate.
Defined.

(** C5, counterexample.  The endpoint cannot be reached: [createEmbedding]
    throws, and [searchByText] completes normally with no result. *)
Lemma searchByText_failure_not_surfaced :
  fst (createEmbedding "sk-test" unreachable "query" (in_memory three_records))
  = Throw (JsError "fetch failed") /\
  fst (searchByText "sk-test" unreachable "query" 10 (in_memory three_records)) = Normal [].
Proof. split; vm_compute; reflexivity. Qed.

Lemma searchByText_embedding_failure_witness :
  fst (searchByText "sk-test" unreachable "query" 10 (in_memory two_records)) = Normal [].
Proof.
  apply (searchByText_embedding_failure "sk-test" unreachable "query" 10
           (in_memory two_records)
           (record_call (CallEmbeddings "query") (in_memory two_records))
           (JsError "fetch failed")).
  vm_compute. reflexivity.
Defined.

Lemma removeItem_not_persisted_witness :
  Map_has (items (snd (removeItem "a" (saved two_records)))) "a" = false /\
  file (snd (removeItem "a" (saved two_records)))
  = Some {| file_items := two_records; lastUpdated := 0 |} /\
  Map_get (items (restart (snd (removeItem "a" (saved two_records))))) "a"
  = Some (snd (record_of "a" [(-1)%float])).
Proof.
  apply (removeItem_not_persisted "a" (snd (record_of "a" [(-1)%float]))
           {| file_items := two_records; lastUpdated := 0 |} (saved two_records)).
  - reflexivity.
  - reflexivity.
Defined.

(** A caller-supplied description of blanks only. *)
Definition blank_metadata : Metadata :=
  {| ocr_text := None; ai_title := None; ai_description := None; keywords := None;
     comprehensive_description := Some "   " |}.

Lemma addImage_failure_not_indexed_witness :
  exists e w',
    addImage "sk-test" 0 no_image None unit_answer no_description
             "d" "/shots/d.png" (Some blank_metadata) (saved two_records) = (Throw e, w') /\
    items w' = two_records /\
    file w' = Some {| file_items := two_records; lastUpdated := 0 |} /\
    writes w' = 1%nat /\
    Map_has (items w') "d" = false.
Proof.
  apply (addImage_failure_not_indexed "sk-test" 0 no_image None unit_answer no_description
           "d" "/shots/d.png" (Some blank_metadata) (saved two_records) (saved two_records) "   ").
  - reflexivity.
  - reflexivity.
  - left. reflexivity.
Defined.

Lemma addImage_idempotent_witness :
  addImage "sk-test" 0 no_image None unit_answer no_description
           "a" "/shots/other.png" None (saved two_records)
  = (Normal tt, saved two_records).
Proof.
  apply (addImage_idempotent "sk-test" 0 no_image None unit_answer no_description
           "a" "/shots/other.png" None (saved two_records)).
  reflexivity.
Defined.

Lemma cosineSimilarity_unguarded_division_witness :
  exists rs r,
    fst (searchByText "sk-test" unit_answer "query" 10 (in_memory three_records)) = Normal rs /\
    In r rs /\ result_id r = "b" /\ item r = snd (record_of "b" [0%float]) /\
    is_nan (score r) = true.
Proof.
  apply (proj2 (proj2 (proj2 (cosineSimilarity_unguarded_division "sk-test" unit_answer)))
           "query" 10%Z (in_memory three_records)
           (record_call (CallEmbeddings "query") (in_memory three_records))
           [1%float] [0%float] "b" (snd (record_of "b" [0%float]))).
  - vm_compute. reflexivity.
  - repeat constructor.
  - right. left. reflexivity.
  - reflexivity.
  - reflexivity.
  - cbn. lia.
Defined.

Lemma createEmbedding_budget_witness :
  (exists e,
     createEmbedding "" unit_answer "query" (in_memory two_records)
     = (Throw e, in_memory two_records)) /\
  (exists e,
     createEmbedding "sk-test" unit_answer "   " (in_memory two_records)
     = (Throw e, in_memory two_records)) /\
  (exists r,
     createEmbedding "sk-test" unit_answer "query" (in_memory two_records)
     = (r, record_call (CallEmbeddings (substring 0 text_budget "query"))
             (in_memory two_records)) /\
     calls (snd (createEmbedding "sk-test" unit_answer "query" (in_memory two_records)))
     = (calls (in_memory two_records)
          ++ [CallEmbeddings (substring 0 text_budget "query")])%list /\
     (N.of_nat (String.length (substring 0 text_budget "query")) <= 8000)%N /\
     ((N.of_nat (String.length "query") <= 8000)%N ->
      substring 0 text_budget "query" = "query")).
Proof.
  split; [exact (createEmbedding_budget "" unit_answer "query" (in_memory two_records)) | ].
  split;
    [exact (createEmbedding_budget "sk-test" unit_answer "   " (in_memory two_records)) | ].
  exact (createEmbedding_budget "sk-test" unit_answer "query" (in_memory two_records)).
Defined.

Definition described (t : string) : Metadata :=
  {| ocr_text := None; ai_title := None; ai_description := None; keywords := None;
     comprehensive_description := Some t |}.

Lemma addImage_indexes_witness :
  exists w',
    addImage "sk-test" 42 no_image None unit_answer no_description
             "d" "/shots/d.png" (Some (described "A chart of sales")) (saved two_records)
    = (Normal tt, w') /\
    items w' = (two_records ++
                [("d", {| id := "d"; path := "/shots/d.png"; type := image;
                          metadata := Some (described "A chart of sales");
                          embedding := Some [1%float];
                          content := Some "A chart of sales" |})])%list /\
    file w' = Some {| file_items := items w'; lastUpdated := 42 |} /\
    writes w' = 2%nat.
Proof.
  apply (addImage_indexes "sk-test" 42 no_image None unit_answer no_description
           "d" "/shots/d.png" (Some (described "A chart of sales")) (saved two_records)
           (saved two_records)
           (record_call (CallEmbeddings "A chart of sales") (saved two_records))
           "A chart of sales" [1%float]).
  - reflexivity.
  - reflexivity.
  - reflexivity.
  - vm_compute. reflexivity.
  - reflexivity.
Defined.

(** Five records; the files of [b] and [d] are gone. *)
Definition five_records : Map IndexedItem :=
  [record_of "a" [1%float]; record_of "b" [1%float]; record_of "c" [1%float];
   record_of "d" [1%float]; record_of "e" [1%float]].

Definition b_and_d_missing (p : string) : FsCheck :=
  if String.eqb p "/shots/b.png" || String.eqb p "/shots/d.png" then Missing else Exists.

(** The store file cannot be written. *)
Definition disk_full : option Error := Some (JsError "ENOSPC: no space left on device").

Lemma purgeStaleEmbeddings_spec_witness :
  (fst (purgeStaleEmbeddings 42 b_and_d_missing None (saved five_records)) = Normal tt /\
   items (snd (purgeStaleEmbeddings 42 b_and_d_missing None (saved five_records)))
   = [record_of "a" [1%float]; record_of "c" [1%float]; record_of "e" [1%float]] /\
   file (snd (purgeStaleEmbeddings 42 b_and_d_missing None (saved five_records)))
   = Some {| file_items := [record_of "a" [1%float]; record_of "c" [1%float];
                            record_of "e" [1%float]];
             lastUpdated := 42 |} /\
   writes (snd (purgeStaleEmbeddings 42 b_and_d_missing None (saved five_records))) = 2%nat) /\
  (fst (purgeStaleEmbeddings 42 b_and_d_missing disk_full (saved five_records)) = Normal tt /\
   items (snd (purgeStaleEmbeddings 42 b_and_d_missing disk_full (saved five_records)))
   = [record_of "a" [1%float]; record_of "c" [1%float]; record_of "e" [1%float]] /\
   file (snd (purgeStaleEmbeddings 42 b_and_d_missing disk_full (saved five_records)))
   = Some {| file_items := five_records; lastUpdated := 0 |} /\
   writes (snd (purgeStaleEmbeddings 42 b_and_d_missing disk_full (saved five_records)))
   = 1%nat).
Proof.
  assert (E : existsb (fun kv => stale b_and_d_missing (snd kv)) (items (saved five_records))
              = true) by reflexivity.
  split.
  - destruct (purgeStaleEmbeddings_spec 42 b_and_d_missing None (saved five_records))
      as (Hr & Hitems & _ & Hfile).
    rewrite E in Hfile. cbv beta iota in Hfile. destruct Hfile as [Hf Hw].
    split; [exact Hr | ]. split; [rewrite Hitems; vm_compute; reflexivity | ].
    split; [ | exact Hw]. rewrite Hf, Hitems. vm_compute. reflexivity.
  - destruct (purgeStaleEmbeddings_spec 42 b_and_d_missing disk_full (saved five_records))
      as (Hr & Hitems & _ & Hfile).
    rewrite E in Hfile. unfold disk_full in Hfile at 1. cbv beta iota in Hfile.
    destruct Hfile as [Hf Hw].
    split; [exact Hr | ]. split; [rewrite Hitems; vm_compute; reflexivity | ].
    split; [rewrite Hf; reflexivity | exact Hw].
Defined.

End EmbeddingStoreTheory.

(* ================================================================== *)
(** * Properties of the analysis pipeline *)
(* ================================================================== *)

Module PipelineTheory.
Import JS AIProcessor.

Local Open Scope string_scope.

Section Theory.

Variable readFileSync : string -> completion Image.
Variable ExtractAllText : Image -> completion OcrAnswer.
Variable GenerateScreenshotTitle : Image -> string -> completion string.
Variable AnalyzeScreenshotContentDetailed : Image -> string -> completion string.
Variable AnalyzeScreenshotContent : Image -> completion ContentAnalysis.
Variable GenerateComprehensiveDescription :
  Image -> string -> option string -> option (list string) -> completion string.
Variable generateTitleHeuristic : string -> string.
Variable describeHeuristic : string -> string.
Variable frequentWords : string -> list string.

Abbreviation extractText := (extractText ExtractAllText).
Abbreviation doProcessScreenshot :=
  (doProcessScreenshot readFileSync ExtractAllText GenerateScreenshotTitle
     AnalyzeScreenshotContentDetailed AnalyzeScreenshotContent
     GenerateComprehensiveDescription generateTitleHeuristic describeHeuristic frequentWords).

(** The OCR stage issues one call and never throws. *)
Lemma extractText_total (img : Image) (cs : list RemoteCall) :
  exists r, extractText img cs = (Normal r, (cs ++ [CallExtractAllText img])%list).
Proof.
  unfold AIProcessor.extractText.
  destruct (ExtractAllText img) as [[t c | s | ] | e]; eauto.
Qed.

(** A failed call and an answer of the wrong shape both read as the empty
    text with confidence zero. *)
Lemma extractText_malformed (img : Image) (cs : list RemoteCall) :
  (exists e, ExtractAllText img = Throw e) \/ ExtractAllText img = Normal OcrOther ->
  fst (extractText img cs) = Normal {| text := ""; confidence := 0%float |}.
Proof.
  unfold AIProcessor.extractText. intros [[e ->] | ->]; reflexivity.
Qed.

(** C4.  When the image is read and the OCR stage yields a blank text (in
    particular [{text: "", confidence: 0}]), the pipeline returns the OCR
    text and confidence alone: title, description, keywords, content
    type, detected application and URL, and comprehensive description are
    unset; and the only remote call issued is the OCR call. *)
Theorem empty_ocr_short_circuits
    (imagePath : string) (img : Image) (cs cs1 : list RemoteCall) (r : OcrResult) :
  readFileSync imagePath = Normal img ->
  extractText img cs = (Normal r, cs1) ->
  blank (text r) = true ->
  doProcessScreenshot imagePath cs
  = (Normal {| ocr_text := Some (text r);
               confidence_score := Some (confidence r);
               ai_title := None;
               ai_description := None;
               ai_keywords := None;
               content_type := None;
               app_detected := None;
               url_detected := None;
               comprehensive_description := None |},
     (cs ++ [CallExtractAllText img])%list).
Proof.
  intros Hread Hocr Hblank.
  destruct (extractText_total img cs) as [r' Hr'].
  rewrite Hocr in Hr'. inversion Hr'; subst r' cs1. clear Hr'.
  unfold AIProcessor.doProcessScreenshot, bind. rewrite Hread, Hocr.
  unfold blank in Hblank.
  destruct (String.length (text r) =? 0)%nat; [reflexivity | ].
  cbn [orb] in Hblank. rewrite Hblank. reflexivity.
Qed.

End Theory.

(** An inference client that answers nothing usable to the OCR call and
    would answer every later call. *)
Definition read_any (p : string) : completion Image := Normal ("base64:" ++ p).
Definition ocr_fails (_ : Image) : completion OcrAnswer := Throw (JsError "rate limited").
Definition title_ok (_ : Image) (_ : string) : completion string := Normal "A title".
Definition description_ok (_ : Image) (_ : string) : completion string := Normal "A description".
Definition analysis_ok (_ : Image) : completion ContentAnalysis :=
  Normal {| analysis_content_type := "document";
            analysis_app_detected := None;
            analysis_url_detected := None |}.
Definition comprehensive_ok (_ : Image) (_ : string) (_ : option string) (_ : option (list string))
  : completion string := Normal "Everything visible".
Definition first_line (s : string) : string := s.
Definition no_words (_ : string) : list string := [].

Lemma empty_ocr_short_circuits_witness :
  doProcessScreenshot read_any ocr_fails title_ok description_ok analysis_ok comprehensive_ok
    first_line first_line no_words "/shots/blank.png" []
  = (Normal {| ocr_text := Some "";
               confidence_score := Some 0%float;
               ai_title := None;
               ai_description := None;
               ai_keywords := None;
               content_type := None;
               app_detected := None;
               url_detected := None;
               comprehensive_description := None |},
     [CallExtractAllText "base64:/shots/blank.png"]).
Proof.
  apply (empty_ocr_short_circuits read_any ocr_fails title_ok description_ok analysis_ok
           comprehensive_ok first_line first_line no_words
           "/shots/blank.png" "base64:/shots/blank.png" []
           [CallExtractAllText "base64:/shots/blank.png"]
           {| text := ""; confidence := 0%float |}).
  - reflexivity.
  - reflexivity.
  - reflexivity.
Defined.

(** The same client with a working OCR call: the five calls of the full
    analysis are issued, in order, and every field is set. *)
Definition ocr_hello (_ : Image) : completion OcrAnswer := Normal (OcrString "Hello World").

Example full_analysis_example :
  doProcessScreenshot read_any ocr_hello title_ok description_ok analysis_ok comprehensive_ok
    first_line first_line no_words "/shots/hello.png" []
  = (Normal {| ocr_text := Some "Hello World";
               confidence_score := Some default_confidence;
               ai_title := Some "A title";
               ai_description := Some "A description";
               ai_keywords := Some [];
               content_type := Some "document";
               app_detected := None;
               url_detected := None;
               comprehensive_description := Some "Everything visible" |},
     [CallExtractAllText "base64:/shots/hello.png";
      CallGenerateScreenshotTitle "base64:/shots/hello.png" "Hello World";
      CallAnalyzeScreenshotContentDetailed "base64:/shots/hello.png" "Hello World";
      CallAnalyzeScreenshotContent "base64:/shots/hello.png";
      CallGenerateComprehensiveDescription "base64:/shots/hello.png" "Hello World"
        (Some "A title") (Some [])]).
Proof. vm_compute. reflexivity. Qed.

End PipelineTheory.

(* ================================================================== *)
(** * Properties of the smart-folder evaluator *)
(* ================================================================== *)

Module SmartFolderTheory.
Import JS DatabaseManager.

Local Open Scope Z_scope.

(** Newest first. *)
Definition newest_first (l : list Screenshot) : Prop :=
  StronglySorted (fun a b => created_at b <= created_at a) l.

Lemma insert_desc_Permutation (x : Screenshot) (l : list Screenshot) :
  Permutation (insert_desc x l) (x :: l).
Proof.
  induction l as [ | y l IH]; cbn [insert_desc]; [reflexivity | ].
  destruct (created_at y <=? created_at x); [reflexivity | ].
  rewrite IH. apply perm_swap.
Qed.

Lemma order_by_Permutation (l : list Screenshot) :
  Permutation (order_by_created_at_desc l) l.
Proof.
  induction l as [ | x l IH]; cbn [order_by_created_at_desc fold_right]; [reflexivity | ].
  fold (order_by_created_at_desc l). rewrite insert_desc_Permutation. constructor. exact IH.
Qed.

Lemma insert_desc_sorted (x : Screenshot) (l : list Screenshot) :
  newest_first l -> newest_first (insert_desc x l).
Proof.
  unfold newest_first. induction l as [ | y l IH]; intros Hs; cbn [insert_desc].
  - repeat constructor.
  - inversion Hs as [ | ? ? Hs' Hall]; subst.
    destruct (Z.leb_spec (created_at y) (created_at x)) as [Hle | Hgt].
    + constructor; [exact Hs | ]. constructor; [exact Hle | ].
      rewrite Forall_forall in *. intros z Hz. specialize (Hall z Hz). lia.
    + constructor; [apply IH; exact Hs' | ].
      rewrite Forall_forall in *. intros z Hz.
      apply (Permutation_in _ (insert_desc_Permutation x l)) in Hz.
      destruct Hz as [<- | Hz]; [lia | auto].
Qed.

Lemma order_by_sorted (l : list Screenshot) : newest_first (order_by_created_at_desc l).
Proof.
  induction l as [ | x l IH]; cbn [order_by_created_at_desc fold_right]; [constructor | ].
  apply insert_desc_sorted. exact IH.
Qed.

(** C7 (as amended).  A folder with the rule [recent] holds exactly the
    screenshots created strictly after [now - d * 86 400 000 ms], where
    [d] is the rule's [days], or 7 when [days] is absent or zero; they
    come newest first. *)
Theorem recent_folder_strictly_after
    (now : Z) (sql_like : string -> string -> bool) (db : Database) (rules : FilterRules) :
  rule_type rules = Some "recent"%string ->
  let since := now - num_or (days rules) 7 * 86400000 in
  let result := getScreenshotsForSmartFolder now sql_like db rules in
  Permutation result (filter (fun s => since <? created_at s) (screenshots db)) /\
  (forall s, In s result <-> In s (screenshots db) /\ since < created_at s) /\
  newest_first result.
Proof.
  intros Hrule since result.
  assert (Hres : result = order_by_created_at_desc
                            (filter (fun s => since <? created_at s) (screenshots db))).
  { unfold result, getScreenshotsForSmartFolder. rewrite Hrule. reflexivity. }
  rewrite Hres. split; [apply order_by_Permutation | ]. split; [ | apply order_by_sorted].
  intros s. split.
  - intros Hin. apply (Permutation_in _ (order_by_Permutation _)) in Hin.
    apply filter_In in Hin. destruct Hin as [Hin Hlt]. apply Z.ltb_lt in Hlt. auto.
  - intros [Hin Hlt]. apply (Permutation_in _ (Permutation_sym (order_by_Permutation _))).
    apply filter_In. split; [exact Hin | apply Z.ltb_lt; exact Hlt].
Qed.

(** ** The other rules *)


(** X6.  A rule of a type the evaluator does not know yields the empty
    folder. *)
Theorem unknown_rule_empty
    (now : Z) (sql_like : string -> string -> bool) (db : Database) (rules : FilterRules)
    (t : string) :
  rule_type rules = Some t ->
  ~ In t ["all"; "recent"; "favorites"; "tag"; "date_range"; "content_type"]%string ->
  getScreenshotsForSmartFolder now sql_like db rules = [].
Proof.
  intros Hrule Hnot. unfold getScreenshotsForSmartFolder. rewrite Hrule.
  repeat match goal with
         | |- context [String.eqb t ?lbl] =>
             destruct (String.eqb_spec t lbl) as [E | _];
             [exfalso; apply Hnot; rewrite E; cbn; tauto | ]
         end.
  reflexivity.
Qed.

(** ** A week of screenshots *)

Definition noon : Z := 1700000000000.

Definition shot (i : string) (t : Z) : Screenshot :=
  {| id := i; filepath := ("/shots/" ++ i)%string; filename := i; created_at := t;
     updated_at := t; file_size := 1024; format := "png"; is_favorite := false |}.

Definition table (l : list Screenshot) : Database :=
  {| screenshots := l; screenshot_tags := []; screenshot_metadata := [] |}.

Definition recent (d : option Z) : FilterRules :=
  {| rule_type := Some "recent"%string; days := d; tagId := None;
     startDate := None; endDate := None; contentType := None |}.

Definition like_nothing (_ _ : string) : bool := false.

(** C7, counterexample.  A screenshot created exactly seven days ago is
    not in the folder [recent] of seven days; and the folder of zero days
    holds a screenshot of yesterday. *)
Lemma recent_folder_excludes_boundary :
  created_at (shot "week-old" (noon - 7 * 86400000)) = noon - 7 * 86400000 /\
  getScreenshotsForSmartFolder noon like_nothing
    (table [shot "week-old" (noon - 7 * 86400000)]) (recent (Some 7)) = [] /\
  getScreenshotsForSmartFolder noon like_nothing
    (table [shot "yesterday" (noon - 86400000)]) (recent (Some 0))
  = [shot "yesterday" (noon - 86400000)].
Proof. repeat split. Qed.

Lemma recent_folder_strictly_after_witness :
  let db := table [shot "eight-days" (noon - 8 * 86400000); shot "one-hour" (noon - 3600000)] in
  let result := getScreenshotsForSmartFolder noon like_nothing db (recent (Some 7)) in
  Permutation result
    (filter (fun s => noon - num_or (Some 7) 7 * 86400000 <? created_at s) (screenshots db)) /\
  (forall s, In s result <->
             In s (screenshots db) /\ noon - num_or (Some 7) 7 * 86400000 < created_at s) /\
  newest_first result.
Proof.
  apply (recent_folder_strictly_after noon like_nothing
           (table [shot "eight-days" (noon - 8 * 86400000); shot "one-hour" (noon - 3600000)])
           (recent (Some 7))).
  reflexivity.
Defined.

Definition between (a b : option Z) : FilterRules :=
  {| rule_type := Some "date_range"%string; days := None; tagId := None;
     startDate := a; endDate := b; contentType := None |}.


Lemma unknown_rule_empty_witness :
  getScreenshotsForSmartFolder noon like_nothing (table [shot "first" 1000])
    {| rule_type := Some "colour"%string; days := None; tagId := None;
       startDate := None; endDate := None; contentType := None |} = [].
Proof.
  apply (unknown_rule_empty noon like_nothing (table [shot "first" 1000]) _ "colour"%string).
  - reflexivity.
  - cbn. intros [E | [E | [E | [E | [E | [E | []]]]]]]; discriminate E.
Defined.

End SmartFolderTheory.

(* ================================================================== *)
(** * Properties of the hybrid search merge *)
(* ================================================================== *)

Module HybridSearchTheory.
Import JS JSFacts SearchHandler.

Definition in_database (db : DatabaseManager.Database) (r : OpenAIEmbeddingService.SearchResult) : bool :=
  match DatabaseManager.getScreenshot db (OpenAIEmbeddingService.result_id r) with Some _ => true | None => false end.

(** How often an id occurs in an answer. *)
Definition occurrences (i : string) (out : list SearchResult) : nat :=
  List.length (filter (fun e => String.eqb (entry_id e) i) out).

Lemma getScreenshot_id (db : DatabaseManager.Database) (i : string) (s : DatabaseManager.Screenshot) :
  DatabaseManager.getScreenshot db i = Some s -> DatabaseManager.id s = i.
Proof.
  unfold DatabaseManager.getScreenshot. intros H. apply find_some in H.
  destruct H as [_ H]. apply String.eqb_eq. exact H.
Qed.

Lemma getScreenshot_row (db : DatabaseManager.Database) (s : DatabaseManager.Screenshot) :
  In s (DatabaseManager.screenshots db) -> exists s', DatabaseManager.getScreenshot db (DatabaseManager.id s) = Some s'.
Proof.
  unfold DatabaseManager.getScreenshot. intros Hin.
  destruct (find (fun s0 => String.eqb (DatabaseManager.id s0) (DatabaseManager.id s)) (DatabaseManager.screenshots db)) as [s' | ] eqn:E;
    [eauto | ].
  pose proof (find_none _ _ E s Hin) as Hn. cbn in Hn.
  rewrite String.eqb_refl in Hn. discriminate.
Qed.

Lemma occurrences_absent (i : string) (out : list SearchResult) :
  ~ In i (map entry_id out) -> occurrences i out = 0%nat.
Proof.
  unfold occurrences. induction out as [ | e out IH]; intros Hn; [reflexivity | ].
  cbn [map In] in Hn. cbn [filter].
  destruct (String.eqb_spec (entry_id e) i) as [E | _]; [tauto | ].
  apply IH. tauto.
Qed.

Lemma occurrences_NoDup (i : string) (out : list SearchResult) :
  NoDup (map entry_id out) -> In i (map entry_id out) -> occurrences i out = 1%nat.
Proof.
  induction out as [ | e out IH]; intros Hnd Hin; [contradiction | ].
  cbn [map] in Hnd, Hin. inversion Hnd as [ | ? ? Hx Hrest]; subst.
  unfold occurrences. cbn [filter].
  destruct (String.eqb_spec (entry_id e) i) as [E | Hne].
  - cbn [List.length]. f_equal. apply occurrences_absent. rewrite <- E. exact Hx.
  - destruct Hin as [Hin | Hin]; [contradiction | ]. apply IH; assumption.
Qed.

Section Theory.

Variable apiKey : string.
Variable fetch_embeddings : string -> OpenAIEmbeddingService.FetchOutcome.
Variable db : DatabaseManager.Database.
Variable searchScreenshots : string -> Z -> completion (list SearchResult).
Variable getMetadata : string -> option DatabaseManager.ScreenshotMetadata.
Variable getTagsForScreenshot : string -> list DatabaseManager.Tag.
Variable getFoldersForScreenshot : string -> list DatabaseManager.FolderRow.

Abbreviation add_semantic :=
  (add_semantic db getMetadata getTagsForScreenshot getFoldersForScreenshot).
Abbreviation merge := (merge db getMetadata getTagsForScreenshot getFoldersForScreenshot).
Abbreviation search_screenshots :=
  (search_screenshots apiKey fetch_embeddings db searchScreenshots
     getMetadata getTagsForScreenshot getFoldersForScreenshot).

(** The entries the first loop builds, in the order of the semantic results. *)
Definition semantic_entries (sem : list OpenAIEmbeddingService.SearchResult) : Map SearchResult :=
  fold_left add_semantic sem [].

(** An entry built from the semantic result [r]. *)
Definition from_semantic (kv : string * SearchResult) (r : OpenAIEmbeddingService.SearchResult) : Prop :=
  fst kv = OpenAIEmbeddingService.result_id r /\
  entry_id (snd kv) = OpenAIEmbeddingService.result_id r /\
  relevance_score (snd kv) = Some (OpenAIEmbeddingService.score r).

Lemma fold_add_semantic (sem : list OpenAIEmbeddingService.SearchResult) :
  forall acc : Map SearchResult,
    NoDup (map OpenAIEmbeddingService.result_id sem) ->
    (forall r, In r sem -> Map_has acc (OpenAIEmbeddingService.result_id r) = false) ->
    exists S,
      fold_left add_semantic sem acc = acc ++ S /\
      Forall2 from_semantic S (filter (in_database db) sem).
Proof.
  induction sem as [ | r sem IH]; intros acc Hnd Hfresh; cbn [fold_left filter].
  - exists []. rewrite app_nil_r. split; [reflexivity | constructor].
  - cbn [map] in Hnd. inversion Hnd as [ | ? ? Hr Hsem]; subst.
    unfold SearchHandler.add_semantic at 2, in_database at 1.
    destruct (DatabaseManager.getScreenshot db (OpenAIEmbeddingService.result_id r)) as [s | ] eqn:Eg.
    + rewrite Map_set_fresh by (apply Hfresh; left; reflexivity).
      edestruct (IH (acc ++ [(OpenAIEmbeddingService.result_id r,
                   {| screenshot := s;
                      metadata := getMetadata (OpenAIEmbeddingService.result_id r);
                      tags := Some (getTagsForScreenshot (OpenAIEmbeddingService.result_id r));
                      folders := Some (getFoldersForScreenshot (OpenAIEmbeddingService.result_id r));
                      relevance_score := Some (OpenAIEmbeddingService.score r) |})]) Hsem)
        as (S & HS & HF).
      { intros r' Hr'. rewrite Map_has_app, (Hfresh r' (or_intror Hr')). cbn [orb].
        unfold Map_has. cbn [Map_get].
        destruct (String.eqb_spec (OpenAIEmbeddingService.result_id r') (OpenAIEmbeddingService.result_id r)) as [E | _];
          [ | reflexivity].
        exfalso. apply Hr. rewrite <- E. apply in_map. exact Hr'. }
      eexists. rewrite HS, <- app_assoc. split; [reflexivity | ].
      constructor; [ | exact HF].
      unfold from_semantic, entry_id. cbn [fst snd screenshot relevance_score].
      rewrite (getScreenshot_id _ _ _ Eg). auto.
    + apply IH; [exact Hsem | ]. intros r' Hr'. apply Hfresh. right. exact Hr'.
Qed.

Lemma Forall2_length_filter (S : Map SearchResult) (sem : list OpenAIEmbeddingService.SearchResult) :
  Forall2 from_semantic S (filter (in_database db) sem) ->
  (List.length S <= List.length sem)%nat /\
  (forall k, In k (Map_keys S) -> In k (map OpenAIEmbeddingService.result_id sem)) /\
  (NoDup (map OpenAIEmbeddingService.result_id sem) -> NoDup (Map_keys S)) /\
  Forall (fun kv => entry_id (snd kv) = fst kv) S.
Proof.
  revert S. induction sem as [ | r sem IH]; intros S HF; cbn [filter] in HF.
  - inversion HF; subst. cbn.
    split; [lia | ]. split; [intros k [] | ]. split; constructor.
  - destruct (in_database db r).
    + inversion HF as [ | kv ? S' ? Hkv HF']; subst.
      destruct (IH S' HF') as (Hlen & Hkeys & Hnd & Hid).
      destruct Hkv as (Hk & He & _).
      split; [cbn; lia | ]. split; [ | split].
      * intros k [E | Hin]; [left; congruence | right; apply Hkeys; exact Hin].
      * intros Hnd'. cbn [map] in Hnd'. inversion Hnd' as [ | ? ? Hr Hsem]; subst.
        cbn [Map_keys map]. constructor; [ | apply Hnd; exact Hsem].
        intros Hin. apply Hr. rewrite <- Hk. apply Hkeys. exact Hin.
      * constructor; [congruence | exact Hid].
    + destruct (IH S HF) as (Hlen & Hkeys & Hnd & Hid).
      split; [cbn; lia | ]. split; [ | split].
      * intros k Hin. right. apply Hkeys. exact Hin.
      * intros Hnd'. cbn [map] in Hnd'. inversion Hnd'; subst. apply Hnd. assumption.
      * exact Hid.
Qed.

Lemma fold_add_text (lex : list SearchResult) :
  forall acc : Map SearchResult,
    exists L,
      fold_left add_text lex acc = acc ++ L /\
      Forall (fun kv => In (snd kv) lex /\ entry_id (snd kv) = fst kv /\
                        Map_has acc (fst kv) = false) L /\
      NoDup (Map_keys L) /\
      (forall e, In e lex -> Map_has (acc ++ L) (entry_id e) = true).
Proof.
  induction lex as [ | e lex IH]; intros acc; cbn [fold_left].
  - exists []. rewrite app_nil_r.
    split; [reflexivity | ]. split; [constructor | ]. split; [constructor | intros e []].
  - unfold add_text at 2. destruct (Map_has acc (entry_id e)) eqn:Eh.
    + destruct (IH acc) as (L & HL & HF & Hnd & Hall).
      exists L. split; [exact HL | ]. split; [ | split; [exact Hnd | ]].
      * rewrite Forall_forall in *. intros kv Hkv.
        destruct (HF kv Hkv) as (Hin & Hid & Hfr). auto using in_cons.
      * intros e' [<- | He']; [ | apply Hall; exact He'].
        rewrite Map_has_app, Eh. reflexivity.
    + rewrite (Map_set_fresh _ _ _ Eh).
      destruct (IH (acc ++ [(entry_id e, e)])) as (L & HL & HF & Hnd & Hall).
      exists ((entry_id e, e) :: L). rewrite HL, <- app_assoc. cbn [app].
      split; [reflexivity | ]. split; [ | split].
      * constructor; [cbn; auto | ].
        rewrite Forall_forall in *. intros kv Hkv.
        destruct (HF kv Hkv) as (Hin & Hid & Hfr).
        rewrite Map_has_app in Hfr. apply orb_false_iff in Hfr. destruct Hfr as [Hfr _].
        auto using in_cons.
      * cbn [Map_keys map fst]. constructor; [ | exact Hnd].
        intros Hin. unfold Map_keys in Hin. apply in_map_iff in Hin.
        destruct Hin as (kv & Hk & Hkv).
        rewrite Forall_forall in HF. destruct (HF kv Hkv) as (_ & _ & Hfr).
        rewrite Map_has_app in Hfr. apply orb_false_iff in Hfr. destruct Hfr as [_ Hfr].
        unfold Map_has in Hfr. cbn [Map_get] in Hfr. rewrite Hk, String.eqb_refl in Hfr.
        discriminate.
      * intros e' [<- | He'].
        -- rewrite Map_has_app. unfold Map_has at 2. cbn [Map_get].
           rewrite String.eqb_refl. apply orb_true_r.
        -- specialize (Hall e' He'). rewrite <- app_assoc in Hall. exact Hall.
Qed.

Lemma Forall2_In_r {A B : Type} (P : A -> B -> Prop) (l : list A) (l' : list B) (y : B) :
  Forall2 P l l' -> In y l' -> exists x, In x l /\ P x y.
Proof.
  induction 1 as [ | x y0 l l' Hxy HF IH]; intros Hin; [contradiction | ].
  destruct Hin as [<- | Hin].
  - exists x. split; [left; reflexivity | exact Hxy].
  - destruct (IH Hin) as (x' & Hx' & HP). exists x'. split; [right; exact Hx' | exact HP].
Qed.

Lemma entry_ids_keys (m : Map SearchResult) :
  Forall (fun kv => entry_id (snd kv) = fst kv) m ->
  map entry_id (Map_values m) = Map_keys m.
Proof.
  unfold Map_values, Map_keys. induction 1 as [ | kv m Hkv HF IH]; cbn [map]; congruence.
Qed.

(** C3 (as amended).  For a non-negative [limit], with the lexical
    results being rows of the screenshot table: the merged map is the
    entries of the semantic results whose screenshot the database has,
    in their order, followed by lexical entries; each semantic entry
    carries the cosine score of its result; a lexical result is entered
    only under an id that is not yet a key, and every lexical id ends up
    as a key; an id hit by both searches occurs exactly once in the
    answer, with the semantic score; and the answer has at most [limit]
    entries. *)
Theorem hybrid_merge_policy
    (query : string) (limit : Z) (w : OpenAIEmbeddingService.World) (textResults : list SearchResult) :
  (0 <= limit)%Z ->
  NoDup (Map_keys (OpenAIEmbeddingService.items w)) ->
  searchScreenshots query limit = Normal textResults ->
  Forall (fun e => In (screenshot e) (DatabaseManager.screenshots db)) textResults ->
  exists semanticResults w' semantic lexical out,
    OpenAIEmbeddingService.searchByText apiKey fetch_embeddings query limit w = (Normal semanticResults, w') /\
    search_screenshots (Some w) query limit = (out, Some w') /\
    out = slice0 (Map_values (semantic ++ lexical)) limit /\
    merge semanticResults textResults = semantic ++ lexical /\
    Forall2 from_semantic semantic (filter (in_database db) semanticResults) /\
    Forall (fun kv => In (snd kv) textResults /\ entry_id (snd kv) = fst kv /\
                      ~ In (fst kv) (Map_keys semantic)) lexical /\
    (forall e, In e textResults -> In (entry_id e) (Map_keys (semantic ++ lexical))) /\
    (forall r, In r semanticResults ->
               In (OpenAIEmbeddingService.result_id r) (map entry_id textResults) ->
               occurrences (OpenAIEmbeddingService.result_id r) out = 1%nat /\
               exists e, In e out /\ entry_id e = OpenAIEmbeddingService.result_id r /\
                         relevance_score e = Some (OpenAIEmbeddingService.score r)) /\
    (Z.of_nat (List.length out) <= limit)%Z.
Proof.
  intros Hlimit Hkeys Hlex Hrows.
  destruct (EmbeddingStoreTheory.searchByText_length apiKey fetch_embeddings query limit w Hlimit)
    as (sem & w' & Hsem & Hsemlen).
  pose proof (EmbeddingStoreTheory.searchByText_NoDup apiKey fetch_embeddings
                query limit w w' sem Hkeys Hsem) as Hnd.
  destruct (fold_add_semantic sem [] Hnd (fun r _ => eq_refl)) as (S & HS & HF2).
  cbn [app] in HS.
  destruct (Forall2_length_filter S sem HF2) as (HSlen & HSkeys & HSnd & HSid).
  specialize (HSnd Hnd).
  destruct (fold_add_text textResults S) as (L & HL & HLF & HLnd & HLall).
  assert (Hmerge : merge sem textResults = S ++ L).
  { unfold SearchHandler.merge. rewrite HS. exact HL. }
  assert (HLF' : Forall (fun kv => In (snd kv) textResults /\ entry_id (snd kv) = fst kv /\
                                   ~ In (fst kv) (Map_keys S)) L).
  { rewrite Forall_forall in *. intros kv Hkv. destruct (HLF kv Hkv) as (H1 & H2 & H3).
    split; [exact H1 | ]. split; [exact H2 | ]. apply Map_has_false. exact H3. }
  assert (Hids : Forall (fun kv => entry_id (snd kv) = fst kv) (S ++ L)).
  { apply Forall_app. split; [exact HSid | ].
    rewrite Forall_forall in *. intros kv Hkv. apply (HLF kv Hkv). }
  assert (Hndall : NoDup (Map_keys (S ++ L))).
  { unfold Map_keys. rewrite map_app. apply NoDup_app; [exact HSnd | exact HLnd | ].
    intros k HkS HkL. apply in_map_iff in HkL. destruct HkL as (kv & <- & Hkv).
    rewrite Forall_forall in HLF'. apply (HLF' kv Hkv). exact HkS. }
  exists sem, w', S, L, (slice0 (Map_values (S ++ L)) limit).
  split; [exact Hsem | ].
  split; [unfold SearchHandler.search_screenshots; rewrite Hlex, Hsem, Hmerge; reflexivity | ].
  split; [reflexivity | ]. split; [exact Hmerge | ]. split; [exact HF2 | ].
  split; [exact HLF' | ].
  split; [intros e He; apply Map_has_In, HLall, He | ].
  split; [ | apply slice0_length; exact Hlimit].
  intros r Hr Hboth.
  apply in_map_iff in Hboth. destruct Hboth as (e0 & He0 & Hin0).
  rewrite Forall_forall in Hrows.
  destruct (getScreenshot_row db (screenshot e0) (Hrows e0 Hin0)) as [s' Hs'].
  fold (entry_id e0) in Hs'. rewrite He0 in Hs'.
  assert (Hfil : In r (filter (in_database db) sem)).
  { apply filter_In. split; [exact Hr | ]. unfold in_database. rewrite Hs'. reflexivity. }
  destruct (Forall2_In_r _ _ _ r HF2 Hfil) as (kv & Hkv & Hk & He & Hscore).
  assert (Hpre : exists rest, slice0 (Map_values (S ++ L)) limit = Map_values S ++ rest).
  { unfold Map_values. rewrite map_app.
    destruct (slice0_app_prefix (map snd S) (map snd L) limit) as (rest & Hrest & _);
      [rewrite length_map; lia | eauto]. }
  destruct Hpre as [rest Hout].
  assert (Hin : In (snd kv) (slice0 (Map_values (S ++ L)) limit)).
  { rewrite Hout. apply in_or_app. left. unfold Map_values. apply in_map. exact Hkv. }
  split; [ | exists (snd kv); auto].
  apply occurrences_NoDup.
  - rewrite slice0_map. apply slice0_NoDup. rewrite (entry_ids_keys _ Hids). exact Hndall.
  - rewrite <- He. apply in_map. exact Hin.
Qed.

End Theory.

(** ** A query answered by both searches *)

Definition lexical_entry (s : DatabaseManager.Screenshot) : SearchResult :=
  {| screenshot := s; metadata := None; tags := None; folders := None;
     relevance_score := None |}.

Definition shot_c : DatabaseManager.Screenshot := SmartFolderTheory.shot "c" 1700000000000.
Definition shot_x : DatabaseManager.Screenshot := SmartFolderTheory.shot "x" 1700000001000.

(** The database has the screenshots [c] and [x]; the index has [a] and
    [c].  The lexical search finds [c] and [x]. *)
Definition two_shots : DatabaseManager.Database := SmartFolderTheory.table [shot_c; shot_x].
Definition finds_c_and_x (_ : string) (_ : Z) : completion (list SearchResult) :=
  Normal [lexical_entry shot_c; lexical_entry shot_x].
Definition no_metadata (_ : string) : option DatabaseManager.ScreenshotMetadata := None.
Definition no_tags (_ : string) : list DatabaseManager.Tag := [].
Definition no_folders (_ : string) : list DatabaseManager.FolderRow := [].

Definition indexed_a_and_c : OpenAIEmbeddingService.World :=
  EmbeddingStoreTheory.in_memory EmbeddingStoreTheory.two_records.

(** The semantic results are [c] (score 1) and [a] (score -1); [a] has no
    row and is passed over; [c] is answered once, with the semantic score;
    [x] follows from the lexical search. *)
Example search_screenshots_example :
  fst (search_screenshots "sk-test" EmbeddingStoreTheory.unit_answer two_shots finds_c_and_x
         no_metadata no_tags no_folders (Some indexed_a_and_c) "query" 10)
  = [ {| screenshot := shot_c; metadata := None; tags := Some []; folders := Some [];
         relevance_score := Some 1%float |};
      lexical_entry shot_x ].
Proof. vm_compute. reflexivity. Qed.

(** C3, counterexample.  The semantic search returns [c] and [a]; the
    database has no screenshot [a], and the answer has no entry for it,
    though it holds two entries of the ten allowed.  With [limit = -1]
    the answer holds one entry. *)
Lemma search_screenshots_skips_unknown_id :
  option_map (map OpenAIEmbeddingService.result_id)
    (match fst (OpenAIEmbeddingService.searchByText "sk-test" EmbeddingStoreTheory.unit_answer "query" 10
                  indexed_a_and_c) with
     | Normal rs => Some rs
     | Throw _ => None
     end) = Some ["c"; "a"]%string /\
  map entry_id
    (fst (search_screenshots "sk-test" EmbeddingStoreTheory.unit_answer two_shots finds_c_and_x
            no_metadata no_tags no_folders (Some indexed_a_and_c) "query" 10))
  = ["c"; "x"]%string /\
  map entry_id
    (fst (search_screenshots "sk-test" EmbeddingStoreTheory.unit_answer two_shots finds_c_and_x
            no_metadata no_tags no_folders (Some indexed_a_and_c) "query" (-1)))
  = ["c"]%string.
Proof. repeat split; vm_compute; reflexivity. Qed.

Lemma hybrid_merge_policy_witness :
  exists semanticResults w' semantic lexical out,
    OpenAIEmbeddingService.searchByText "sk-test" EmbeddingStoreTheory.unit_answer "query" 10 indexed_a_and_c
    = (Normal semanticResults, w') /\
    search_screenshots "sk-test" EmbeddingStoreTheory.unit_answer two_shots finds_c_and_x
      no_metadata no_tags no_folders (Some indexed_a_and_c) "query" 10 = (out, Some w') /\
    out = slice0 (Map_values (semantic ++ lexical)) 10 /\
    merge two_shots no_metadata no_tags no_folders semanticResults
      [lexical_entry shot_c; lexical_entry shot_x] = semantic ++ lexical /\
    Forall2 from_semantic semantic (filter (in_database two_shots) semanticResults) /\
    Forall (fun kv => In (snd kv) [lexical_entry shot_c; lexical_entry shot_x] /\
                      entry_id (snd kv) = fst kv /\
                      ~ In (fst kv) (Map_keys semantic)) lexical /\
    (forall e, In e [lexical_entry shot_c; lexical_entry shot_x] ->
               In (entry_id e) (Map_keys (semantic ++ lexical))) /\
    (forall r, In r semanticResults ->
               In (OpenAIEmbeddingService.result_id r)
                  (map entry_id [lexical_entry shot_c; lexical_entry shot_x]) ->
               occurrences (OpenAIEmbeddingService.result_id r) out = 1%nat /\
               exists e, In e out /\ entry_id e = OpenAIEmbeddingService.result_id r /\
                         relevance_score e = Some (OpenAIEmbeddingService.score r)) /\
    (Z.of_nat (List.length out) <= 10)%Z.
Proof.
  apply (hybrid_merge_policy "sk-test" EmbeddingStoreTheory.unit_answer two_shots finds_c_and_x
           no_metadata no_tags no_folders "query" 10 indexed_a_and_c
           [lexical_entry shot_c; lexical_entry shot_x]).
  - lia.
  - vm_compute. constructor; [intros [E | []]; discriminate E | ].
    constructor; [intros [] | constructor].
  - reflexivity.
  - constructor; [left; reflexivity | ].
    constructor; [right; left; reflexivity | constructor].
Defined.

End HybridSearchTheory.

(* ================================================================== *)
(** * Properties of the local fallbacks *)
(* ================================================================== *)

Module FallbackTheory.
Import JS JSFacts FallbackHeuristics.

Local Open Scope string_scope.










(** ** Keywords *)

Lemma Map_set_keys {V : Type} (m : Map V) (k : string) (v : V) :
  (forall x, In x (Map_keys (Map_set m k v)) <-> In x (Map_keys m) \/ x = k) /\
  (NoDup (Map_keys m) -> NoDup (Map_keys (Map_set m k v))).
Proof.
  destruct (Map_has m k) eqn:Eh.
  - assert (Hkeys : Map_keys (Map_set m k v) = Map_keys m).
    { unfold Map_has in Eh. unfold Map_keys.
      induction m as [ | [k' v'] m IH]; cbn [Map_get] in Eh; [discriminate | ].
      cbn [Map_set]. destruct (String.eqb_spec k k') as [-> | Hne]; cbn [map fst].
      - reflexivity.
      - f_equal. apply IH. exact Eh. }
    rewrite Hkeys. split; [ | auto].
    intros x. split; [auto | ]. intros [H | ->]; [exact H | ].
    apply Map_has_In. exact Eh.
  - rewrite (Map_set_fresh m k v Eh). unfold Map_keys. rewrite map_app. cbn [map fst].
    split.
    + intros x. rewrite in_app_iff. cbn [In]. intuition congruence.
    + intros Hnd. apply NoDup_app; [exact Hnd | repeat constructor; intros [] | ].
      intros a Ha [<- | []]. apply Map_has_false in Eh. apply Eh. exact Ha.
Qed.

Lemma count_words_keys (words : list string) :
  forall acc : Map nat,
    NoDup (Map_keys acc) ->
    let counted := fold_left (fun wordCount word =>
                      Map_set wordCount word
                        (match Map_get wordCount word with Some n => n | None => 0 end + 1))
                     words acc in
    NoDup (Map_keys counted) /\
    forall k, In k (Map_keys counted) -> In k (Map_keys acc) \/ In k words.
Proof.
  induction words as [ | word words IH]; intros acc Hnd; cbn [fold_left].
  - split; auto.
  - set (acc' := Map_set acc word _).
    destruct (Map_set_keys acc word
                (match Map_get acc word with Some n => n | None => 0 end + 1)) as [Hin Hnd'].
    fold acc' in Hin, Hnd'.
    destruct (IH acc' (Hnd' Hnd)) as [Hnd'' Hsub].
    split; [exact Hnd'' | ].
    intros k Hk. destruct (Hsub k Hk) as [H | H]; [ | right; right; exact H].
    apply Hin in H. destruct H as [H | ->]; [left; exact H | right; left; reflexivity].
Qed.

Lemma insert_by_count_Permutation (x : string * nat) (l : list (string * nat)) :
  Permutation (insert_by_count x l) (x :: l).
Proof.
  induction l as [ | y l IH]; cbn [insert_by_count]; [reflexivity | ].
  destruct (snd y <=? snd x)%nat; [reflexivity | ].
  rewrite IH. apply perm_swap.
Qed.

Lemma sort_by_count_Permutation (l : list (string * nat)) :
  Permutation (sort_by_count l) l.
Proof.
  induction l as [ | x l IH]; cbn [sort_by_count fold_right]; [reflexivity | ].
  fold (sort_by_count l). rewrite insert_by_count_Permutation. constructor. exact IH.
Qed.

(** X9.  The keywords are at most ten distinct words, each longer than
    three characters and none a stop word. *)
Theorem frequentWords_spec (ocrText : string) :
  (Z.of_nat (List.length (frequentWords ocrText)) <= 10)%Z /\
  NoDup (frequentWords ocrText) /\
  Forall (fun word => (3 < String.length word)%nat /\ isStopWord word = false)
         (frequentWords ocrText).
Proof.
  unfold frequentWords.
  destruct (count_words_keys (candidate_words ocrText) [] (NoDup_nil _)) as [Hnd Hsub].
  fold (count_words (candidate_words ocrText)) in Hnd, Hsub.
  pose proof (sort_by_count_Permutation (count_words (candidate_words ocrText))) as Hperm.
  split; [rewrite length_map; apply slice0_length; lia | ]. split.
  - rewrite slice0_map. apply slice0_NoDup.
    apply (Permutation_NoDup (l := Map_keys (count_words (candidate_words ocrText)))); [ | exact Hnd].
    unfold Map_keys. apply Permutation_map. symmetry. exact Hperm.
  - apply Forall_forall. intros word Hw.
    rewrite slice0_map in Hw. apply slice0_In in Hw.
    apply (Permutation_in _ (Permutation_map fst Hperm)) in Hw.
    destruct (Hsub word Hw) as [[] | Hc].
    unfold candidate_words in Hc.
    apply filter_In in Hc. destruct Hc as [Hc Hstop].
    apply filter_In in Hc. destruct Hc as [_ Hlen].
    apply Nat.ltb_lt in Hlen. apply negb_true_iff in Hstop. auto.
Qed.

(** On the sentence of the specification: [fox] and [the] are too short,
    [quick] is counted twice. *)
Example frequentWords_example :
  frequentWords "the quick quick brown fox fox fox jumps" = ["quick"; "brown"; "jumps"].
Proof. vm_compute. reflexivity. Qed.

(** ** The title stage with its fallback *)

Section TitleStage.

Variable GenerateScreenshotTitle : AIProcessor.Image -> string -> JS.completion string.
Variable today : string.

(** X7.  When the remote title call fails or answers the empty string,
    [generateTitle] returns the heuristic title; for the text
    ["Hello World\nfoo bar baz"] that is ["Hello World"]. *)
Theorem generateTitle_fallback (img : AIProcessor.Image) (ocrText : string) :
  (exists e, GenerateScreenshotTitle img ocrText = Throw e) \/
  GenerateScreenshotTitle img ocrText = Normal "" ->
  forall cs,
    fst (AIProcessor.generateTitle GenerateScreenshotTitle (generateTitleHeuristic today)
           img ocrText cs)
    = Normal (generateTitleHeuristic today ocrText).
Proof.
  intros H cs. unfold AIProcessor.generateTitle.
  destruct H as [[e ->] | ->]; reflexivity.
Qed.

End TitleStage.

Definition title_fails (_ : AIProcessor.Image) (_ : string) : JS.completion string :=
  Throw (JsError "rate limited").

Definition hello_world : string :=
  "Hello World" ++ String (ascii_of_nat 10) "foo bar baz".

Lemma generateTitle_fallback_witness :
  fst (AIProcessor.generateTitle title_fails (generateTitleHeuristic "1/1/2025")
         "base64" hello_world [])
  = Normal "Hello World".
Proof.
  apply (generateTitle_fallback title_fails "1/1/2025" "base64" hello_world).
  left. exists (JsError "rate limited"). reflexivity.
Defined.


End FallbackTheory.

(* ================================================================== *)
(** * Facts about regular expressions and strings *)
(* ================================================================== *)

Module RegExpFacts.
Import JS RegExp.

(** ** Classes are compared over the 256 code units *)

Definition all_ascii : list ascii := map ascii_of_nat (seq 0 256).

Lemma all_ascii_complete (c : ascii) : In c all_ascii.
Proof.
  unfold all_ascii. rewrite <- (ascii_nat_embedding c). apply in_map.
  apply in_seq. pose proof (nat_ascii_bounded c). lia.
Qed.

Definition included (p q : ascii -> bool) : bool :=
  forallb (fun c => implb (p c) (q c)) all_ascii.

Lemma included_spec (p q : ascii -> bool) :
  included p q = true -> forall c, p c = true -> q c = true.
Proof.
  unfold included. rewrite forallb_forall. intros H c Hp.
  specialize (H c (all_ascii_complete c)). rewrite Hp in H. exact H.
Qed.

(** ** Expressions without any match *)

Fixpoint void (r : regex) : bool :=
  match r with
  | Fail => true
  | Seq r1 r2 => void r1 || void r2
  | Alt r1 r2 => void r1 && void r2
  | _ => false
  end.

Lemma void_nullable (r : regex) (next : option ascii) :
  void r = true -> nullable next r = false.
Proof.
  induction r as [ | | p | r1 IH1 r2 IH2 | r1 IH1 r2 IH2 | r1 IH1 | ];
    cbn [void nullable]; intros Hv; try discriminate Hv; try reflexivity.
  - apply orb_true_iff in Hv. destruct Hv as [Hv | Hv].
    + rewrite (IH1 Hv). reflexivity.
    + rewrite (IH2 Hv). apply andb_false_r.
  - apply andb_true_iff in Hv. destruct Hv as [Hv1 Hv2].
    rewrite (IH1 Hv1), (IH2 Hv2). reflexivity.
Qed.

Lemma void_derivative (r : regex) (c : ascii) :
  void r = true -> void (derivative c r) = true.
Proof.
  induction r as [ | | p | r1 IH1 r2 IH2 | r1 IH1 r2 IH2 | r1 IH1 | ];
    cbn [void derivative]; intros Hv; try discriminate Hv; try reflexivity.
  - apply orb_true_iff in Hv. destruct Hv as [Hv | Hv].
    + rewrite (IH1 Hv), (void_nullable r1 (Some c) Hv). reflexivity.
    + rewrite Hv, orb_true_r. cbn [andb].
      destruct (nullable (Some c) r1); [apply IH2; exact Hv | reflexivity].
  - apply andb_true_iff in Hv. destruct Hv as [Hv1 Hv2].
    rewrite (IH1 Hv1), (IH2 Hv2). reflexivity.
Qed.

Lemma void_matches (s : list ascii) (r : regex) :
  void r = true -> matches r s = false.
Proof.
  revert r. induction s as [ | c s IH]; intros r Hv; cbn [matches].
  - apply void_nullable. exact Hv.
  - apply IH. apply void_derivative. exact Hv.
Qed.

(** Reading a prefix. *)
Definition derivatives (s : list ascii) (r : regex) : regex :=
  fold_left (fun r' c => derivative c r') s r.

Lemma matches_app (s1 s2 : list ascii) (r : regex) :
  matches r (s1 ++ s2) = matches (derivatives s1 r) s2.
Proof.
  revert r. induction s1 as [ | c s1 IH]; intros r; [reflexivity | ].
  cbn [app matches]. rewrite IH. reflexivity.
Qed.

(** ** Expressions whose matches stay within a class *)

Fixpoint within (Q : ascii -> bool) (r : regex) : bool :=
  match r with
  | Chr p => included p Q
  | Seq r1 r2 => within Q r1 && within Q r2
  | Alt r1 r2 => within Q r1 && within Q r2
  | Star r1 => within Q r1
  | _ => true
  end.

Lemma within_derivative (Q : ascii -> bool) (r : regex) (c : ascii) :
  within Q r = true -> within Q (derivative c r) = true.
Proof.
  induction r as [ | | p | r1 IH1 r2 IH2 | r1 IH1 r2 IH2 | r1 IH1 | ];
    cbn [within derivative]; intros Hw; try reflexivity.
  - destruct (p c); reflexivity.
  - apply andb_true_iff in Hw. destruct Hw as [Hw1 Hw2].
    rewrite (IH1 Hw1), Hw2. cbn [andb].
    destruct (nullable (Some c) r1); [apply IH2; exact Hw2 | reflexivity].
  - apply andb_true_iff in Hw. destruct Hw as [Hw1 Hw2].
    rewrite (IH1 Hw1), (IH2 Hw2). reflexivity.
  - rewrite (IH1 Hw), Hw. reflexivity.
Qed.

Lemma within_void (Q : ascii -> bool) (r : regex) (c : ascii) :
  within Q r = true -> Q c = false -> void (derivative c r) = true.
Proof.
  intros Hw Hc.
  induction r as [ | | p | r1 IH1 r2 IH2 | r1 IH1 r2 IH2 | r1 IH1 | ];
    cbn [within derivative void] in *; try reflexivity.
  - destruct (p c) eqn:Hp; [ | reflexivity].
    rewrite (included_spec p Q Hw c Hp) in Hc. discriminate Hc.
  - apply andb_true_iff in Hw. destruct Hw as [Hw1 Hw2].
    rewrite (IH1 Hw1). cbn [orb andb].
    destruct (nullable (Some c) r1); [apply IH2; exact Hw2 | reflexivity].
  - apply andb_true_iff in Hw. destruct Hw as [Hw1 Hw2].
    rewrite (IH1 Hw1), (IH2 Hw2). reflexivity.
  - rewrite (IH1 Hw). reflexivity.
Qed.

Lemma within_matches (Q : ascii -> bool) (s : list ascii) (r : regex) :
  within Q r = true -> matches r s = true -> forallb Q s = true.
Proof.
  revert r. induction s as [ | c s IH]; intros r Hw Hm; [reflexivity | ].
  cbn [matches] in Hm. cbn [forallb].
  destruct (Q c) eqn:Hc.
  - cbn [andb]. apply (IH (derivative c r)); [apply within_derivative; exact Hw | exact Hm].
  - rewrite (void_matches s _ (within_void Q r c Hw Hc)) in Hm. discriminate Hm.
Qed.

(** ** Expressions whose matches need a code unit of a class *)

Fixpoint requires (P : ascii -> bool) (r : regex) : bool :=
  match r with
  | Fail => true
  | Chr p => included p P
  | Seq r1 r2 => requires P r1 || requires P r2
  | Alt r1 r2 => requires P r1 && requires P r2
  | _ => false
  end.

Lemma requires_nullable (P : ascii -> bool) (r : regex) (next : option ascii) :
  requires P r = true -> nullable next r = false.
Proof.
  induction r as [ | | p | r1 IH1 r2 IH2 | r1 IH1 r2 IH2 | r1 IH1 | ];
    cbn [requires nullable]; intros Hr; try discriminate Hr; try reflexivity.
  - apply orb_true_iff in Hr. destruct Hr as [Hr | Hr].
    + rewrite (IH1 Hr). reflexivity.
    + rewrite (IH2 Hr). apply andb_false_r.
  - apply andb_true_iff in Hr. destruct Hr as [Hr1 Hr2].
    rewrite (IH1 Hr1), (IH2 Hr2). reflexivity.
Qed.

Lemma requires_derivative (P : ascii -> bool) (r : regex) (c : ascii) :
  requires P r = true -> P c = false -> requires P (derivative c r) = true.
Proof.
  intros Hr Hc.
  induction r as [ | | p | r1 IH1 r2 IH2 | r1 IH1 r2 IH2 | r1 IH1 | ];
    cbn [requires derivative] in *; try discriminate Hr; try reflexivity.
  - destruct (p c) eqn:Hp; [ | reflexivity].
    rewrite (included_spec p P Hr c Hp) in Hc. discriminate Hc.
  - apply orb_true_iff in Hr. destruct Hr as [Hr | Hr].
    + rewrite (IH1 Hr), (requires_nullable P r1 (Some c) Hr). reflexivity.
    + rewrite Hr, orb_true_r. cbn [andb].
      destruct (nullable (Some c) r1); [apply IH2; exact Hr | reflexivity].
  - apply andb_true_iff in Hr. destruct Hr as [Hr1 Hr2].
    rewrite (IH1 Hr1), (IH2 Hr2). reflexivity.
Qed.

Lemma requires_matches (P : ascii -> bool) (s : list ascii) (r : regex) :
  requires P r = true -> matches r s = true -> existsb P s = true.
Proof.
  revert r. induction s as [ | c s IH]; intros r Hr Hm.
  - cbn [matches] in Hm. rewrite (requires_nullable P r None Hr) in Hm. discriminate Hm.
  - cbn [matches] in Hm. cbn [existsb].
    destruct (P c) eqn:Hc; [reflexivity | ].
    cbn [orb]. apply (IH (derivative c r)); [apply requires_derivative; assumption | exact Hm].
Qed.

(** ** The strings of an expression without assertion *)

Inductive lang : regex -> list ascii -> Prop :=
| lang_Empty : lang Empty []
| lang_Chr (p : ascii -> bool) (c : ascii) : p c = true -> lang (Chr p) [c]
| lang_Seq (r1 r2 : regex) (s1 s2 : list ascii) :
    lang r1 s1 -> lang r2 s2 -> lang (Seq r1 r2) (s1 ++ s2)
| lang_Alt_l (r1 r2 : regex) (s : list ascii) : lang r1 s -> lang (Alt r1 r2) s
| lang_Alt_r (r1 r2 : regex) (s : list ascii) : lang r2 s -> lang (Alt r1 r2) s
| lang_Star_nil (r : regex) : lang (Star r) []
| lang_Star_cons (r : regex) (s1 s2 : list ascii) :
    lang r s1 -> lang (Star r) s2 -> lang (Star r) (s1 ++ s2).

Lemma lang_nullable (r : regex) (s : list ascii) (next : option ascii) :
  lang r s -> s = [] -> nullable next r = true.
Proof.
  intros H. induction H as [ | p c Hp | r1 r2 s1 s2 H1 IH1 H2 IH2 | r1 r2 s H1 IH1
                            | r1 r2 s H2 IH2 | r | r s1 s2 H1 IH1 H2 IH2];
    intros E; cbn [nullable]; try reflexivity.
  - discriminate E.
  - apply app_eq_nil in E. destruct E as [E1 E2]. rewrite (IH1 E1), (IH2 E2). reflexivity.
  - rewrite (IH1 E). reflexivity.
  - rewrite (IH2 E). apply orb_true_r.
Qed.

Lemma lang_derivative (r : regex) (s : list ascii) :
  lang r s -> forall c s', s = c :: s' -> lang (derivative c r) s'.
Proof.
  intros H. induction H as [ | p c0 Hp | r1 r2 s1 s2 H1 IH1 H2 IH2 | r1 r2 s H1 IH1
                            | r1 r2 s H2 IH2 | r | r s1 s2 H1 IH1 H2 IH2];
    intros c s' E; cbn [derivative].
  - discriminate E.
  - inversion E; subst. rewrite Hp. constructor.
  - destruct s1 as [ | c1 s1'].
    + cbn [app] in E. apply lang_Alt_r.
      rewrite (lang_nullable r1 [] (Some c) H1 eq_refl). apply (IH2 c s' E).
    + cbn [app] in E. inversion E; subst. apply lang_Alt_l.
      apply lang_Seq; [apply (IH1 c s1' eq_refl) | exact H2].
  - apply lang_Alt_l. apply (IH1 c s' E).
  - apply lang_Alt_r. apply (IH2 c s' E).
  - discriminate E.
  - destruct s1 as [ | c1 s1'].
    + cbn [app] in E. apply (IH2 c s' E).
    + cbn [app] in E. inversion E; subst.
      apply lang_Seq; [apply (IH1 c s1' eq_refl) | exact H2].
Qed.

Lemma lang_matches (s : list ascii) (r : regex) : lang r s -> matches r s = true.
Proof.
  revert r. induction s as [ | c s IH]; intros r H; cbn [matches].
  - apply (lang_nullable r [] None H eq_refl).
  - apply IH. apply (lang_derivative r (c :: s) H c s eq_refl).
Qed.

Lemma lang_literal_i (s : string) : lang (literal_i s) (list_ascii_of_string s).
Proof.
  induction s as [ | c s IH]; cbn [literal_i list_ascii_of_string]; [constructor | ].
  apply (lang_Seq (chr_i c) (literal_i s) [c]); [ | exact IH].
  constructor. apply Ascii.eqb_refl.
Qed.

Lemma lang_plus_digit (d : list ascii) :
  d <> [] -> forallb is_digit d = true -> lang (plus digit) d.
Proof.
  intros Hne Hd. destruct d as [ | c d]; [contradiction | ]. clear Hne.
  cbn [forallb] in Hd. apply andb_true_iff in Hd. destruct Hd as [Hc Hd].
  apply (lang_Seq digit (Star digit) [c] d); [constructor; exact Hc | ].
  induction d as [ | c' d IH]; [constructor | ].
  cbn [forallb] in Hd. apply andb_true_iff in Hd. destruct Hd as [Hc' Hd].
  apply (lang_Star_cons digit [c'] d); [constructor; exact Hc' | exact (IH Hd)].
Qed.

End RegExpFacts.

Module TextFacts.
Import JS.

Local Open Scope string_scope.

Lemma list_ascii_of_string_app (a b : string) :
  list_ascii_of_string (a ++ b) = (list_ascii_of_string a ++ list_ascii_of_string b)%list.
Proof.
  induction a as [ | c a IH]; cbn [append list_ascii_of_string app]; [reflexivity | ].
  rewrite IH. reflexivity.
Qed.

Lemma list_ascii_of_string_inj (a b : string) :
  list_ascii_of_string a = list_ascii_of_string b -> a = b.
Proof.
  intros E. rewrite <- (string_of_list_ascii_of_string a), <- (string_of_list_ascii_of_string b).
  rewrite E. reflexivity.
Qed.

Lemma append_inv_head (p a b : string) : p ++ a = p ++ b -> a = b.
Proof.
  induction p as [ | c p IH]; cbn [append]; intros E; [exact E | ].
  inversion E. auto.
Qed.

Lemma append_inv_tail (a b e : string) : a ++ e = b ++ e -> a = b.
Proof.
  intros E. apply list_ascii_of_string_inj.
  apply (f_equal list_ascii_of_string) in E.
  rewrite !list_ascii_of_string_app in E. apply app_inv_tail in E. exact E.
Qed.

(** The code units of a substring are code units of the string. *)
Lemma substring_forallb (Q : ascii -> bool) (s : string) (n m : nat) :
  forallb Q (list_ascii_of_string s) = true ->
  forallb Q (list_ascii_of_string (substring n m s)) = true.
Proof.
  revert n m. induction s as [ | c s IH]; intros n m H.
  - destruct n, m; reflexivity.
  - cbn [list_ascii_of_string forallb] in H. apply andb_true_iff in H. destruct H as [Hc Hs].
    destruct n as [ | n]; cbn [substring].
    + destruct m as [ | m]; [reflexivity | ].
      cbn [list_ascii_of_string forallb]. rewrite Hc. apply (IH 0 m Hs).
    + apply (IH n m Hs).
Qed.

(** ** Decimal numerals *)

Definition digit_or_minus (c : ascii) : bool := RegExp.is_digit c || Ascii.eqb c "-".

Lemma string_of_uint_digits (d : Decimal.uint) :
  forallb RegExp.is_digit (list_ascii_of_string (NilEmpty.string_of_uint d)) = true.
Proof.
  induction d as [ | d IH | d IH | d IH | d IH | d IH | d IH | d IH | d IH | d IH | d IH];
    cbn [NilEmpty.string_of_uint list_ascii_of_string forallb]; try reflexivity;
    rewrite IH; reflexivity.
Qed.

Lemma Number_toString_chars (z : Z) :
  forallb digit_or_minus (list_ascii_of_string (Text.Number_toString z)) = true.
Proof.
  assert (Hu : forall d, forallb digit_or_minus
                           (list_ascii_of_string (NilZero.string_of_uint d)) = true).
  { intros d. apply forallb_forall. intros c Hc.
    assert (Hd : RegExp.is_digit c = true).
    { destruct d; try (apply (proj1 (forallb_forall _ _) (string_of_uint_digits _) c Hc)).
      cbn in Hc. destruct Hc as [<- | []]. reflexivity. }
    unfold digit_or_minus. rewrite Hd. reflexivity. }
  unfold Text.Number_toString, NilZero.string_of_int.
  destruct (Z.to_int z) as [d | d]; [apply Hu | ].
  cbn [list_ascii_of_string forallb]. rewrite Hu. reflexivity.
Qed.

Lemma to_int_not_nil (z : Z) : Z.to_int z <> Decimal.Pos Decimal.Nil /\ Z.to_int z <> Decimal.Neg Decimal.Nil.
Proof.
  destruct z as [ | p | p]; cbn; split; intros E; try discriminate E;
    inversion E as [E']; apply (DecimalPos.Unsigned.to_uint_nonnil p E').
Qed.

Lemma Number_toString_inj (a b : Z) :
  Text.Number_toString a = Text.Number_toString b -> a = b.
Proof.
  unfold Text.Number_toString. intros E.
  apply DecimalZ.to_int_inj.
  destruct (to_int_not_nil a) as [Ha1 Ha2]. destruct (to_int_not_nil b) as [Hb1 Hb2].
  pose proof (NilZero.isi (Z.to_int a) Ha1 Ha2) as Ia.
  pose proof (NilZero.isi (Z.to_int b) Hb1 Hb2) as Ib.
  rewrite E in Ia. rewrite Ia in Ib. inversion Ib. reflexivity.
Qed.

(** ** The string functions *)

Lemma leading_digits_digits (l : list ascii) :
  forallb RegExp.is_digit (Text.leading_digits l) = true.
Proof.
  induction l as [ | c l IH]; cbn [Text.leading_digits]; [reflexivity | ].
  destruct (RegExp.is_digit c) eqn:Hc; [ | reflexivity].
  cbn [forallb]. rewrite Hc, IH. reflexivity.
Qed.

Lemma match_digits_digits (n : nat) (l d : list ascii) :
  Text.match_digits n l = Some d -> forallb RegExp.is_digit d = true.
Proof.
  induction l as [ | c l IH]; cbn [Text.match_digits].
  - destruct (n =? 0)%nat; intros E; [inversion E; reflexivity | discriminate E].
  - destruct (n <=? List.length (Text.leading_digits (c :: l)))%nat.
    + intros E. injection E as <-. apply (leading_digits_digits (c :: l)).
    + exact IH.
Qed.

Lemma replace_runs_forallb (class Q : ascii -> bool) (by_ : ascii) (in_run : bool) (l : list ascii) :
  Q by_ = true ->
  (forall c, In c l -> class c = false -> Q c = true) ->
  forallb Q (Text.replace_runs class by_ in_run l) = true.
Proof.
  intros Hby. revert in_run. induction l as [ | c l IH]; intros in_run H; [reflexivity | ].
  cbn [Text.replace_runs].
  assert (Hl : forall c', In c' l -> class c' = false -> Q c' = true).
  { intros c' Hin. apply H. right. exact Hin. }
  destruct (class c) eqn:Hc.
  - destruct in_run; [apply IH; exact Hl | ].
    cbn [forallb]. rewrite Hby. apply IH. exact Hl.
  - cbn [forallb]. rewrite (H c (or_introl eq_refl) Hc). apply IH. exact Hl.
Qed.

End TextFacts.

(* ================================================================== *)
(** * Properties of the file names *)
(* ================================================================== *)

Module FileNameTheory.
Import JS RegExp RegExpFacts TextFacts FileSystemManager Main.

Local Open Scope string_scope.

Definition no_white_space (c : ascii) : bool := negb (is_white_space c).

Definition not_hyphen (c : ascii) : bool := negb (Ascii.eqb c "-").

Lemma forallb_negb_existsb {A : Type} (f : A -> bool) (l : list A) :
  forallb (fun x => negb (f x)) l = true -> existsb f l = false.
Proof.
  induction l as [ | x l IH]; cbn [forallb existsb]; [reflexivity | ].
  intros H. apply andb_true_iff in H. destruct H as [Hx Hl].
  apply negb_true_iff in Hx. rewrite Hx, (IH Hl). reflexivity.
Qed.

Lemma forallb_included (p q : ascii -> bool) (l : list ascii) :
  included p q = true -> forallb p l = true -> forallb q l = true.
Proof.
  intros Hi H. rewrite forallb_forall in *. intros c Hc.
  apply (included_spec p q Hi). apply H. exact Hc.
Qed.

(** A name without white space that has a hyphen is no default name:
    three of the patterns need a blank, and the fourth has no hyphen. *)
Lemma hyphenated_not_default (name : string) :
  forallb no_white_space (list_ascii_of_string name) = true ->
  existsb (Ascii.eqb "-") (list_ascii_of_string name) = true ->
  isDefaultScreenshotName name = false.
Proof.
  intros Hws Hhy. unfold isDefaultScreenshotName, defaultPatterns, test_anchored.
  cbn [existsb].
  pose proof (forallb_negb_existsb is_white_space _ Hws) as Hnone.
  repeat match goal with
         | |- context [matches ?p (list_ascii_of_string name)] =>
             let E := fresh "E" in
             destruct (matches p (list_ascii_of_string name)) eqn:E;
             [ exfalso | clear E ]
         end.
  - apply (requires_matches is_white_space) in E; [congruence | vm_compute; reflexivity].
  - apply (requires_matches is_white_space) in E; [congruence | vm_compute; reflexivity].
  - apply (within_matches not_hyphen) in E; [ | vm_compute; reflexivity].
    rewrite (forallb_negb_existsb (Ascii.eqb "-") _) in Hhy; [discriminate Hhy | ].
    revert E. apply forallb_included. vm_compute. reflexivity.
  - apply (requires_matches is_white_space) in E; [congruence | vm_compute; reflexivity].
  - reflexivity.
Qed.

(** A name that starts with [screenshot-] is no default name either. *)
Lemma hyphen_prefix_not_default (rest : string) :
  isDefaultScreenshotName ("screenshot-" ++ rest) = false.
Proof.
  unfold isDefaultScreenshotName, defaultPatterns, test_anchored.
  rewrite list_ascii_of_string_app. cbn [existsb].
  rewrite !matches_app.
  rewrite !void_matches by (vm_compute; reflexivity).
  reflexivity.
Qed.

(** X10.  Every name [screenshot_<digits>.png], the form the comment of
    [isDefaultScreenshotName] gives as the application's own, is a default
    name. *)
Theorem numbered_name_is_default (digits : list ascii) :
  digits <> [] ->
  forallb is_digit digits = true ->
  isDefaultScreenshotName ("screenshot_" ++ string_of_list_ascii digits ++ ".png") = true.
Proof.
  intros Hne Hd. unfold isDefaultScreenshotName. apply existsb_exists.
  exists (cat [literal_i "screenshot_"; plus digit; literal_i ".png"]).
  split; [cbn; tauto | ].
  unfold test_anchored. apply lang_matches.
  rewrite !list_ascii_of_string_app, list_ascii_of_string_of_list_ascii.
  cbn [cat].
  apply lang_Seq; [apply lang_literal_i | ].
  apply lang_Seq; [apply lang_plus_digit; assumption | ].
  rewrite <- (app_nil_r (list_ascii_of_string ".png")).
  apply lang_Seq; [apply lang_literal_i | constructor].
Qed.

Lemma numbered_name_is_default_witness :
  isDefaultScreenshotName "screenshot_1750583345439.png" = true.
Proof.
  apply (numbered_name_is_default (list_ascii_of_string "1750583345439")).
  - discriminate.
  - reflexivity.
Defined.

(** X11.  The name [saveScreenshot] generates for a capture,
    [screenshot-<ISO time>.png], is not a default name, whatever the time
    reads; nor is any other name that starts with [screenshot-]. *)
Theorem generated_filename_not_default (iso rest : string) :
  isDefaultScreenshotName (generated_filename iso) = false /\
  isDefaultScreenshotName ("screenshot-" ++ rest) = false.
Proof.
  split; [unfold generated_filename | ]; apply hyphen_prefix_not_default.
Qed.

(** ** The title as a file name *)

Definition word_or_hyphen (c : ascii) : bool :=
  FallbackHeuristics.is_word c || Ascii.eqb c "-".

Lemma forallb_map_included (p q : ascii -> bool) (f : ascii -> ascii) (l : list ascii) :
  included p (fun c => q (f c)) = true ->
  forallb p l = true -> forallb q (map f l) = true.
Proof.
  intros Hi H. rewrite forallb_forall in *. intros c Hc.
  apply in_map_iff in Hc. destruct Hc as [c0 [<- Hc0]].
  apply (included_spec p _ Hi). apply H. exact Hc0.
Qed.

Lemma cleanTitle_chars (aiTitle : string) :
  forallb no_white_space (list_ascii_of_string (cleanTitle aiTitle)) = true.
Proof.
  unfold cleanTitle. apply substring_forallb.
  unfold FallbackHeuristics.toLowerCase.
  rewrite !list_ascii_of_string_of_list_ascii.
  apply (forallb_map_included word_or_hyphen); [vm_compute; reflexivity | ].
  apply replace_runs_forallb; [reflexivity | ].
  intros c Hin Hws. unfold Text.remove_all in Hin.
  rewrite list_ascii_of_string_of_list_ascii in Hin.
  apply filter_In in Hin. destruct Hin as [_ Hkeep].
  unfold not_for_filename in Hkeep. rewrite negb_involutive, Hws, orb_false_r in Hkeep.
  exact Hkeep.
Qed.

Lemma substring_length_le (s : string) (n m : nat) : (String.length (substring n m s) <= m)%nat.
Proof.
  revert n m. induction s as [ | c s IH]; intros n m.
  - destruct n, m; cbn; lia.
  - destruct n as [ | n]; cbn [substring].
    + destruct m as [ | m]; cbn [String.length]; [lia | ]. specialize (IH 0%nat m). lia.
    + apply IH.
Qed.

Lemma cleanTitle_at_most_50 (aiTitle : string) : (String.length (cleanTitle aiTitle) <= 50)%nat.
Proof. unfold cleanTitle. apply substring_length_le. Qed.

(** ** The file system *)

Lemma existsSync_unlinkSync (fs : Files) (p q : string) :
  existsSync (unlinkSync fs p) q = existsSync fs q && negb (String.eqb p q).
Proof.
  unfold existsSync, unlinkSync. induction fs as [ | x fs IH]; [reflexivity | ].
  cbn [filter existsb]. destruct (String.eqb_spec p x) as [<- | Hpx]; cbn [negb].
  - rewrite IH. destruct (String.eqb_spec q p) as [-> | Hqp]; cbn [orb].
    + rewrite String.eqb_refl. cbn. apply andb_false_r.
    + reflexivity.
  - cbn [existsb]. rewrite IH.
    destruct (String.eqb_spec q x) as [-> | Hqx]; cbn [orb]; [ | reflexivity].
    destruct (String.eqb_spec p x) as [E | _]; [contradiction | reflexivity].
Qed.

(** X12.  [renameScreenshotFile] either changes nothing and answers
    [null], or moves the file to a path where nothing was: the new name is
    the cleaned title (3 to 50 code units), a hyphen, a time stamp and
    [.png]; every other file is left as it was; and the new name is not a
    default name, so that the file is not renamed a second time. *)
Theorem renameScreenshotFile_spec
    (now : Z) (dirname : string -> string) (join : list string -> string)
    (rename_fails : string -> string -> bool)
    (filepath currentFilename aiTitle : string) (fs : Files) :
  match renameScreenshotFile now dirname join rename_fails filepath currentFilename aiTitle fs with
  | (None, fs') => fs' = fs
  | (Some newFilename, fs') =>
      let newFilepath := join [dirname filepath; newFilename] in
      (exists timestamp, newFilename = cleanTitle aiTitle ++ "-" ++ timestamp ++ ".png") /\
      (3 <= String.length (cleanTitle aiTitle) <= 50)%nat /\
      existsSync fs filepath = true /\
      existsSync fs newFilepath = false /\
      existsSync fs' newFilepath = true /\
      existsSync fs' filepath = false /\
      (forall p, p <> filepath -> p <> newFilepath -> existsSync fs' p = existsSync fs p) /\
      isDefaultScreenshotName newFilename = false
  end.
Proof.
  unfold renameScreenshotFile.
  destruct (Nat.ltb_spec (String.length (cleanTitle aiTitle)) 3) as [Hshort | Hlong];
    [reflexivity | ].
  set (timestamp := match Text.match_digits 13 (list_ascii_of_string currentFilename) with
                    | Some digits => string_of_list_ascii digits
                    | None => Text.Number_toString now
                    end).
  set (newFilename := cleanTitle aiTitle ++ "-" ++ timestamp ++ ".png").
  set (newFilepath := join [dirname filepath; newFilename]).
  destruct (existsSync fs newFilepath) eqn:Hnew; [reflexivity | ].
  unfold rename.
  destruct (existsSync fs filepath) eqn:Hold; cbn [andb]; [ | reflexivity].
  destruct (rename_fails filepath newFilepath); cbn [negb]; [reflexivity | ].
  cbn zeta. fold newFilepath.
  assert (Hdiff : filepath <> newFilepath).
  { intros E. rewrite E in Hold. congruence. }
  split; [exists timestamp; reflexivity | ].
  split; [split; [exact Hlong | apply cleanTitle_at_most_50] | ].
  split; [first [reflexivity | exact Hold] | ].
  split; [first [reflexivity | exact Hnew] | ].
  split; [unfold existsSync; cbn [existsb]; rewrite String.eqb_refl; reflexivity | ].
  split.
  { change (existsSync (newFilepath :: unlinkSync fs filepath) filepath)
      with (String.eqb filepath newFilepath || existsSync (unlinkSync fs filepath) filepath).
    rewrite existsSync_unlinkSync, String.eqb_refl.
    destruct (String.eqb_spec filepath newFilepath) as [E | _]; [contradiction | ].
    cbn. apply andb_false_r. }
  split.
  { intros p Hp1 Hp2.
    change (existsSync (newFilepath :: unlinkSync fs filepath) p)
      with (String.eqb p newFilepath || existsSync (unlinkSync fs filepath) p).
    rewrite existsSync_unlinkSync.
    destruct (String.eqb_spec p newFilepath) as [E | _]; [contradiction | ].
    destruct (String.eqb_spec filepath p) as [E | _]; [symmetry in E; contradiction | ].
    cbn. apply andb_true_r. }
  assert (Hts : forallb digit_or_minus (list_ascii_of_string timestamp) = true).
  { unfold timestamp.
    destruct (Text.match_digits 13 (list_ascii_of_string currentFilename)) as [d | ] eqn:Hm.
    - rewrite list_ascii_of_string_of_list_ascii.
      apply (forallb_included is_digit); [vm_compute; reflexivity | ].
      apply (match_digits_digits _ _ _ Hm).
    - apply Number_toString_chars. }
  apply hyphenated_not_default.
  - unfold newFilename. rewrite !list_ascii_of_string_app, !forallb_app.
    rewrite cleanTitle_chars.
    rewrite (forallb_included digit_or_minus no_white_space _ eq_refl Hts).
    reflexivity.
  - unfold newFilename. rewrite !list_ascii_of_string_app, !existsb_app.
    cbn. apply orb_true_r.
Qed.

(** ** Names that are not taken *)

Section Unique.

Variable join : list string -> string.
Variable extname : string -> string.
Variable basename : string -> string -> string.
Variable directory : string.
Variable filename : string.
Variable fs : Files.

(** The names the loop tries: the name itself, then [base-1.ext],
    [base-2.ext], ... *)
Definition candidate (k : nat) : string :=
  match k with
  | O => filename
  | S _ => basename filename (extname filename) ++ "-" ++ Text.Number_toString (Z.of_nat k)
           ++ extname filename
  end.

Definition taken (k : nat) : bool := existsSync fs (join [directory; candidate k]).

Lemma unique_loop_spec (fuel i : nat) :
  (exists j, (i <= j < i + fuel)%nat /\ taken j = false) ->
  exists j, (i <= j < i + fuel)%nat /\ taken j = false /\
            (forall k, (i <= k < j)%nat -> taken k = true) /\
            unique_loop join fuel directory (basename filename (extname filename))
              (extname filename) (Z.of_nat i + 1) (candidate i) fs
            = Some (candidate j).
Proof.
  revert i. induction fuel as [ | fuel IH]; intros i [j [Hj Hfree]]; [lia | ].
  cbn [unique_loop]. fold (taken i).
  destruct (taken i) eqn:Hi.
  - assert (Hj' : (S i <= j < S i + fuel)%nat).
    { destruct (Nat.eq_dec i j) as [-> | Hne]; [congruence | lia]. }
    destruct (IH (S i) (ex_intro _ j (conj Hj' Hfree))) as [j0 [Hr [Hfree0 [Hmin Hloop]]]].
    exists j0. split; [lia | ]. split; [exact Hfree0 | ]. split.
    + intros k Hk. destruct (Nat.eq_dec k i) as [-> | Hne]; [exact Hi | apply Hmin; lia].
    + replace (Z.of_nat i + 1)%Z with (Z.of_nat (S i)) by lia.
      replace (Z.of_nat (S i) + 1)%Z with (Z.of_nat (S i) + 1)%Z in Hloop by reflexivity.
      exact Hloop.
  - exists i. split; [lia | ]. split; [exact Hi | ]. split; [intros k Hk; lia | reflexivity].
Qed.

Hypothesis join_injective :
  forall a b, join [directory; a] = join [directory; b] -> a = b.

Lemma candidate_injective (j k : nat) :
  (1 <= j)%nat -> (1 <= k)%nat -> candidate j = candidate k -> j = k.
Proof.
  intros Hj Hk. destruct j as [ | j]; [lia | ]. destruct k as [ | k]; [lia | ].
  unfold candidate. intros E.
  apply append_inv_head in E. apply (append_inv_head "-") in E.
  apply append_inv_tail in E. apply Number_toString_inj in E. lia.
Qed.

Lemma bounded_search (P : nat -> bool) (n : nat) :
  (forall j, (1 <= j <= n)%nat -> P j = true) \/ (exists j, (1 <= j <= n)%nat /\ P j = false).
Proof.
  induction n as [ | n [IH | [j [Hj Hf]]]].
  - left. intros j Hj. lia.
  - destruct (P (S n)) eqn:Hn.
    + left. intros j Hj. destruct (Nat.eq_dec j (S n)) as [-> | Hne]; [exact Hn | apply IH; lia].
    + right. exists (S n). split; [lia | exact Hn].
  - right. exists j. split; [lia | exact Hf].
Qed.

Lemma some_candidate_free :
  exists j, (1 <= j <= S (List.length fs))%nat /\ taken j = false.
Proof.
  destruct (bounded_search taken (S (List.length fs))) as [Hall | Hex]; [ | exact Hex].
  exfalso.
  set (paths := map (fun k => join [directory; candidate k]) (seq 1 (S (List.length fs)))).
  assert (Hnd : NoDup paths).
  { unfold paths. apply Finite.Injective_map_NoDup_in; [ | apply seq_NoDup].
    intros j k Hj Hk E. apply in_seq in Hj. apply in_seq in Hk.
    apply join_injective in E. apply candidate_injective in E; [exact E | lia | lia]. }
  assert (Hincl : incl paths fs).
  { intros p Hp. unfold paths in Hp. apply in_map_iff in Hp. destruct Hp as [k [<- Hk]].
    apply in_seq in Hk. assert (Ht : taken k = true) by (apply Hall; lia).
    unfold taken, existsSync in Ht. apply existsb_exists in Ht.
    destruct Ht as [q [Hq E]]. apply String.eqb_eq in E. rewrite E. exact Hq. }
  pose proof (NoDup_incl_length Hnd Hincl) as Hlen.
  unfold paths in Hlen. rewrite length_map, length_seq in Hlen. lia.
Qed.

(** X13.  [ensureUniqueFilename] ends (after at most as many tries as
    there are files, and two) with a name under which nothing exists in
    the directory: the name itself when it is free, and otherwise
    [base-k.ext] for the least [k >= 1] that is free. *)
Theorem ensureUniqueFilename_fresh :
  exists j,
    (forall fuel, (List.length fs + 2 <= fuel)%nat ->
       ensureUniqueFilename join extname basename fuel filename directory fs
       = Some (candidate j)) /\
    existsSync fs (join [directory; candidate j]) = false /\
    (forall k, (k < j)%nat -> existsSync fs (join [directory; candidate k]) = true).
Proof.
  destruct some_candidate_free as [j0 [Hj0 Hfree0]].
  assert (Hfirst : exists j, (0 <= j < 0 + (List.length fs + 2))%nat /\ taken j = false).
  { exists j0. split; [lia | exact Hfree0]. }
  destruct (unique_loop_spec (List.length fs + 2) 0 Hfirst) as [j [Hj [Hfree [Hmin Hloop]]]].
  exists j. split; [ | split; [exact Hfree | intros k Hk; apply Hmin; lia]].
  intros fuel Hfuel.
  assert (Hagain : exists j', (0 <= j' < 0 + fuel)%nat /\ taken j' = false).
  { exists j. split; [lia | exact Hfree]. }
  destruct (unique_loop_spec fuel 0 Hagain) as [j' [Hj' [Hfree' [Hmin' Hloop']]]].
  assert (E : j' = j).
  { destruct (Nat.lt_trichotomy j' j) as [Hlt | [E | Hgt]]; [ | exact E | ].
    - rewrite (Hmin j') in Hfree' by lia. discriminate Hfree'.
    - rewrite (Hmin' j) in Hfree by lia. discriminate Hfree. }
  subst j'. exact Hloop'.
Qed.

End Unique.

(** A directory with two captures of the same second. *)
Definition slash_join (parts : list string) : string := JS.join "/" parts.

Definition png_extname (_ : string) : string := ".png".

Definition strip_png (name _ : string) : string :=
  substring 0 (String.length name - 4) name.

Lemma ensureUniqueFilename_fresh_witness :
  let fs := ["/shots/capture.png"; "/shots/capture-1.png"] in
  exists j,
    (forall fuel, (List.length fs + 2 <= fuel)%nat ->
       ensureUniqueFilename slash_join png_extname strip_png fuel "capture.png" "/shots" fs
       = Some (candidate png_extname strip_png "capture.png" j)) /\
    existsSync fs (slash_join ["/shots"; candidate png_extname strip_png "capture.png" j]) = false /\
    (forall k, (k < j)%nat ->
       existsSync fs (slash_join ["/shots"; candidate png_extname strip_png "capture.png" k]) = true).
Proof.
  apply (ensureUniqueFilename_fresh slash_join png_extname strip_png "/shots" "capture.png"
           ["/shots/capture.png"; "/shots/capture-1.png"]).
  intros a b E. cbn in E. inversion E. reflexivity.
Defined.

End FileNameTheory.

(* ================================================================== *)
(** * Properties of the screenshot handlers *)
(* ================================================================== *)

Module HandlerTheory.
Import JS JSFacts DatabaseManager Main.

Local Open Scope Z_scope.

(** ** Pages *)

Lemma firstn_add_skipn {A : Type} (a b : nat) (l : list A) :
  firstn (a + b) l = (firstn a l ++ firstn b (skipn a l))%list.
Proof.
  revert l. induction a as [ | a IH]; intros l; [reflexivity | ].
  destruct l as [ | x l]; cbn [Nat.add firstn skipn app].
  - rewrite firstn_nil. reflexivity.
  - rewrite IH. reflexivity.
Qed.

Lemma page_rows (app : App) (page : nat) (limit : Z) :
  0 < limit ->
  get_all_screenshots (Z.of_nat page) limit app
  = firstn (Z.to_nat limit)
      (skipn (page * Z.to_nat limit) (getAllScreenshots (database app))).
Proof.
  intros Hl. unfold get_all_screenshots, getAllScreenshots_limit, truthy_num, getAllScreenshots.
  destruct (Z.eqb_spec limit 0) as [E | _]; [lia | ].
  unfold sql_limit, sql_offset.
  destruct (Z.ltb_spec limit 0) as [Hneg | _]; [lia | ].
  destruct (Z.eqb_spec (Z.of_nat page * limit) 0) as [E | Hne].
  - assert (page = 0%nat) by nia. subst page. reflexivity.
  - f_equal. f_equal. nia.
Qed.

(** X14.  With a positive [limit], the pages 0, 1, ..., n-1 of
    [get-all-screenshots] put one after the other are the first
    [n * limit] screenshots, newest first: no row is skipped and none comes
    twice; each page has at most [limit] rows.  With [limit] 0 every page
    is the whole table. *)
Theorem get_all_screenshots_pages (app : App) (limit : Z) (n : nat) :
  0 < limit ->
  List.concat (map (fun page => get_all_screenshots (Z.of_nat page) limit app) (seq 0 n))
  = firstn (n * Z.to_nat limit) (getAllScreenshots (database app)) /\
  (forall page, (List.length (get_all_screenshots (Z.of_nat page) limit app)
                 <= Z.to_nat limit)%nat) /\
  (forall page, get_all_screenshots page 0 app = getAllScreenshots (database app)).
Proof.
  intros Hl. split; [ | split].
  - induction n as [ | n IH]; [reflexivity | ].
    rewrite seq_S, map_app, concat_app, IH. cbn [map List.concat Nat.add].
    rewrite app_nil_r, (page_rows app n limit Hl).
    replace (S n * Z.to_nat limit)%nat with (n * Z.to_nat limit + Z.to_nat limit)%nat by lia.
    symmetry. apply firstn_add_skipn.
  - intros page. rewrite (page_rows app page limit Hl). apply firstn_le_length.
  - intros page. reflexivity.
Qed.

(** Five screenshots, read two at a time. *)
Definition five_shots : App :=
  {| database := SmartFolderTheory.table
                   [SmartFolderTheory.shot "a" 1000; SmartFolderTheory.shot "b" 5000;
                    SmartFolderTheory.shot "c" 3000; SmartFolderTheory.shot "d" 2000;
                    SmartFolderTheory.shot "e" 4000];
     search_index := [];
     files := [];
     embeddingService := None;
     inference_calls := [] |}.

Lemma get_all_screenshots_pages_witness :
  List.concat (map (fun page => get_all_screenshots (Z.of_nat page) 2 five_shots) (seq 0 3))
  = firstn (3 * Z.to_nat 2) (getAllScreenshots (database five_shots)) /\
  (forall page, (List.length (get_all_screenshots (Z.of_nat page) 2 five_shots)
                 <= Z.to_nat 2)%nat) /\
  (forall page, get_all_screenshots page 0 five_shots = getAllScreenshots (database five_shots)).
Proof.
  apply (get_all_screenshots_pages five_shots 2 3). reflexivity.
Defined.

Example get_all_screenshots_example :
  map id (get_all_screenshots 0 2 five_shots) = ["b"; "e"]%string /\
  map id (get_all_screenshots 1 2 five_shots) = ["c"; "d"]%string /\
  map id (get_all_screenshots 2 2 five_shots) = ["a"]%string /\
  map id (get_all_screenshots 7 0 five_shots) = ["b"; "e"; "c"; "d"; "a"]%string.
Proof. repeat split. Qed.

(** ** Favourites *)

Lemma getScreenshot_map (f : Screenshot -> Screenshot) (rows : list Screenshot) (j : string) :
  (forall s, id (f s) = id s) ->
  find (fun s => String.eqb (id s) j) (map f rows)
  = option_map f (find (fun s => String.eqb (id s) j) rows).
Proof.
  intros Hid. induction rows as [ | s rows IH]; [reflexivity | ].
  cbn [map find]. rewrite Hid. destruct (String.eqb (id s) j); [reflexivity | exact IH].
Qed.

(** X15.  [toggle-favorite] on a screenshot of the table never throws and
    answers [true]; afterwards the row reads the opposite [is_favorite],
    with [updated_at] set to now and nothing else changed; the other rows
    are as they were; and a second call puts [is_favorite] back.  For an
    identifier without row the answer is [false] and nothing changes. *)
Theorem toggle_favorite_spec (now : Z) (i : string) (app : App) :
  match getScreenshot (database app) i with
  | None => toggle_favorite now i app = (Normal false, app)
  | Some s =>
      exists app1 app2 s1 s2,
        toggle_favorite now i app = (Normal true, app1) /\
        toggle_favorite now i app1 = (Normal true, app2) /\
        getScreenshot (database app1) i = Some s1 /\
        getScreenshot (database app2) i = Some s2 /\
        s1 = {| id := id s; filepath := filepath s; filename := filename s;
                created_at := created_at s; updated_at := now; file_size := file_size s;
                format := format s; is_favorite := negb (is_favorite s) |} /\
        is_favorite s2 = is_favorite s /\
        (forall j, j <> i ->
           getScreenshot (database app1) j = getScreenshot (database app) j) /\
        map id (screenshots (database app1)) = map id (screenshots (database app)) /\
        search_index app1 = search_index app /\ files app1 = files app /\
        embeddingService app1 = embeddingService app
  end.
Proof.
  destruct (getScreenshot (database app) i) as [s | ] eqn:Hget.
  - set (flip := fun (b : bool) (r : Screenshot) =>
                   if String.eqb (id r) i
                   then apply_updates now
                          {| set_filepath := None; set_filename := None;
                             set_is_favorite := Some b |} r
                   else r).
    assert (Hflip_id : forall b r, id (flip b r) = id r).
    { intros b r. unfold flip. destruct (String.eqb (id r) i); reflexivity. }
    assert (Hstep : forall app0 s0,
               getScreenshot (database app0) i = Some s0 ->
               toggle_favorite now i app0
               = (Normal true,
                  with_database app0
                    (with_screenshots (database app0)
                       (map (flip (negb (is_favorite s0))) (screenshots (database app0)))))).
    { intros app0 s0 H0. unfold toggle_favorite, updateScreenshot. rewrite H0.
      cbn [no_fields set_filepath set_filename set_is_favorite filepath_taken]. reflexivity. }
    assert (Hafter : forall app0 s0 b,
               getScreenshot (database app0) i = Some s0 ->
               getScreenshot
                 (with_screenshots (database app0) (map (flip b) (screenshots (database app0)))) i
               = Some (flip b s0)).
    { intros app0 s0 b H0. unfold getScreenshot in *. cbn [screenshots with_screenshots].
      rewrite (getScreenshot_map (flip b) _ i (Hflip_id b)), H0. reflexivity. }
    pose proof (HybridSearchTheory.getScreenshot_id _ _ _ Hget) as Hid.
    assert (Hs1 : flip (negb (is_favorite s)) s
                  = {| id := id s; filepath := filepath s; filename := filename s;
                       created_at := created_at s; updated_at := now;
                       file_size := file_size s; format := format s;
                       is_favorite := negb (is_favorite s) |}).
    { unfold flip.
      replace (String.eqb (id s) i) with true by (symmetry; apply String.eqb_eq; exact Hid).
      reflexivity. }
    set (app1 := with_database app
                   (with_screenshots (database app)
                      (map (flip (negb (is_favorite s))) (screenshots (database app))))).
    assert (Hget1 : getScreenshot (database app1) i = Some (flip (negb (is_favorite s)) s)).
    { apply (Hafter app s _ Hget). }
    exists app1. eexists _, _, _.
    split; [apply (Hstep app s Hget) | ].
    split; [apply (Hstep app1 _ Hget1) | ].
    split; [exact Hget1 | ].
    split.
    { cbn [database with_database]. apply (Hafter app1 _ _ Hget1). }
    split; [exact Hs1 | ].
    split.
    { rewrite Hs1. unfold flip. cbn [id is_favorite]. rewrite Hid, String.eqb_refl.
      cbn. apply negb_involutive. }
    split.
    { intros j Hj. unfold app1, getScreenshot. cbn [database with_database screenshots with_screenshots].
      rewrite (getScreenshot_map _ _ j (Hflip_id _)).
      destruct (find (fun r => String.eqb (id r) j) (screenshots (database app)))
        as [r | ] eqn:Hr; [ | reflexivity].
      cbn [option_map]. apply find_some in Hr. destruct Hr as [_ Hr].
      apply String.eqb_eq in Hr. unfold flip.
      destruct (String.eqb_spec (id r) i) as [E | _]; [congruence | reflexivity]. }
    split.
    { unfold app1. cbn [database with_database screenshots with_screenshots]. rewrite map_map.
      apply map_ext. intros r. apply Hflip_id. }
    repeat split.
  - unfold toggle_favorite. rewrite Hget. reflexivity.
Qed.

End HandlerTheory.

(* ================================================================== *)
(** * Properties of the processing of a screenshot *)
(* ================================================================== *)

Module ProcessTheory.
Import JS JSFacts.

Local Open Scope string_scope.

(** ** The pipeline *)

Section Pipeline.

Variable readFileSync : string -> completion AIProcessor.Image.
Variable ExtractAllText : AIProcessor.Image -> completion AIProcessor.OcrAnswer.
Variable GenerateScreenshotTitle : AIProcessor.Image -> string -> completion string.
Variable AnalyzeScreenshotContentDetailed : AIProcessor.Image -> string -> completion string.
Variable AnalyzeScreenshotContent :
  AIProcessor.Image -> completion AIProcessor.ContentAnalysis.
Variable GenerateComprehensiveDescription :
  AIProcessor.Image -> string -> option string -> option (list string) -> completion string.
Variable generateTitleHeuristic : string -> string.
Variable describeHeuristic : string -> string.
Variable frequentWords : string -> list string.

Abbreviation extractText := (AIProcessor.extractText ExtractAllText).
Abbreviation generateTitle :=
  (AIProcessor.generateTitle GenerateScreenshotTitle generateTitleHeuristic).
Abbreviation generateDescription :=
  (AIProcessor.generateDescription AnalyzeScreenshotContentDetailed describeHeuristic).
Abbreviation extractKeywords := (AIProcessor.extractKeywords frequentWords).
Abbreviation generateComprehensiveDescription :=
  (AIProcessor.generateComprehensiveDescription GenerateComprehensiveDescription).
Abbreviation doProcessScreenshot :=
  (AIProcessor.doProcessScreenshot readFileSync ExtractAllText GenerateScreenshotTitle
     AnalyzeScreenshotContentDetailed AnalyzeScreenshotContent
     GenerateComprehensiveDescription generateTitleHeuristic describeHeuristic frequentWords).

(** The stages that absorb their errors. *)
Lemma generateTitle_total (img : AIProcessor.Image) (t : string)
    (cs : list AIProcessor.RemoteCall) :
  exists title,
    generateTitle img t cs
    = (Normal title, (cs ++ [AIProcessor.CallGenerateScreenshotTitle img t])%list).
Proof.
  unfold AIProcessor.generateTitle.
  destruct (GenerateScreenshotTitle img t) as [x | e]; [ | eauto].
  destruct (negb (String.length x =? 0)%nat); eauto.
Qed.

Lemma generateDescription_total (img : AIProcessor.Image) (t : string)
    (cs : list AIProcessor.RemoteCall) :
  exists description,
    generateDescription img t cs
    = (Normal description,
       (cs ++ [AIProcessor.CallAnalyzeScreenshotContentDetailed img t])%list).
Proof.
  unfold AIProcessor.generateDescription.
  destruct (AnalyzeScreenshotContentDetailed img t) as [x | e]; [ | eauto].
  destruct (negb (String.length x =? 0)%nat); eauto.
Qed.

Lemma extractKeywords_total (t : string) (cs : list AIProcessor.RemoteCall) :
  exists kws, extractKeywords t cs = (Normal kws, cs).
Proof.
  unfold AIProcessor.extractKeywords. destruct (blank t); unfold AIProcessor.ret; eauto.
Qed.

Lemma length_append_pos (a b : string) :
  (0 < String.length a)%nat -> (0 < String.length (a ++ b))%nat.
Proof. destruct a; cbn; intros H; lia. Qed.

Lemma title_or_default_pos (title : string) :
  (0 < String.length (AIProcessor.title_or_default title))%nat.
Proof.
  unfold AIProcessor.title_or_default.
  destruct (Nat.eqb_spec (String.length title) 0) as [E | Hne]; [cbn; lia | lia].
Qed.

(** The comprehensive description of the pipeline is never empty. *)
Lemma pipeline_description_total (img : AIProcessor.Image) (t title : string)
    (kws : list string) (cs : list AIProcessor.RemoteCall) :
  exists d,
    generateComprehensiveDescription img t title kws cs
    = (Normal d,
       (cs ++ [AIProcessor.CallGenerateComprehensiveDescription img t
                 (or_null (Some title)) (Some kws)])%list)
    /\ (0 < String.length d)%nat.
Proof.
  unfold AIProcessor.generateComprehensiveDescription.
  destruct (GenerateComprehensiveDescription img t (or_null (Some title)) (Some kws))
    as [x | e].
  - destruct (Nat.eqb_spec (String.length x) 0) as [E | Hne]; cbn [negb].
    + eexists. split; [reflexivity | ].
      destruct kws as [ | k kws];
        destruct (String.length t =? 0)%nat;
        repeat apply length_append_pos; apply title_or_default_pos.
    + eexists. split; [reflexivity | lia].
  - eexists. split; [reflexivity | ].
    destruct (String.length t =? 0)%nat;
      repeat apply length_append_pos; apply title_or_default_pos.
Qed.

Lemma not_blank_condition (t : string) :
  negb (String.length t =? 0)%nat && negb (String.length (trim t) =? 0)%nat = negb (blank t).
Proof. unfold blank. rewrite negb_orb. reflexivity. Qed.

(** What the pipeline answers, by the branch it takes. *)
Lemma doProcessScreenshot_cases (imagePath : string) (cs : list AIProcessor.RemoteCall) :
  match readFileSync imagePath with
  | Throw e => doProcessScreenshot imagePath cs = (Throw e, cs)
  | Normal img =>
      exists r,
        extractText img cs = (Normal r, (cs ++ [AIProcessor.CallExtractAllText img])%list) /\
        if blank (AIProcessor.text r) then
          exists a,
            doProcessScreenshot imagePath cs
            = (Normal a, (cs ++ [AIProcessor.CallExtractAllText img])%list) /\
            AIProcessor.ocr_text a = Some (AIProcessor.text r) /\
            AIProcessor.ai_title a = None /\
            AIProcessor.comprehensive_description a = None
        else
          match AnalyzeScreenshotContent img with
          | Throw e => fst (doProcessScreenshot imagePath cs) = Throw e
          | Normal _ =>
              exists a cs' title description kws d,
                doProcessScreenshot imagePath cs = (Normal a, cs') /\
                List.length cs' = (List.length cs + 5)%nat /\
                AIProcessor.ocr_text a = Some (AIProcessor.text r) /\
                AIProcessor.ai_title a = Some title /\
                AIProcessor.ai_description a = Some description /\
                AIProcessor.ai_keywords a = Some kws /\
                AIProcessor.comprehensive_description a = Some d /\
                (0 < String.length d)%nat
          end
  end.
Proof.
  unfold AIProcessor.doProcessScreenshot, AIProcessor.bind.
  destruct (readFileSync imagePath) as [img | e]; [ | reflexivity].
  destruct (PipelineTheory.extractText_total ExtractAllText img cs) as [r Hr].
  exists r. split; [exact Hr | ]. rewrite Hr, not_blank_condition.
  destruct (blank (AIProcessor.text r)); cbn [negb].
  - eexists. split; [reflexivity | ]. repeat split.
  - set (cs1 := (cs ++ [AIProcessor.CallExtractAllText img])%list).
    destruct (generateTitle_total img (AIProcessor.text r) cs1) as [title Ht]. rewrite Ht.
    set (cs2 := (cs1 ++ [AIProcessor.CallGenerateScreenshotTitle img (AIProcessor.text r)])%list).
    destruct (generateDescription_total img (AIProcessor.text r) cs2) as [description Hd].
    rewrite Hd.
    set (cs3 := (cs2 ++ [AIProcessor.CallAnalyzeScreenshotContentDetailed img
                           (AIProcessor.text r)])%list).
    destruct (extractKeywords_total (AIProcessor.text r) cs3) as [kws Hk]. rewrite Hk.
    unfold AIProcessor.call.
    destruct (AnalyzeScreenshotContent img) as [analysis | e]; [ | reflexivity].
    set (cs4 := (cs3 ++ [AIProcessor.CallAnalyzeScreenshotContent img])%list).
    destruct (pipeline_description_total img (AIProcessor.text r) title kws cs4)
      as [d [Hc Hpos]].
    rewrite Hc. unfold AIProcessor.ret.
    eexists _, _, title, description, kws, d.
    split; [reflexivity | ].
    split; [unfold cs4, cs3, cs2, cs1; rewrite !length_app; cbn; lia | ].
    repeat split. exact Hpos.
Qed.

(** X16.  The pipeline rejects in two cases only: the image cannot be
    read, or the text is not blank and the content-analysis call fails.
    A failing OCR, title, description or comprehensive-description call
    never makes it reject. *)
Theorem doProcessScreenshot_rejects_iff (imagePath : string) (cs : list AIProcessor.RemoteCall) :
  is_throw (fst (doProcessScreenshot imagePath cs)) = true <->
  (exists e, readFileSync imagePath = Throw e) \/
  (exists img r e,
     readFileSync imagePath = Normal img /\
     fst (extractText img cs) = Normal r /\
     blank (AIProcessor.text r) = false /\
     AnalyzeScreenshotContent img = Throw e).
Proof.
  pose proof (doProcessScreenshot_cases imagePath cs) as H.
  destruct (readFileSync imagePath) as [img | e].
  - destruct H as [r [Hr H]].
    destruct (blank (AIProcessor.text r)) eqn:Hb.
    + destruct H as [a [Ha _]]. rewrite Ha. cbn. split; [discriminate | ].
      intros [[e E] | [img' [r' [e [E [Hr' [Hb' _]]]]]]]; [discriminate E | ].
      inversion E; subst img'. rewrite Hr in Hr'. cbn in Hr'. inversion Hr'; subst r'.
      congruence.
    + destruct (AnalyzeScreenshotContent img) as [analysis | e] eqn:Ha.
      * destruct H as [a [cs' [title [description [kws [d [Hres _]]]]]]].
        rewrite Hres. cbn. split; [discriminate | ].
        intros [[e E] | [img' [r' [e [E [_ [_ Ht]]]]]]]; [discriminate E | ].
        inversion E; subst img'. rewrite Ha in Ht. discriminate Ht.
      * rewrite H. cbn. split; [ | reflexivity]. intros _. right.
        exists img, r, e. rewrite Hr. cbn. auto.
  - rewrite H. cbn. split; [ | reflexivity]. intros _. left. exists e. reflexivity.
Qed.

End Pipeline.

End ProcessTheory.

(* ================================================================== *)
(** * Properties of the main process *)
(* ================================================================== *)

Module MainProcessTheory.
Import JS JSFacts TextFacts FileNameTheory Main.

Local Open Scope string_scope.

(** ** Reading the tables *)

Lemma getScreenshot_deleted (rows : list DatabaseManager.Screenshot) (i : string) :
  find (fun s => String.eqb (DatabaseManager.id s) i)
       (filter (fun s => negb (String.eqb (DatabaseManager.id s) i)) rows) = None.
Proof.
  induction rows as [ | s rows IH]; [reflexivity | ].
  cbn [filter]. destruct (String.eqb (DatabaseManager.id s) i) eqn:E; cbn [negb]; [exact IH | ].
  cbn [find]. rewrite E. exact IH.
Qed.

Lemma getScreenshot_kept (rows : list DatabaseManager.Screenshot) (i j : string) :
  j <> i ->
  find (fun s => String.eqb (DatabaseManager.id s) j)
       (filter (fun s => negb (String.eqb (DatabaseManager.id s) i)) rows)
  = find (fun s => String.eqb (DatabaseManager.id s) j) rows.
Proof.
  intros Hji. induction rows as [ | s rows IH]; [reflexivity | ].
  cbn [filter find].
  destruct (String.eqb_spec (DatabaseManager.id s) i) as [Ei | Hi]; cbn [negb].
  - destruct (String.eqb_spec (DatabaseManager.id s) j) as [Ej | _]; [congruence | exact IH].
  - cbn [find]. destruct (String.eqb (DatabaseManager.id s) j); [reflexivity | exact IH].
Qed.

Lemma Map_get_app_fresh {V : Type} (m : Map V) (k j : string) (v : V) :
  Map_get (Map_delete m k ++ [(k, v)])%list j
  = if String.eqb j k then Some v else Map_get m j.
Proof.
  unfold Map_delete. induction m as [ | [k' v'] m IH]; cbn [filter app Map_get fst].
  - destruct (String.eqb j k); reflexivity.
  - destruct (String.eqb_spec k k') as [<- | Hkk]; cbn [negb].
    + rewrite IH. destruct (String.eqb j k); reflexivity.
    + cbn [app Map_get]. rewrite IH.
      destruct (String.eqb_spec j k') as [-> | _]; [ | reflexivity].
      destruct (String.eqb_spec k' k) as [E | _]; [congruence | reflexivity].
Qed.

Lemma Map_has_filter_out {V : Type} (keep : string * V -> bool) (m : Map V) (k : string) :
  (forall v, In (k, v) m -> keep (k, v) = false) ->
  Map_has (filter keep m) k = false.
Proof.
  intros H. apply Map_has_false. unfold Map_keys. intros Hin.
  apply in_map_iff in Hin. destruct Hin as [[k' v] [E Hin]]. cbn in E. subst k'.
  apply filter_In in Hin. destruct Hin as [Hin Hkeep].
  rewrite (H v Hin) in Hkeep. discriminate Hkeep.
Qed.

(** ** Deleting files *)

Lemma existsSync_deleteFile (unlink_fails : string -> bool) (q p : string)
    (fs : FileSystemManager.Files) :
  FileSystemManager.existsSync fs p = false ->
  FileSystemManager.existsSync (snd (FileSystemManager.deleteFile unlink_fails q fs)) p = false.
Proof.
  intros H. unfold FileSystemManager.deleteFile.
  destruct (FileSystemManager.existsSync fs q); [ | exact H].
  destruct (unlink_fails q); [exact H | ].
  cbn [snd]. rewrite existsSync_unlinkSync, H. reflexivity.
Qed.

Lemma deleteFile_gone (unlink_fails : string -> bool) (p : string)
    (fs : FileSystemManager.Files) :
  unlink_fails p = false ->
  FileSystemManager.existsSync (snd (FileSystemManager.deleteFile unlink_fails p fs)) p = false.
Proof.
  intros H. unfold FileSystemManager.deleteFile.
  destruct (FileSystemManager.existsSync fs p) eqn:E; [ | exact E].
  rewrite H. cbn [snd]. rewrite existsSync_unlinkSync, String.eqb_refl. apply andb_false_r.
Qed.

Lemma deleteScreenshotFiles_gone (join : list string -> string) (thumbnailsDir : string)
    (unlink_fails : string -> bool) (i p : string) (fs : FileSystemManager.Files) :
  unlink_fails p = false ->
  FileSystemManager.existsSync
    (FileSystemManager.deleteScreenshotFiles join thumbnailsDir unlink_fails i p fs) p = false.
Proof.
  intros H. unfold FileSystemManager.deleteScreenshotFiles.
  pose proof (deleteFile_gone unlink_fails p fs H) as Hgone.
  revert Hgone. generalize (snd (FileSystemManager.deleteFile unlink_fails p fs)).
  induction FileSystemManager.thumbnailSizes as [ | size sizes IH]; intros fs0 H0; [exact H0 | ].
  cbn [fold_left]. apply IH. apply existsSync_deleteFile. exact H0.
Qed.

(** ** The purge after a restart *)

Lemma purge_loaded_record
    (now : Z) (existsSync : string -> OpenAIEmbeddingService.FsCheck)
    (w1 : OpenAIEmbeddingService.World) (f : OpenAIEmbeddingService.StoreFile) (i : string) :
  OpenAIEmbeddingService.file w1 = Some f ->
  (forall it, In (i, it) (OpenAIEmbeddingService.file_items f) ->
              OpenAIEmbeddingService.stale existsSync it = true) ->
  let w2 := snd (OpenAIEmbeddingService.purgeStaleEmbeddings now existsSync None
                   (OpenAIEmbeddingService.restart w1)) in
  Map_has (OpenAIEmbeddingService.items w2) i = false /\
  exists f2, OpenAIEmbeddingService.file w2 = Some f2 /\
             Map_has (OpenAIEmbeddingService.file_items f2) i = false.
Proof.
  intros Hfile Hstale.
  assert (Hkept : Map_has (filter (fun kv => negb (OpenAIEmbeddingService.stale existsSync
                                                     (snd kv)))
                             (OpenAIEmbeddingService.file_items f)) i = false).
  { apply Map_has_filter_out. intros it Hin. cbn [snd]. rewrite (Hstale it Hin). reflexivity. }
  unfold OpenAIEmbeddingService.purgeStaleEmbeddings, OpenAIEmbeddingService.restart, Map_size.
  cbn [OpenAIEmbeddingService.items OpenAIEmbeddingService.file
         OpenAIEmbeddingService.with_items].
  rewrite Hfile.
  rewrite (EmbeddingStoreTheory.filter_length_existsb
             (fun kv => OpenAIEmbeddingService.stale existsSync (snd kv))
             (OpenAIEmbeddingService.file_items f)).
  destruct (existsb (fun kv => OpenAIEmbeddingService.stale existsSync (snd kv))
              (OpenAIEmbeddingService.file_items f)) eqn:Hany.
  - cbn. split; [exact Hkept | ]. eexists. split; [reflexivity | exact Hkept].
  - cbn. split; [exact Hkept | ]. exists f. split; [reflexivity | ].
    apply Map_has_false. unfold Map_keys. intros Hin.
    apply in_map_iff in Hin. destruct Hin as [[k it] [E Hin]]. cbn in E. subst k.
    assert (Hex : existsb (fun kv => OpenAIEmbeddingService.stale existsSync (snd kv))
                    (OpenAIEmbeddingService.file_items f) = true).
    { apply existsb_exists. exists (i, it). split; [exact Hin | apply Hstale; exact Hin]. }
    congruence.
Qed.

(** X17.  [delete-screenshot] on a screenshot of the table answers [true];
    afterwards the table has no row for it, its file is gone and the map
    of the embedding service has no record for it, while the store file
    still has.  When the application starts again, the service loads the
    store file and [purgeStaleEmbeddings], which
    [createEmbeddingsForExistingScreenshots] runs first, removes the
    record from the map and from the file, because the file it points to
    no longer exists. *)
Theorem delete_screenshot_then_restart
    (foreign_keys : bool) (now : Z) (join : list string -> string) (thumbnailsDir : string)
    (unlink_fails : string -> bool)
    (i : string) (app : App) (s : DatabaseManager.Screenshot)
    (w : OpenAIEmbeddingService.World) (f : OpenAIEmbeddingService.StoreFile) :
  DatabaseManager.getScreenshot (database app) i = Some s ->
  embeddingService app = Some w ->
  OpenAIEmbeddingService.file w = Some f ->
  (forall it, In (i, it) (OpenAIEmbeddingService.file_items f) ->
              OpenAIEmbeddingService.path it = DatabaseManager.filepath s) ->
  DatabaseManager.filepath s <> "" ->
  unlink_fails (DatabaseManager.filepath s) = false ->
  let answer := delete_screenshot foreign_keys join thumbnailsDir unlink_fails i app in
  let app1 := snd answer in
  fst answer = true /\
  DatabaseManager.getScreenshot (database app1) i = None /\
  (forall j, j <> i ->
     DatabaseManager.getScreenshot (database app1) j
     = DatabaseManager.getScreenshot (database app) j) /\
  FileSystemManager.existsSync (files app1) (DatabaseManager.filepath s) = false /\
  exists w1,
    embeddingService app1 = Some w1 /\
    Map_has (OpenAIEmbeddingService.items w1) i = false /\
    OpenAIEmbeddingService.file w1 = Some f /\
    let w2 := snd (OpenAIEmbeddingService.purgeStaleEmbeddings now
                     (existsSync_check (files app1)) None
                     (OpenAIEmbeddingService.restart w1)) in
    Map_has (OpenAIEmbeddingService.items w2) i = false /\
    exists f2, OpenAIEmbeddingService.file w2 = Some f2 /\
               Map_has (OpenAIEmbeddingService.file_items f2) i = false.
Proof.
  intros Hget Hservice Hfile Hpath Hnonempty Hunlink answer app1.
  assert (Hanswer : answer
                    = (true,
                       {| database := snd (DatabaseManager.deleteScreenshot foreign_keys
                                             (database app) i);
                          search_index := if foreign_keys
                                          then Map_delete (search_index app) i
                                          else search_index app;
                          files := FileSystemManager.deleteScreenshotFiles join thumbnailsDir
                                     unlink_fails i (DatabaseManager.filepath s) (files app);
                          embeddingService :=
                            Some (snd (OpenAIEmbeddingService.removeItem i w));
                          inference_calls := inference_calls app |})).
  { unfold answer, delete_screenshot. rewrite Hget, Hservice.
    unfold DatabaseManager.deleteScreenshot. cbn [snd].
    replace (existsb (fun s0 => String.eqb (DatabaseManager.id s0) i)
               (DatabaseManager.screenshots (database app))) with true; [reflexivity | ].
    symmetry. apply existsb_exists. exists s.
    unfold DatabaseManager.getScreenshot in Hget. apply find_some in Hget. exact Hget. }
  unfold app1. rewrite Hanswer. cbn [fst snd database files embeddingService].
  split; [reflexivity | ].
  split; [apply getScreenshot_deleted | ].
  split; [intros j Hj; apply (getScreenshot_kept _ i j Hj) | ].
  pose proof (deleteScreenshotFiles_gone join thumbnailsDir unlink_fails i
                (DatabaseManager.filepath s) (files app) Hunlink) as Hgone.
  split; [exact Hgone | ].
  eexists. split; [reflexivity | ].
  cbn [OpenAIEmbeddingService.removeItem snd OpenAIEmbeddingService.items
         OpenAIEmbeddingService.with_items OpenAIEmbeddingService.file].
  split; [apply Map_delete_has | ]. split; [exact Hfile | ].
  apply (purge_loaded_record now _
           (OpenAIEmbeddingService.with_items w (Map_delete (OpenAIEmbeddingService.items w) i))
           f i); [exact Hfile | ].
  intros it Hin. unfold OpenAIEmbeddingService.stale. rewrite (Hpath it Hin).
  destruct (Nat.eqb_spec (String.length (DatabaseManager.filepath s)) 0) as [E | _].
  - destruct (DatabaseManager.filepath s); [contradiction | discriminate E].
  - unfold existsSync_check. rewrite Hgone. reflexivity.
Qed.

(** ** Processing a screenshot *)

Lemma getScreenshot_map_other (f : DatabaseManager.Screenshot -> DatabaseManager.Screenshot)
    (rows : list DatabaseManager.Screenshot) (i j : string) :
  (forall r, DatabaseManager.id (f r) = DatabaseManager.id r) ->
  (forall r, DatabaseManager.id r <> i -> f r = r) ->
  j <> i ->
  find (fun r => String.eqb (DatabaseManager.id r) j) (map f rows)
  = find (fun r => String.eqb (DatabaseManager.id r) j) rows.
Proof.
  intros Hid Hother Hji. rewrite (HandlerTheory.getScreenshot_map f rows j Hid).
  destruct (find (fun r => String.eqb (DatabaseManager.id r) j) rows) as [r | ] eqn:Hr;
    [ | reflexivity].
  cbn [option_map]. apply find_some in Hr. destruct Hr as [_ Hr].
  apply String.eqb_eq in Hr. rewrite Hother; [reflexivity | congruence].
Qed.

Lemma before_first_forallb (Q : ascii -> bool) (sep : ascii) (l : list ascii) :
  forallb Q l = true -> forallb Q (Text.before_first sep l) = true.
Proof.
  induction l as [ | c l IH]; cbn [Text.before_first forallb]; [reflexivity | ].
  intros H. apply andb_true_iff in H. destruct H as [Hc Hl].
  destruct (Ascii.eqb c sep); [reflexivity | ].
  cbn [forallb]. rewrite Hc, (IH Hl). reflexivity.
Qed.

Section Process.

Variable readFileSync : string -> completion AIProcessor.Image.
Variable ExtractAllText : AIProcessor.Image -> completion AIProcessor.OcrAnswer.
Variable GenerateScreenshotTitle : AIProcessor.Image -> string -> completion string.
Variable AnalyzeScreenshotContentDetailed : AIProcessor.Image -> string -> completion string.
Variable AnalyzeScreenshotContent :
  AIProcessor.Image -> completion AIProcessor.ContentAnalysis.
Variable GenerateComprehensiveDescription :
  AIProcessor.Image -> string -> option string -> option (list string) -> completion string.
Variable generateTitleHeuristic : string -> string.
Variable describeHeuristic : string -> string.
Variable frequentWords : string -> list string.
Variable apiKey : string.
Variable write_failure : option Error.
Variable fetch_embeddings : string -> OpenAIEmbeddingService.FetchOutcome.
Variable foreign_keys : bool.
Variable stringify : list string -> string.
Variable now : Z.
Variable toISOString : string.

Abbreviation processScreenshot :=
  (Main.processScreenshot readFileSync ExtractAllText GenerateScreenshotTitle
     AnalyzeScreenshotContentDetailed AnalyzeScreenshotContent GenerateComprehensiveDescription
     generateTitleHeuristic describeHeuristic frequentWords).

Abbreviation processScreenshotWithAI :=
  (Main.processScreenshotWithAI readFileSync ExtractAllText GenerateScreenshotTitle
     AnalyzeScreenshotContentDetailed AnalyzeScreenshotContent GenerateComprehensiveDescription
     generateTitleHeuristic describeHeuristic frequentWords
     apiKey write_failure fetch_embeddings foreign_keys stringify now toISOString).

Abbreviation pipeline_cases :=
  (ProcessTheory.doProcessScreenshot_cases readFileSync ExtractAllText GenerateScreenshotTitle
     AnalyzeScreenshotContentDetailed AnalyzeScreenshotContent GenerateComprehensiveDescription
     generateTitleHeuristic describeHeuristic frequentWords).

(** X18.  When the pipeline rejects, or when the OCR stage yields the
    empty text (the call failed, or answered nothing usable),
    [processScreenshotWithAI] stores nothing: no metadata row, no entry of
    the search index, no embedding, and no file or row is touched. *)
Theorem processScreenshotWithAI_nothing_stored (screenshotId imagePath : string) (app : App) :
  is_throw (fst (processScreenshot imagePath (inference_calls app))) = true \/
  (exists img c,
     readFileSync imagePath = Normal img /\
     fst (AIProcessor.extractText ExtractAllText img (inference_calls app))
     = Normal {| AIProcessor.text := ""; AIProcessor.confidence := c |}) ->
  let app' := processScreenshotWithAI screenshotId imagePath app in
  database app' = database app /\
  search_index app' = search_index app /\
  files app' = files app /\
  embeddingService app' = embeddingService app.
Proof.
  intros H app'. unfold app', Main.processScreenshotWithAI.
  destruct H as [Hthrow | [img [c [Hread Hocr]]]].
  - destruct (processScreenshot imagePath (inference_calls app)) as [[a | e] cs];
      [discriminate Hthrow | repeat split].
  - pose proof (pipeline_cases imagePath (inference_calls app)) as Hc.
    rewrite Hread in Hc. destruct Hc as [r [Hr Hc]].
    rewrite Hr in Hocr. cbn [fst] in Hocr. inversion Hocr; subst r. clear Hocr.
    assert (Hb : blank (AIProcessor.text {| AIProcessor.text := "";
                                             AIProcessor.confidence := c |}) = true)
      by reflexivity.
    rewrite Hb in Hc. destruct Hc as [a [Ha [Hocr_a [Htitle _]]]].
    unfold Main.processScreenshot. rewrite Ha, Hocr_a, Htitle. cbn. repeat split.
Qed.

(** What the automatic renaming does to the table. *)
Definition renamed_at_most
    (screenshotId : string) (s : DatabaseManager.Screenshot)
    (db db' : DatabaseManager.Database) : Prop :=
  DatabaseManager.screenshot_metadata db' = DatabaseManager.screenshot_metadata db /\
  DatabaseManager.screenshot_tags db' = DatabaseManager.screenshot_tags db /\
  (forall j, j <> screenshotId ->
     DatabaseManager.getScreenshot db' j = DatabaseManager.getScreenshot db j) /\
  exists s',
    DatabaseManager.getScreenshot db' screenshotId = Some s' /\
    DatabaseManager.filepath s' = DatabaseManager.filepath s /\
    DatabaseManager.created_at s' = DatabaseManager.created_at s /\
    DatabaseManager.is_favorite s' = DatabaseManager.is_favorite s /\
    (s' = s \/
     isDefaultScreenshotName (DatabaseManager.filename s) = true /\
     isDefaultScreenshotName (DatabaseManager.filename s') = false).

Lemma renamed_at_most_refl
    (screenshotId : string) (s : DatabaseManager.Screenshot) (db : DatabaseManager.Database) :
  DatabaseManager.getScreenshot db screenshotId = Some s ->
  renamed_at_most screenshotId s db db.
Proof.
  intros Hget. unfold renamed_at_most.
  split; [reflexivity | ]. split; [reflexivity | ]. split; [reflexivity | ].
  exists s. split; [exact Hget | ]. split; [reflexivity | ]. split; [reflexivity | ].
  split; [reflexivity | left; reflexivity].
Qed.

Lemma autoRename_effect (screenshotId : string) (a : AIProcessor.AIAnalysisResult)
    (db : DatabaseManager.Database) (s : DatabaseManager.Screenshot) :
  forallb no_white_space (list_ascii_of_string toISOString) = true ->
  DatabaseManager.getScreenshot db screenshotId = Some s ->
  renamed_at_most screenshotId s db (autoRename now toISOString screenshotId a db).
Proof.
  intros Hiso Hget.
  pose proof (renamed_at_most_refl screenshotId s db Hget) as Hsame.
  unfold autoRename.
  destruct (AIProcessor.ai_title a) as [title | ]; [ | exact Hsame].
  destruct (3 <? String.length title)%nat; [ | exact Hsame].
  rewrite Hget.
  destruct (isDefaultScreenshotName (DatabaseManager.filename s)) eqn:Hdefault;
    [ | exact Hsame].
  destruct (3 <? String.length (cleanTitle title))%nat; [ | exact Hsame].
  clear Hsame.
  set (newFilename := cleanTitle title ++ "-"
                      ++ string_of_list_ascii
                           (Text.before_first "T" (list_ascii_of_string toISOString))
                      ++ ".png").
  set (upd := fun r : DatabaseManager.Screenshot =>
                if String.eqb (DatabaseManager.id r) screenshotId
                then DatabaseManager.apply_updates now
                       {| DatabaseManager.set_filepath := None;
                          DatabaseManager.set_filename := Some newFilename;
                          DatabaseManager.set_is_favorite := None |} r
                else r).
  assert (Hdb : fst (DatabaseManager.updateScreenshot now db screenshotId
                       {| DatabaseManager.set_filepath := None;
                          DatabaseManager.set_filename := Some newFilename;
                          DatabaseManager.set_is_favorite := None |}) = Normal true /\
                snd (DatabaseManager.updateScreenshot now db screenshotId
                       {| DatabaseManager.set_filepath := None;
                          DatabaseManager.set_filename := Some newFilename;
                          DatabaseManager.set_is_favorite := None |})
                = DatabaseManager.with_screenshots db
                    (map upd (DatabaseManager.screenshots db))).
  { unfold DatabaseManager.updateScreenshot. rewrite Hget. split; reflexivity. }
  destruct (DatabaseManager.updateScreenshot now db screenshotId
              {| DatabaseManager.set_filepath := None;
                 DatabaseManager.set_filename := Some newFilename;
                 DatabaseManager.set_is_favorite := None |}) as [answer db'].
  cbn [fst snd] in Hdb. destruct Hdb as [-> ->].
  unfold renamed_at_most.
  assert (Hid : forall r, DatabaseManager.id (upd r) = DatabaseManager.id r).
  { intros r. unfold upd. destruct (String.eqb (DatabaseManager.id r) screenshotId); reflexivity. }
  assert (Hother : forall r, DatabaseManager.id r <> screenshotId -> upd r = r).
  { intros r Hr. unfold upd.
    destruct (String.eqb_spec (DatabaseManager.id r) screenshotId) as [E | _];
      [contradiction | reflexivity]. }
  split; [reflexivity | ]. split; [reflexivity | ]. split.
  { intros j Hj. unfold DatabaseManager.getScreenshot.
    cbn [DatabaseManager.screenshots DatabaseManager.with_screenshots].
    apply (getScreenshot_map_other upd _ screenshotId j Hid Hother Hj). }
  exists (upd s). split.
  { unfold DatabaseManager.getScreenshot in *.
    cbn [DatabaseManager.screenshots DatabaseManager.with_screenshots].
    rewrite (HandlerTheory.getScreenshot_map upd _ screenshotId Hid), Hget. reflexivity. }
  pose proof (HybridSearchTheory.getScreenshot_id _ _ _ Hget) as Hs.
  assert (Hupd : upd s = DatabaseManager.apply_updates now
                           {| DatabaseManager.set_filepath := None;
                              DatabaseManager.set_filename := Some newFilename;
                              DatabaseManager.set_is_favorite := None |} s).
  { unfold upd.
    replace (String.eqb (DatabaseManager.id s) screenshotId) with true
      by (symmetry; apply String.eqb_eq; exact Hs).
    reflexivity. }
  rewrite Hupd.
  cbn [DatabaseManager.apply_updates DatabaseManager.filepath DatabaseManager.created_at
         DatabaseManager.is_favorite DatabaseManager.filename DatabaseManager.set_filepath
         DatabaseManager.set_filename DatabaseManager.set_is_favorite].
  split; [reflexivity | ]. split; [reflexivity | ]. split; [reflexivity | ].
  right. split; [exact Hdefault | ].
  apply hyphenated_not_default.
  - unfold newFilename.
    rewrite !list_ascii_of_string_app, !forallb_app, list_ascii_of_string_of_list_ascii.
    rewrite cleanTitle_chars, (before_first_forallb _ _ _ Hiso). reflexivity.
  - unfold newFilename. rewrite !list_ascii_of_string_app, !existsb_app.
    cbn. apply orb_true_r.
Qed.

(** X19.  When the pipeline answers with a text or a title for a
    screenshot of the table, [processScreenshotWithAI] adds exactly one
    metadata row and sets the screenshot's entry of the search index; the
    other rows and entries and the files stay as they are.  Of the
    screenshot's row only [filename] (and [updated_at]) may change, never
    [filepath]; it changes only away from a default name, and the new name
    is not a default name, so that a screenshot is renamed at most once. *)
Theorem processScreenshotWithAI_database_effect
    (screenshotId imagePath : string) (app : App)
    (a : AIProcessor.AIAnalysisResult) (cs : list AIProcessor.RemoteCall)
    (s : DatabaseManager.Screenshot) :
  processScreenshot imagePath (inference_calls app) = (Normal a, cs) ->
  truthy (AIProcessor.ocr_text a) || truthy (AIProcessor.ai_title a) = true ->
  DatabaseManager.getScreenshot (database app) screenshotId = Some s ->
  forallb no_white_space (list_ascii_of_string toISOString) = true ->
  let app' := processScreenshotWithAI screenshotId imagePath app in
  DatabaseManager.screenshot_metadata (database app')
  = (DatabaseManager.screenshot_metadata (database app)
       ++ [metadata_row stringify screenshotId a])%list /\
  Map_get (search_index app') screenshotId
  = Some (searchContent a, JS.join " " (keywords_or_empty a)) /\
  (forall j, j <> screenshotId ->
     Map_get (search_index app') j = Map_get (search_index app) j) /\
  (forall j, j <> screenshotId ->
     DatabaseManager.getScreenshot (database app') j
     = DatabaseManager.getScreenshot (database app) j) /\
  files app' = files app /\
  exists s',
    DatabaseManager.getScreenshot (database app') screenshotId = Some s' /\
    DatabaseManager.filepath s' = DatabaseManager.filepath s /\
    DatabaseManager.created_at s' = DatabaseManager.created_at s /\
    DatabaseManager.is_favorite s' = DatabaseManager.is_favorite s /\
    (s' = s \/
     isDefaultScreenshotName (DatabaseManager.filename s) = true /\
     isDefaultScreenshotName (DatabaseManager.filename s') = false).
Proof.
  intros Hpipe Htruthy Hget Hiso app'.
  set (db1 := {| DatabaseManager.screenshots := DatabaseManager.screenshots (database app);
                 DatabaseManager.screenshot_tags := DatabaseManager.screenshot_tags (database app);
                 DatabaseManager.screenshot_metadata :=
                   (DatabaseManager.screenshot_metadata (database app)
                      ++ [metadata_row stringify screenshotId a])%list |}).
  assert (Hget1 : DatabaseManager.getScreenshot db1 screenshotId = Some s) by exact Hget.
  assert (Happ : exists service',
             app' = {| database := autoRename now toISOString screenshotId a db1;
                       search_index :=
                         (Map_delete (search_index app) screenshotId
                            ++ [(screenshotId,
                                 (searchContent a, JS.join " " (keywords_or_empty a)))])%list;
                       files := files app;
                       embeddingService := service';
                       inference_calls := cs |}).
  { unfold app', Main.processScreenshotWithAI. rewrite Hpipe, Htruthy.
    unfold DatabaseManager.addMetadata.
    cbn [database with_calls metadata_row DatabaseManager.screenshot_id]. rewrite Hget.
    assert (Hadd : (match foreign_keys with
                    | true | _ =>
                        (@Normal unit tt, db1)
                    end) = (Normal tt, db1)) by (destruct foreign_keys; reflexivity).
    fold (metadata_row stringify screenshotId a). fold db1.
    destruct foreign_keys.
    - unfold updateSearchIndex.
      destruct (embeddingService (with_database (with_calls app cs) db1)) as [w | ];
        [destruct (truthy (AIProcessor.comprehensive_description a)) | ];
        cbn [database with_database with_service with_calls with_search_index search_index];
        rewrite Hget1; eexists; reflexivity.
    - unfold updateSearchIndex.
      destruct (embeddingService (with_database (with_calls app cs) db1)) as [w | ];
        [destruct (truthy (AIProcessor.comprehensive_description a)) | ];
        cbn [database with_database with_service with_calls with_search_index search_index];
        eexists; reflexivity. }
  destruct Happ as [service' ->]. cbn [database search_index files].
  destruct (autoRename_effect screenshotId a db1 s Hiso Hget1)
    as [Hmeta [_ [Hothers Hrow]]].
  cbn [DatabaseManager.screenshot_metadata db1] in Hmeta.
  split; [rewrite Hmeta; reflexivity | ].
  split; [rewrite Map_get_app_fresh, String.eqb_refl; reflexivity | ].
  split.
  { intros j Hj. rewrite Map_get_app_fresh.
    destruct (String.eqb_spec j screenshotId) as [E | _]; [contradiction | reflexivity]. }
  split; [intros j Hj; rewrite (Hothers j Hj); reflexivity | ].
  split; [reflexivity | exact Hrow].
Qed.

(** X20.  When the pipeline answers with a comprehensive description that
    is not blank, the service is available, the screenshot (which has a
    row) is not indexed yet, the endpoint answers with a vector and the
    store file can be written, then [processScreenshotWithAI] indexes the
    screenshot: the text embedded is the pipeline's description (its first
    8000 code units), which is also the record's [content]; the service
    asks for no second description; and the record is in the store file. *)
Theorem processScreenshotWithAI_embeds_description
    (screenshotId imagePath : string) (app : App)
    (a : AIProcessor.AIAnalysisResult) (cs : list AIProcessor.RemoteCall)
    (s : DatabaseManager.Screenshot) (w : OpenAIEmbeddingService.World)
    (d : string) (v : list float) :
  processScreenshot imagePath (inference_calls app) = (Normal a, cs) ->
  AIProcessor.comprehensive_description a = Some d ->
  blank d = false ->
  DatabaseManager.getScreenshot (database app) screenshotId = Some s ->
  embeddingService app = Some w ->
  Map_has (OpenAIEmbeddingService.items w) screenshotId = false ->
  String.length apiKey <> 0%nat ->
  fetch_embeddings (substring 0 OpenAIEmbeddingService.text_budget d)
  = OpenAIEmbeddingService.Body (OpenAIEmbeddingService.FirstEmbedding (Some v)) ->
  v <> [] ->
  write_failure = None ->
  let app' := processScreenshotWithAI screenshotId imagePath app in
  exists w',
    embeddingService app' = Some w' /\
    OpenAIEmbeddingService.items w'
    = (OpenAIEmbeddingService.items w
         ++ [(screenshotId,
              {| OpenAIEmbeddingService.id := screenshotId;
                 OpenAIEmbeddingService.path := imagePath;
                 OpenAIEmbeddingService.type := OpenAIEmbeddingService.image;
                 OpenAIEmbeddingService.metadata := Some (embedding_metadata a);
                 OpenAIEmbeddingService.embedding := Some v;
                 OpenAIEmbeddingService.content := Some d |})])%list /\
    OpenAIEmbeddingService.file w'
    = Some {| OpenAIEmbeddingService.file_items := OpenAIEmbeddingService.items w';
              OpenAIEmbeddingService.lastUpdated := now |} /\
    OpenAIEmbeddingService.calls w'
    = (OpenAIEmbeddingService.calls w
         ++ [OpenAIEmbeddingService.CallEmbeddings
               (substring 0 OpenAIEmbeddingService.text_budget d)])%list.
Proof.
  intros Hpipe Hdesc Hblank Hget Hservice Hnew Hkey Hfetch Hv Hwrite app'.
  assert (Hlen : (String.length d =? 0)%nat = false).
  { unfold blank in Hblank. apply orb_false_iff in Hblank. apply Hblank. }
  assert (Htruthy : truthy (AIProcessor.ocr_text a) || truthy (AIProcessor.ai_title a) = true).
  { pose proof (pipeline_cases imagePath (inference_calls app)) as Hc.
    unfold Main.processScreenshot in Hpipe.
    destruct (readFileSync imagePath) as [img | e];
      [ | rewrite Hc in Hpipe; discriminate Hpipe].
    destruct Hc as [r [_ Hc]].
    destruct (blank (AIProcessor.text r)) eqn:Hb.
    - destruct Hc as [a0 [Ha0 [_ [_ Hnone]]]]. rewrite Ha0 in Hpipe.
      inversion Hpipe; subst a0. congruence.
    - destruct (AnalyzeScreenshotContent img) as [analysis | e];
        [ | rewrite Hpipe in Hc; discriminate Hc].
      destruct Hc as [a0 [cs0 [title [description [kws [d0 [Ha0 [_ [Hocr _]]]]]]]]].
      rewrite Ha0 in Hpipe. inversion Hpipe; subst a0. rewrite Hocr.
      unfold blank in Hb. apply orb_false_iff in Hb. destruct Hb as [Hb _].
      cbn [truthy]. rewrite Hb. reflexivity. }
  set (md := embedding_metadata a).
  set (it := {| OpenAIEmbeddingService.id := screenshotId;
                OpenAIEmbeddingService.path := imagePath;
                OpenAIEmbeddingService.type := OpenAIEmbeddingService.image;
                OpenAIEmbeddingService.metadata := Some md;
                OpenAIEmbeddingService.embedding := Some v;
                OpenAIEmbeddingService.content := Some d |}).
  set (w' := OpenAIEmbeddingService.with_file
               (OpenAIEmbeddingService.with_items
                  (OpenAIEmbeddingService.record_call
                     (OpenAIEmbeddingService.CallEmbeddings
                        (substring 0 OpenAIEmbeddingService.text_budget d)) w)
                  (Map_set (OpenAIEmbeddingService.items w) screenshotId it))
               {| OpenAIEmbeddingService.file_items :=
                    Map_set (OpenAIEmbeddingService.items w) screenshotId it;
                  OpenAIEmbeddingService.lastUpdated := now |}).
  assert (Hadd : Main.addImage readFileSync GenerateComprehensiveDescription apiKey
                   write_failure fetch_embeddings now screenshotId imagePath (Some md) w
                 = (Normal tt, w')).
  { unfold Main.addImage, OpenAIEmbeddingService.addImage, OpenAIEmbeddingService.bind.
    rewrite Hnew.
    unfold OpenAIEmbeddingService.generateComprehensiveDescription.
    cbn [OpenAIEmbeddingService.field md embedding_metadata
           OpenAIEmbeddingService.comprehensive_description].
    rewrite Hdesc. cbn [truthy or_else]. rewrite Hlen. cbn [negb]. rewrite Hblank.
    unfold OpenAIEmbeddingService.createEmbedding.
    destruct (Nat.eqb_spec (String.length apiKey) 0) as [E | _]; [contradiction | ].
    rewrite Hblank, Hfetch.
    destruct v as [ | x v0]; [contradiction | ].
    cbn [List.length Nat.eqb]. unfold OpenAIEmbeddingService.save. rewrite Hwrite.
    reflexivity. }
  exists w'.
  assert (Hservice' : embeddingService app' = Some w').
  { unfold app', Main.processScreenshotWithAI. rewrite Hpipe, Htruthy.
    unfold DatabaseManager.addMetadata.
    cbn [database with_calls metadata_row DatabaseManager.screenshot_id]. rewrite Hget.
    assert (Hcomp : truthy (AIProcessor.comprehensive_description a) = true).
    { rewrite Hdesc. cbn [truthy]. rewrite Hlen. reflexivity. }
    unfold updateSearchIndex.
    destruct foreign_keys;
      cbn [embeddingService with_database with_calls]; rewrite Hservice, Hcomp;
      fold md; rewrite Hadd;
      cbn [database with_database with_service with_calls with_search_index search_index
             embeddingService snd];
      unfold DatabaseManager.getScreenshot in *;
      cbn [DatabaseManager.screenshots]; rewrite ?Hget; reflexivity. }
  split; [exact Hservice' | ].
  unfold w'.
  cbn [OpenAIEmbeddingService.items OpenAIEmbeddingService.file OpenAIEmbeddingService.calls
         OpenAIEmbeddingService.with_file OpenAIEmbeddingService.with_items
         OpenAIEmbeddingService.record_call].
  rewrite (Map_set_fresh _ _ it Hnew). repeat split.
Qed.

End Process.

(** ** One capture, from the analysis to its deletion *)

Definition captured : DatabaseManager.Screenshot :=
  {| DatabaseManager.id := "s1";
     DatabaseManager.filepath := "/shots/screenshot_1750583345439.png";
     DatabaseManager.filename := "screenshot_1750583345439.png";
     DatabaseManager.created_at := 1750583345439;
     DatabaseManager.updated_at := 1750583345439;
     DatabaseManager.file_size := 1024;
     DatabaseManager.format := "png";
     DatabaseManager.is_favorite := false |}.

Definition captured_record : string * OpenAIEmbeddingService.IndexedItem :=
  ("s1",
   {| OpenAIEmbeddingService.id := "s1";
      OpenAIEmbeddingService.path := "/shots/screenshot_1750583345439.png";
      OpenAIEmbeddingService.type := OpenAIEmbeddingService.image;
      OpenAIEmbeddingService.metadata := None;
      OpenAIEmbeddingService.embedding := Some [1%float];
      OpenAIEmbeddingService.content := Some "Everything visible" |}).

(** The application after the capture, and after its indexing. *)
Definition after_capture : App :=
  {| database := SmartFolderTheory.table [captured];
     search_index := [];
     files := ["/shots/screenshot_1750583345439.png"];
     embeddingService := Some (EmbeddingStoreTheory.in_memory []);
     inference_calls := [] |}.

Definition after_indexing : App :=
  {| database := SmartFolderTheory.table [captured];
     search_index := [];
     files := ["/shots/screenshot_1750583345439.png"];
     embeddingService := Some (EmbeddingStoreTheory.saved [captured_record]);
     inference_calls := [] |}.

Definition unlink_works (_ : string) : bool := false.

Definition comma_separated (kws : list string) : string := "[" ++ JS.join "," kws ++ "]".

Definition midsummer : string := "2025-06-22T09:09:05.439Z".

(** What the pipeline answers for the capture when every call succeeds. *)
Definition hello_analysis : AIProcessor.AIAnalysisResult :=
  {| AIProcessor.ocr_text := Some "Hello World";
     AIProcessor.confidence_score := Some AIProcessor.default_confidence;
     AIProcessor.ai_title := Some "A title";
     AIProcessor.ai_description := Some "A description";
     AIProcessor.ai_keywords := Some [];
     AIProcessor.content_type := Some "document";
     AIProcessor.app_detected := None;
     AIProcessor.url_detected := None;
     AIProcessor.comprehensive_description := Some "Everything visible" |}.

Definition hello_calls : list AIProcessor.RemoteCall :=
  [AIProcessor.CallExtractAllText "base64:/shots/screenshot_1750583345439.png";
   AIProcessor.CallGenerateScreenshotTitle "base64:/shots/screenshot_1750583345439.png"
     "Hello World";
   AIProcessor.CallAnalyzeScreenshotContentDetailed
     "base64:/shots/screenshot_1750583345439.png" "Hello World";
   AIProcessor.CallAnalyzeScreenshotContent "base64:/shots/screenshot_1750583345439.png";
   AIProcessor.CallGenerateComprehensiveDescription
     "base64:/shots/screenshot_1750583345439.png" "Hello World" (Some "A title") (Some [])].

Lemma delete_screenshot_then_restart_witness :
  let answer := delete_screenshot true slash_join "/thumbnails" unlink_works "s1"
                  after_indexing in
  let app1 := snd answer in
  fst answer = true /\
  DatabaseManager.getScreenshot (database app1) "s1" = None /\
  (forall j, j <> "s1" ->
     DatabaseManager.getScreenshot (database app1) j
     = DatabaseManager.getScreenshot (database after_indexing) j) /\
  FileSystemManager.existsSync (files app1) (DatabaseManager.filepath captured) = false /\
  exists w1,
    embeddingService app1 = Some w1 /\
    Map_has (OpenAIEmbeddingService.items w1) "s1" = false /\
    OpenAIEmbeddingService.file w1
    = Some {| OpenAIEmbeddingService.file_items := [captured_record];
              OpenAIEmbeddingService.lastUpdated := 0 |} /\
    let w2 := snd (OpenAIEmbeddingService.purgeStaleEmbeddings 1750583400000
                     (existsSync_check (files app1)) None
                     (OpenAIEmbeddingService.restart w1)) in
    Map_has (OpenAIEmbeddingService.items w2) "s1" = false /\
    exists f2, OpenAIEmbeddingService.file w2 = Some f2 /\
               Map_has (OpenAIEmbeddingService.file_items f2) "s1" = false.
Proof.
  apply (delete_screenshot_then_restart true 1750583400000 slash_join "/thumbnails"
           unlink_works "s1" after_indexing captured
           (EmbeddingStoreTheory.saved [captured_record])
           {| OpenAIEmbeddingService.file_items := [captured_record];
              OpenAIEmbeddingService.lastUpdated := 0 |}).
  - reflexivity.
  - reflexivity.
  - reflexivity.
  - intros it [E | []]. inversion E. reflexivity.
  - discriminate.
  - reflexivity.
Defined.

Lemma processScreenshotWithAI_nothing_stored_witness :
  let app' := Main.processScreenshotWithAI PipelineTheory.read_any PipelineTheory.ocr_fails
                PipelineTheory.title_ok PipelineTheory.description_ok
                PipelineTheory.analysis_ok PipelineTheory.comprehensive_ok
                PipelineTheory.first_line PipelineTheory.first_line PipelineTheory.no_words
                "sk-test" None EmbeddingStoreTheory.unit_answer true comma_separated
                1750583400000 midsummer
                "s1" "/shots/screenshot_1750583345439.png" after_capture in
  database app' = database after_capture /\
  search_index app' = search_index after_capture /\
  files app' = files after_capture /\
  embeddingService app' = embeddingService after_capture.
Proof.
  apply (processScreenshotWithAI_nothing_stored PipelineTheory.read_any
           PipelineTheory.ocr_fails PipelineTheory.title_ok PipelineTheory.description_ok
           PipelineTheory.analysis_ok PipelineTheory.comprehensive_ok
           PipelineTheory.first_line PipelineTheory.first_line PipelineTheory.no_words
           "sk-test" None EmbeddingStoreTheory.unit_answer true comma_separated
           1750583400000 midsummer "s1" "/shots/screenshot_1750583345439.png" after_capture).
  right. exists "base64:/shots/screenshot_1750583345439.png", 0%float.
  split; reflexivity.
Defined.

Lemma processScreenshotWithAI_database_effect_witness :
  let app' := Main.processScreenshotWithAI PipelineTheory.read_any PipelineTheory.ocr_hello
                PipelineTheory.title_ok PipelineTheory.description_ok
                PipelineTheory.analysis_ok PipelineTheory.comprehensive_ok
                PipelineTheory.first_line PipelineTheory.first_line PipelineTheory.no_words
                "sk-test" None EmbeddingStoreTheory.unit_answer true comma_separated
                1750583400000 midsummer
                "s1" "/shots/screenshot_1750583345439.png" after_capture in
  DatabaseManager.screenshot_metadata (database app')
  = (DatabaseManager.screenshot_metadata (database after_capture)
       ++ [metadata_row comma_separated "s1" hello_analysis])%list /\
  Map_get (search_index app') "s1"
  = Some (searchContent hello_analysis, JS.join " " (keywords_or_empty hello_analysis)) /\
  (forall j, j <> "s1" ->
     Map_get (search_index app') j = Map_get (search_index after_capture) j) /\
  (forall j, j <> "s1" ->
     DatabaseManager.getScreenshot (database app') j
     = DatabaseManager.getScreenshot (database after_capture) j) /\
  files app' = files after_capture /\
  exists s',
    DatabaseManager.getScreenshot (database app') "s1" = Some s' /\
    DatabaseManager.filepath s' = DatabaseManager.filepath captured /\
    DatabaseManager.created_at s' = DatabaseManager.created_at captured /\
    DatabaseManager.is_favorite s' = DatabaseManager.is_favorite captured /\
    (s' = captured \/
     isDefaultScreenshotName (DatabaseManager.filename captured) = true /\
     isDefaultScreenshotName (DatabaseManager.filename s') = false).
Proof.
  apply (processScreenshotWithAI_database_effect PipelineTheory.read_any
           PipelineTheory.ocr_hello PipelineTheory.title_ok PipelineTheory.description_ok
           PipelineTheory.analysis_ok PipelineTheory.comprehensive_ok
           PipelineTheory.first_line PipelineTheory.first_line PipelineTheory.no_words
           "sk-test" None EmbeddingStoreTheory.unit_answer true comma_separated
           1750583400000 midsummer "s1" "/shots/screenshot_1750583345439.png" after_capture
           hello_analysis hello_calls captured).
  - reflexivity.
  - reflexivity.
  - reflexivity.
  - reflexivity.
Defined.

Lemma processScreenshotWithAI_embeds_description_witness :
  let app' := Main.processScreenshotWithAI PipelineTheory.read_any PipelineTheory.ocr_hello
                PipelineTheory.title_ok PipelineTheory.description_ok
                PipelineTheory.analysis_ok PipelineTheory.comprehensive_ok
                PipelineTheory.first_line PipelineTheory.first_line PipelineTheory.no_words
                "sk-test" None EmbeddingStoreTheory.unit_answer true comma_separated
                1750583400000 midsummer
                "s1" "/shots/screenshot_1750583345439.png" after_capture in
  exists w',
    embeddingService app' = Some w' /\
    OpenAIEmbeddingService.items w'
    = (OpenAIEmbeddingService.items (EmbeddingStoreTheory.in_memory [])
         ++ [("s1",
              {| OpenAIEmbeddingService.id := "s1";
                 OpenAIEmbeddingService.path := "/shots/screenshot_1750583345439.png";
                 OpenAIEmbeddingService.type := OpenAIEmbeddingService.image;
                 OpenAIEmbeddingService.metadata := Some (embedding_metadata hello_analysis);
                 OpenAIEmbeddingService.embedding := Some [1%float];
                 OpenAIEmbeddingService.content := Some "Everything visible" |})])%list /\
    OpenAIEmbeddingService.file w'
    = Some {| OpenAIEmbeddingService.file_items := OpenAIEmbeddingService.items w';
              OpenAIEmbeddingService.lastUpdated := 1750583400000 |} /\
    OpenAIEmbeddingService.calls w'
    = (OpenAIEmbeddingService.calls (EmbeddingStoreTheory.in_memory [])
         ++ [OpenAIEmbeddingService.CallEmbeddings
               (substring 0 OpenAIEmbeddingService.text_budget "Everything visible")])%list.
Proof.
  apply (processScreenshotWithAI_embeds_description PipelineTheory.read_any
           PipelineTheory.ocr_hello PipelineTheory.title_ok PipelineTheory.description_ok
           PipelineTheory.analysis_ok PipelineTheory.comprehensive_ok
           PipelineTheory.first_line PipelineTheory.first_line PipelineTheory.no_words
           "sk-test" None EmbeddingStoreTheory.unit_answer true comma_separated
           1750583400000 midsummer "s1" "/shots/screenshot_1750583345439.png" after_capture
           hello_analysis hello_calls captured (EmbeddingStoreTheory.in_memory [])
           "Everything visible" [1%float]).
  - reflexivity.
  - reflexivity.
  - reflexivity.
  - reflexivity.
  - reflexivity.
  - reflexivity.
  - discriminate.
  - reflexivity.
  - discriminate.
  - reflexivity.
Defined.

(** The capture of the example is renamed once, in the table only. *)
Example processScreenshotWithAI_example :
  DatabaseManager.screenshots
    (database
       (Main.processScreenshotWithAI PipelineTheory.read_any PipelineTheory.ocr_hello
          PipelineTheory.title_ok PipelineTheory.description_ok
          PipelineTheory.analysis_ok PipelineTheory.comprehensive_ok
          PipelineTheory.first_line PipelineTheory.first_line PipelineTheory.no_words
          "sk-test" None EmbeddingStoreTheory.unit_answer true comma_separated
          1750583400000 midsummer
          "s1" "/shots/screenshot_1750583345439.png" after_capture))
  = [ {| DatabaseManager.id := "s1";
         DatabaseManager.filepath := "/shots/screenshot_1750583345439.png";
         DatabaseManager.filename := "a-title-2025-06-22.png";
         DatabaseManager.created_at := 1750583345439;
         DatabaseManager.updated_at := 1750583400000;
         DatabaseManager.file_size := 1024;
         DatabaseManager.format := "png";
         DatabaseManager.is_favorite := false |} ].
Proof. vm_compute. reflexivity. Qed.

End MainProcessTheory.

(* ================================================================== *)
(** * The search handler without semantic results *)
(* ================================================================== *)

Module LexicalFallbackTheory.
Import JS JSFacts SearchHandler.

Lemma fold_add_text_fresh (lex : list SearchResult) (acc : Map SearchResult) :
  NoDup (map entry_id lex) ->
  (forall e, In e lex -> Map_has acc (entry_id e) = false) ->
  fold_left add_text lex acc = (acc ++ map (fun e => (entry_id e, e)) lex)%list.
Proof.
  revert acc. induction lex as [ | e lex IH]; intros acc Hnd Hfresh; cbn [fold_left map].
  - rewrite app_nil_r. reflexivity.
  - inversion Hnd as [ | ? ? Hnotin Hnd']; subst.
    unfold add_text at 2. rewrite (Hfresh e (or_introl eq_refl)).
    rewrite (Map_set_fresh _ _ _ (Hfresh e (or_introl eq_refl))).
    rewrite IH; [rewrite <- app_assoc; reflexivity | exact Hnd' | ].
    intros e' He'. rewrite Map_has_app, (Hfresh e' (or_intror He')). cbn [orb].
    unfold Map_has. cbn [Map_get].
    destruct (String.eqb_spec (entry_id e') (entry_id e)) as [E | _]; [ | reflexivity].
    exfalso. apply Hnotin. rewrite <- E. apply in_map. exact He'.
Qed.

Lemma searchByText_nothing (apiKey : string)
    (fetch_embeddings : string -> OpenAIEmbeddingService.FetchOutcome)
    (query : string) (k : Z) (w : OpenAIEmbeddingService.World) :
  OpenAIEmbeddingService.items w = [] \/
  is_throw (fst (OpenAIEmbeddingService.createEmbedding apiKey fetch_embeddings query w)) = true ->
  fst (OpenAIEmbeddingService.searchByText apiKey fetch_embeddings query k w) = Normal [].
Proof.
  unfold OpenAIEmbeddingService.searchByText, OpenAIEmbeddingService.try_catch,
    OpenAIEmbeddingService.bind, OpenAIEmbeddingService.ret.
  intros [Hempty | Hthrow].
  - rewrite Hempty. reflexivity.
  - destruct (Map_size (OpenAIEmbeddingService.items w) =? 0)%nat; [reflexivity | ].
    destruct (OpenAIEmbeddingService.createEmbedding apiKey fetch_embeddings query w)
      as [[qe | e] w']; [discriminate Hthrow | reflexivity].
Qed.

(** X21.  When the semantic side contributes nothing, because the
    embedding service is not available, or its index is empty, or the
    query cannot be embedded (no API key, unreachable endpoint, ...), the
    handler of [search-screenshots] answers with the results of the
    lexical search, in their order (given that they have distinct
    identifiers and are at most [limit]). *)
Theorem search_screenshots_lexical_fallback
    (apiKey : string) (fetch_embeddings : string -> OpenAIEmbeddingService.FetchOutcome)
    (db : DatabaseManager.Database)
    (searchScreenshots : string -> Z -> completion (list SearchResult))
    (getMetadata : string -> option DatabaseManager.ScreenshotMetadata)
    (getTagsForScreenshot : string -> list DatabaseManager.Tag)
    (getFoldersForScreenshot : string -> list DatabaseManager.FolderRow)
    (embeddingService : option OpenAIEmbeddingService.World)
    (query : string) (limit : Z) (textResults : list SearchResult) :
  searchScreenshots query limit = Normal textResults ->
  NoDup (map entry_id textResults) ->
  (Z.of_nat (List.length textResults) <= limit)%Z ->
  embeddingService = None \/
  (exists w,
     embeddingService = Some w /\
     (OpenAIEmbeddingService.items w = [] \/
      is_throw (fst (OpenAIEmbeddingService.createEmbedding apiKey fetch_embeddings query w))
      = true)) ->
  fst (search_screenshots apiKey fetch_embeddings db searchScreenshots getMetadata
         getTagsForScreenshot getFoldersForScreenshot embeddingService query limit)
  = textResults.
Proof.
  intros Hlex Hnd Hlen Hsem. unfold search_screenshots. rewrite Hlex.
  destruct Hsem as [-> | [w [-> Hnothing]]]; [reflexivity | ].
  pose proof (searchByText_nothing apiKey fetch_embeddings query limit w Hnothing) as Hs.
  destruct (OpenAIEmbeddingService.searchByText apiKey fetch_embeddings query limit w)
    as [[semanticResults | e] w']; cbn [fst] in Hs; [ | discriminate Hs].
  inversion Hs; subst semanticResults. cbn [fst]. unfold merge. cbn [fold_left].
  rewrite (fold_add_text_fresh textResults [] Hnd) by (intros e He; reflexivity).
  cbn [app]. unfold Map_values. rewrite map_map. cbn [snd]. rewrite map_id.
  apply slice0_all. exact Hlen.
Qed.

Lemma search_screenshots_lexical_fallback_witness :
  fst (search_screenshots "" EmbeddingStoreTheory.unreachable HybridSearchTheory.two_shots
         HybridSearchTheory.finds_c_and_x HybridSearchTheory.no_metadata
         HybridSearchTheory.no_tags HybridSearchTheory.no_folders
         (Some HybridSearchTheory.indexed_a_and_c) "invoice"%string 50)
  = [HybridSearchTheory.lexical_entry HybridSearchTheory.shot_c;
     HybridSearchTheory.lexical_entry HybridSearchTheory.shot_x].
Proof.
  apply (search_screenshots_lexical_fallback "" EmbeddingStoreTheory.unreachable
           HybridSearchTheory.two_shots HybridSearchTheory.finds_c_and_x
           HybridSearchTheory.no_metadata HybridSearchTheory.no_tags
           HybridSearchTheory.no_folders (Some HybridSearchTheory.indexed_a_and_c)
           "invoice"%string 50).
  - reflexivity.
  - cbn. apply NoDup_cons; [intros [E | []]; discriminate E | ].
    apply NoDup_cons; [intros [] | apply NoDup_nil].
  - cbn. lia.
  - right. exists HybridSearchTheory.indexed_a_and_c. split; [reflexivity | ].
    right. reflexivity.
Defined.

End LexicalFallbackTheory.

(* ================================================================== *)
(** * Properties of the local description *)
(* ================================================================== *)

Module ContentHeuristicsTheory.
Import JS RegExp ContentHeuristics.

Local Open Scope string_scope.

(** ** The strings of an expression with the assertion [$] *)

(** What follows the position in front of [s], when [next] follows [s]. *)
Definition first_or (s : list ascii) (next : option ascii) : option ascii :=
  match s with
  | [] => next
  | c :: _ => Some c
  end.

(** [lang_at next r s]: [s] is a string of [r] when [next] comes after it. *)
Inductive lang_at : option ascii -> regex -> list ascii -> Prop :=
| at_Empty (next : option ascii) : lang_at next Empty []
| at_EndOfLine (next : option ascii) :
    match next with None => true | Some c => is_line_terminator c end = true ->
    lang_at next EndOfLine []
| at_Chr (next : option ascii) (p : ascii -> bool) (c : ascii) :
    p c = true -> lang_at next (Chr p) [c]
| at_Seq (next : option ascii) (r1 r2 : regex) (s1 s2 : list ascii) :
    lang_at (first_or s2 next) r1 s1 -> lang_at next r2 s2 ->
    lang_at next (Seq r1 r2) (s1 ++ s2)
| at_Alt_l (next : option ascii) (r1 r2 : regex) (s : list ascii) :
    lang_at next r1 s -> lang_at next (Alt r1 r2) s
| at_Alt_r (next : option ascii) (r1 r2 : regex) (s : list ascii) :
    lang_at next r2 s -> lang_at next (Alt r1 r2) s
| at_Star_nil (next : option ascii) (r : regex) : lang_at next (Star r) []
| at_Star_cons (next : option ascii) (r : regex) (s1 s2 : list ascii) :
    lang_at (first_or s2 next) r s1 -> lang_at next (Star r) s2 ->
    lang_at next (Star r) (s1 ++ s2).

Lemma lang_at_nullable (next : option ascii) (r : regex) (s : list ascii) :
  lang_at next r s -> s = [] -> nullable next r = true.
Proof.
  intros H. induction H as [next | next Hn | next p c Hp | next r1 r2 s1 s2 H1 IH1 H2 IH2
                            | next r1 r2 s H1 IH1 | next r1 r2 s H2 IH2 | next r
                            | next r s1 s2 H1 IH1 H2 IH2];
    intros E; cbn [nullable]; try reflexivity.
  - exact Hn.
  - discriminate E.
  - apply app_eq_nil in E. destruct E as [E1 E2]. subst s1 s2.
    cbn [first_or] in IH1. rewrite (IH1 eq_refl), (IH2 eq_refl). reflexivity.
  - rewrite (IH1 E). reflexivity.
  - rewrite (IH2 E). apply orb_true_r.
Qed.

Lemma lang_at_derivative (next : option ascii) (r : regex) (s : list ascii) :
  lang_at next r s -> forall c s', s = c :: s' -> lang_at next (derivative c r) s'.
Proof.
  intros H. induction H as [next | next Hn | next p c0 Hp | next r1 r2 s1 s2 H1 IH1 H2 IH2
                            | next r1 r2 s H1 IH1 | next r1 r2 s H2 IH2 | next r
                            | next r s1 s2 H1 IH1 H2 IH2];
    intros c s' E; cbn [derivative].
  - discriminate E.
  - discriminate E.
  - inversion E; subst. rewrite Hp. constructor.
  - destruct s1 as [ | c1 s1'].
    + cbn [List.app] in E. subst s2. apply at_Alt_r.
      pose proof (lang_at_nullable _ r1 [] H1 eq_refl) as Hn. cbn [first_or] in Hn.
      rewrite Hn. apply (IH2 c s' eq_refl).
    + cbn [List.app] in E. inversion E; subst. apply at_Alt_l.
      apply at_Seq; [apply (IH1 c s1' eq_refl) | exact H2].
  - apply at_Alt_l. apply (IH1 c s' E).
  - apply at_Alt_r. apply (IH2 c s' E).
  - discriminate E.
  - destruct s1 as [ | c1 s1'].
    + cbn [List.app] in E. apply (IH2 c s' E).
    + cbn [List.app] in E. inversion E; subst.
      apply at_Seq; [apply (IH1 c s1' eq_refl) | exact H2].
Qed.

Lemma lang_at_matches (s : list ascii) (r : regex) :
  lang_at None r s -> matches r s = true.
Proof.
  revert r. induction s as [ | c s IH]; intros r H; cbn [matches].
  - apply (lang_at_nullable None r [] H eq_refl).
  - apply IH. apply (lang_at_derivative None r (c :: s) H c s eq_refl).
Qed.

Lemma lang_at_star_class (next : option ascii) (p : ascii -> bool) (s : list ascii) :
  forallb p s = true -> lang_at next (Star (Chr p)) s.
Proof.
  induction s as [ | c s IH]; intros H; [apply at_Star_nil | ].
  cbn [forallb] in H. apply andb_true_iff in H. destruct H as [Hc Hs].
  change (c :: s) with ([c] ++ s)%list.
  apply at_Star_cons; [apply at_Chr; exact Hc | apply IH; exact Hs].
Qed.

Lemma lang_at_anything (next : option ascii) (s : list ascii) : lang_at next anything s.
Proof.
  apply lang_at_star_class. induction s as [ | c s IH]; [reflexivity | exact IH].
Qed.

Lemma lang_at_literal (next : option ascii) (t : string) :
  lang_at next (literal t) (list_ascii_of_string t).
Proof.
  induction t as [ | c t IH]; cbn [literal list_ascii_of_string]; [apply at_Empty | ].
  change (c :: list_ascii_of_string t) with ([c] ++ list_ascii_of_string t)%list.
  apply at_Seq; [apply at_Chr; apply Ascii.eqb_refl | exact IH].
Qed.

(** ** Lines *)

(** The code units up to the first line terminator, and the others. *)
Fixpoint line_of (l : list ascii) : list ascii :=
  match l with
  | [] => []
  | c :: l' => if is_line_terminator c then [] else c :: line_of l'
  end.

Fixpoint after_line (l : list ascii) : list ascii :=
  match l with
  | [] => []
  | c :: l' => if is_line_terminator c then l else after_line l'
  end.

Lemma line_split (l : list ascii) : l = (line_of l ++ after_line l)%list.
Proof.
  induction l as [ | c l IH]; [reflexivity | ].
  cbn [line_of after_line]. destruct (is_line_terminator c); [reflexivity | ].
  cbn [List.app]. rewrite <- IH. reflexivity.
Qed.

Lemma line_of_no_terminator (l : list ascii) :
  forallb (fun c => negb (is_line_terminator c)) (line_of l) = true.
Proof.
  induction l as [ | c l IH]; [reflexivity | ].
  cbn [line_of]. destruct (is_line_terminator c) eqn:E; [reflexivity | ].
  cbn [forallb]. rewrite E, IH. reflexivity.
Qed.

Lemma after_line_terminator (l : list ascii) :
  match first_or (after_line l) None with
  | None => true
  | Some c => is_line_terminator c
  end = true.
Proof.
  induction l as [ | c l IH]; [reflexivity | ].
  cbn [after_line]. destruct (is_line_terminator c) eqn:E; [exact E | exact IH].
Qed.

(** [/\/\/.*$/m] finds every pair of slashes. *)
Lemma comment_pattern_found (a b : list ascii) :
  matches (Seq anything (Seq (cat [literal "//"; Star dot; EndOfLine]) anything))
    (a ++ "/"%char :: "/"%char :: b) = true.
Proof.
  apply lang_at_matches.
  replace (a ++ "/"%char :: "/"%char :: b)%list
    with (a ++ ((list_ascii_of_string "//" ++ (line_of b ++ ([] ++ []))) ++ after_line b))%list.
  2: { cbn [list_ascii_of_string List.app]. rewrite app_nil_r, <- line_split. reflexivity. }
  apply at_Seq; [apply lang_at_anything | ].
  apply at_Seq; [ | apply lang_at_anything].
  cbn [cat].
  apply at_Seq; [apply lang_at_literal | ].
  apply at_Seq; [apply lang_at_star_class; apply line_of_no_terminator | ].
  apply at_Seq; [ | apply at_Empty].
  apply at_EndOfLine. cbn [first_or]. apply after_line_terminator.
Qed.

(** ** The type of the content *)

Definition content_types : list string :=
  ["code"; "webpage"; "chart"; "diagram"; "interface"; "document"].

Lemma type_in_content_types (ocrText : string) :
  In (type (analyzeContentHeuristic ocrText)) content_types.
Proof.
  unfold analyzeContentHeuristic, content_types. cbn [type].
  destruct (some_test codePatterns _); [cbn; tauto | ].
  destruct (some_test webPatterns _); [cbn; tauto | ].
  destruct (some_test chartPatterns _); [cbn; tauto | ].
  destruct (test (one_of _) _); [cbn; tauto | ].
  destruct (some_test uiPatterns _); cbn; tauto.
Qed.

Lemma append_assoc (a b c : string) : (a ++ b) ++ c = a ++ b ++ c.
Proof. induction a as [ | x a IH]; [reflexivity | ]. cbn. rewrite IH. reflexivity. Qed.

Lemma append_empty (a : string) : a ++ "" = a.
Proof. induction a as [ | x a IH]; [reflexivity | ]. cbn. rewrite IH. reflexivity. Qed.

(** The description in three parts: the type, the application and the
    number of words. *)
Lemma describeHeuristic_parts (ocrText : string) :
  describeHeuristic ocrText
  = type (analyzeContentHeuristic ocrText) ++ " screenshot"
    ++ match app (analyzeContentHeuristic ocrText) with
       | Some a => " from " ++ a
       | None => ""
       end
    ++ (if (100 <? String.length ocrText)%nat
        then " containing " ++ Text.Number_toString (word_count ocrText) ++ " words"
        else "").
Proof.
  unfold describeHeuristic.
  destruct (app (analyzeContentHeuristic ocrText)) as [a | ];
    destruct (100 <? String.length ocrText)%nat;
    rewrite ?append_assoc, ?append_empty; reflexivity.
Qed.

Lemma app_in_applications (ocrText : string) :
  In (match app (analyzeContentHeuristic ocrText) with
      | Some a => " from " ++ a
      | None => ""
      end)
     [""; " from VS Code"; " from Xcode"; " from Terminal"; " from Browser"].
Proof.
  unfold analyzeContentHeuristic. cbn [app].
  destruct (test (one_of ["vscode"; "visual studio code"]) _); [cbn; tauto | ].
  destruct (test (literal "xcode") _); [cbn; tauto | ].
  destruct (test (one_of ["terminal"; "bash"; "zsh"]) _); [cbn; tauto | ].
  destruct (test (one_of ["chrome"; "safari"; "firefox"]) _); cbn; tauto.
Qed.

(** X22.  The description of the pipeline stage: the remote one when it
    is not empty; ['Screenshot'] when the remote call fails; and when the
    remote description is empty, exactly ['<type> screenshot'], then
    [' from <app>'] when an application is recognised (VS Code, Xcode,
    Terminal or Browser), then [' containing <n> words'] when the text
    has more than 100 code units, and nothing else: no part for a domain.
    The type is the one of [analyzeContentHeuristic], one of code,
    webpage, chart, diagram, interface and document: the initial type
    ['content'] never shows.  The call is recorded in each case. *)
Theorem generateDescription_local_shape
    (AnalyzeScreenshotContentDetailed : AIProcessor.Image -> string -> completion string)
    (img : AIProcessor.Image) (ocrText : string) (cs : list AIProcessor.RemoteCall) :
  let answer :=
    AIProcessor.generateDescription AnalyzeScreenshotContentDetailed describeHeuristic
      img ocrText cs in
  snd answer = (cs ++ [AIProcessor.CallAnalyzeScreenshotContentDetailed img ocrText])%list /\
  match AnalyzeScreenshotContentDetailed img ocrText with
  | Normal EmptyString =>
      exists type from words,
        fst answer = Normal (type ++ " screenshot" ++ from ++ words) /\
        type = ContentHeuristics.type (analyzeContentHeuristic ocrText) /\
        In type ["code"; "webpage"; "chart"; "diagram"; "interface"; "document"] /\
        from = match app (analyzeContentHeuristic ocrText) with
               | Some a => " from " ++ a
               | None => ""
               end /\
        In from [""; " from VS Code"; " from Xcode"; " from Terminal"; " from Browser"] /\
        words = if (100 <? String.length ocrText)%nat
                then " containing " ++ Text.Number_toString (word_count ocrText) ++ " words"
                else ""
  | Normal description => fst answer = Normal description
  | Throw _ => fst answer = Normal "Screenshot"
  end.
Proof.
  unfold AIProcessor.generateDescription.
  destruct (AnalyzeScreenshotContentDetailed img ocrText) as [[ | c d] | e]; cbn [fst snd negb
    String.length Nat.eqb].
  - split; [reflexivity | ].
    eexists _, _, _.
    split; [rewrite (describeHeuristic_parts ocrText); reflexivity | ].
    split; [reflexivity | ].
    split; [apply type_in_content_types | ].
    split; [reflexivity | ].
    split; [apply app_in_applications | reflexivity].
  - split; reflexivity.
  - split; reflexivity.
Qed.

Lemma toLowerCase_chars (a b : string) :
  list_ascii_of_string (FallbackHeuristics.toLowerCase (a ++ "//" ++ b))
  = (map FallbackHeuristics.lower (list_ascii_of_string a)
       ++ "/"%char :: "/"%char :: map FallbackHeuristics.lower (list_ascii_of_string b))%list.
Proof.
  unfold FallbackHeuristics.toLowerCase.
  rewrite list_ascii_of_string_of_list_ascii, !TextFacts.list_ascii_of_string_app, !map_app.
  reflexivity.
Qed.

(** X23.  A text with two slashes in a row anywhere is typed as code: the
    pattern of a line comment finds them.  So a text that shows an address
    with [http://] or [https://] is never typed as a web page. *)
Theorem double_slash_is_code (before after : string) :
  isCode (analyzeContentHeuristic (before ++ "//" ++ after)) = true /\
  type (analyzeContentHeuristic (before ++ "//" ++ after)) = "code" /\
  type (analyzeContentHeuristic (before ++ "https://" ++ after)) = "code" /\
  type (analyzeContentHeuristic (before ++ "http://" ++ after)) = "code".
Proof.
  assert (Hcode : forall a b, some_test codePatterns
                                (FallbackHeuristics.toLowerCase (a ++ "//" ++ b)) = true).
  { intros a b. unfold some_test. apply existsb_exists.
    exists (cat [literal "//"; Star dot; EndOfLine]).
    split; [unfold codePatterns; cbn [In]; tauto | ].
    unfold test. rewrite toLowerCase_chars. apply comment_pattern_found. }
  assert (Htype : forall a b, type (analyzeContentHeuristic (a ++ "//" ++ b)) = "code").
  { intros a b. unfold analyzeContentHeuristic. cbn [type]. rewrite Hcode. reflexivity. }
  split; [unfold analyzeContentHeuristic; cbn [isCode]; apply Hcode | ].
  split; [apply Htype | ].
  split.
  - replace (before ++ "https://" ++ after) with ((before ++ "https:") ++ "//" ++ after)
      by (rewrite append_assoc; reflexivity).
    apply Htype.
  - replace (before ++ "http://" ++ after) with ((before ++ "http:") ++ "//" ++ after)
      by (rewrite append_assoc; reflexivity).
    apply Htype.
Qed.

Example analyzeContentHeuristic_example :
  type (analyzeContentHeuristic "Visit https://example.com today") = "code" /\
  type (analyzeContentHeuristic "Visit www.example.com today") = "webpage" /\
  type (analyzeContentHeuristic "Quarterly report") = "document" /\
  describeHeuristic "Open the terminal and press the button" = "interface screenshot from Terminal".
Proof. vm_compute. repeat split. Qed.

End ContentHeuristicsTheory.

(* ================================================================== *)
(** * Properties of the editor history and of the search history *)
(* ================================================================== *)

Module EditorTheory.
Import JS JSFacts ScreenshotEditor.

Local Open Scope Z_scope.

(** ** Reading an array *)

Lemma at_index_in_range {A : Type} (a : list A) (i : Z) :
  0 <= i < Z.of_nat (List.length a) -> exists x, at_index a i = Some x.
Proof.
  intros H. unfold at_index. destruct (Z.ltb_spec i 0) as [Hneg | _]; [lia | ].
  destruct (nth_error a (Z.to_nat i)) as [x | ] eqn:E; [exists x; reflexivity | ].
  apply nth_error_None in E. lia.
Qed.

Lemma at_index_In {A : Type} (a : list A) (i : Z) (x : A) : at_index a i = Some x -> In x a.
Proof. unfold at_index. destruct (i <? 0); [discriminate | apply nth_error_In]. Qed.

Lemma slice0_prefix_length {A : Type} (a : list A) (k : Z) :
  0 <= k <= Z.of_nat (List.length a) -> Z.of_nat (List.length (slice0 a k)) = k.
Proof.
  intros H. unfold slice0. destruct (Z.ltb_spec k 0) as [Hneg | _]; [lia | ].
  rewrite length_firstn. lia.
Qed.

Lemma at_index_push_last {A : Type} (a : list A) (x : A) (i : Z) :
  i = Z.of_nat (List.length a) -> at_index (a ++ [x]) i = Some x.
Proof.
  intros ->. unfold at_index.
  destruct (Z.ltb_spec (Z.of_nat (List.length a)) 0) as [Hneg | _]; [lia | ].
  rewrite Nat2Z.id, nth_error_app2 by lia. rewrite Nat.sub_diag. reflexivity.
Qed.

Lemma at_index_push_slice {A : Type} (a : list A) (k : Z) (x : A) (i : Z) :
  0 <= i < k -> k <= Z.of_nat (List.length a) ->
  at_index (slice0 a k ++ [x]) i = at_index a i.
Proof.
  intros Hi Hk. unfold at_index. destruct (Z.ltb_spec i 0) as [Hneg | _]; [lia | ].
  pose proof (slice0_prefix_length a k) as Hlen.
  rewrite nth_error_app1 by lia.
  unfold slice0. destruct (Z.ltb_spec k 0) as [Hneg | _]; [lia | ].
  rewrite nth_error_firstn.
  destruct (Nat.ltb_spec (Z.to_nat i) (Z.to_nat (Z.min k (Z.of_nat (List.length a)))))
    as [_ | Hge]; [reflexivity | lia].
Qed.

Section Theory.

Variable Annotation : Type.

(** ** The invariant once something was drawn *)

(** The index points into the history, at the annotations shown. *)
Definition in_range (st : State Annotation) : Prop :=
  0 <= historyIndex st < Z.of_nat (List.length (history st)) /\
  at_index (history st) (historyIndex st) = Some (annotations st).

Lemma addAnnotation_in_range (a : Annotation) (st : State Annotation) :
  in_range (addAnnotation a st).
Proof.
  unfold in_range, addAnnotation. cbn [annotations history historyIndex].
  split; [rewrite length_app; cbn [List.length]; lia | ].
  apply at_index_push_last. rewrite length_app. cbn [List.length]. lia.
Qed.

Lemma undo_in_range (st : State Annotation) :
  in_range st ->
  exists st', undo st = Some st' /\ in_range st' /\ history st' = history st.
Proof.
  intros [Hidx Hshown]. unfold undo.
  destruct (Z.ltb_spec 0 (historyIndex st)) as [Hpos | _].
  - destruct (at_index_in_range (history st) (historyIndex st - 1)) as [prev Hprev]; [lia | ].
    rewrite Hprev. eexists. split; [reflexivity | ].
    split; [ | reflexivity]. split; cbn [annotations history historyIndex]; [lia | exact Hprev].
  - exists st. split; [reflexivity | ]. split; [split; assumption | reflexivity].
Qed.

Lemma redo_in_range (st : State Annotation) :
  in_range st ->
  exists st', redo st = Some st' /\ in_range st' /\ history st' = history st.
Proof.
  intros [Hidx Hshown]. unfold redo.
  destruct (Z.ltb_spec (historyIndex st) (Z.of_nat (List.length (history st)) - 1))
    as [Hlt | _].
  - destruct (at_index_in_range (history st) (historyIndex st + 1)) as [next Hnext]; [lia | ].
    rewrite Hnext. eexists. split; [reflexivity | ].
    split; [ | reflexivity]. split; cbn [annotations history historyIndex]; [lia | exact Hnext].
  - exists st. split; [reflexivity | ]. split; [split; assumption | reflexivity].
Qed.

Lemma run_in_range (events : list (Event Annotation)) (st : State Annotation) :
  in_range st -> exists st', run events st = Some st' /\ in_range st'.
Proof.
  revert st. induction events as [ | e events IH]; intros st Hst; cbn [run].
  - exists st. split; [reflexivity | exact Hst].
  - destruct e as [a | | ]; cbn [handle].
    + apply IH. apply addAnnotation_in_range.
    + destruct (undo_in_range st Hst) as [st' [-> [Hst' _]]]. apply IH. exact Hst'.
    + destruct (redo_in_range st Hst) as [st' [-> [Hst' _]]]. apply IH. exact Hst'.
Qed.

(** ** The first annotation *)

(** Every entry of the history starts with [first]. *)
Definition rooted (first : Annotation) (st : State Annotation) : Prop :=
  in_range st /\ Forall (fun entry => hd_error entry = Some first) (history st).

Lemma rooted_head (first : Annotation) (st : State Annotation) :
  rooted first st -> hd_error (annotations st) = Some first.
Proof.
  intros [[_ Hshown] Hall]. rewrite Forall_forall in Hall.
  apply Hall. apply (at_index_In _ _ _ Hshown).
Qed.

Lemma handle_rooted (first : Annotation) (e : Event Annotation) (st : State Annotation) :
  rooted first st -> exists st', handle e st = Some st' /\ rooted first st'.
Proof.
  intros Hst. pose proof (rooted_head first st Hst) as Hhead. destruct Hst as [Hrange Hall].
  destruct e as [a | | ]; cbn [handle].
  - eexists. split; [reflexivity | ]. split; [apply addAnnotation_in_range | ].
    unfold addAnnotation. cbn [history]. apply Forall_app. split.
    + rewrite Forall_forall in *. intros entry Hentry. apply Hall.
      apply (slice0_In _ _ _ Hentry).
    + constructor; [ | constructor].
      destruct (annotations st) as [ | x l]; [discriminate Hhead | exact Hhead].
  - destruct (undo_in_range st Hrange) as [st' [-> [Hst' Hh]]].
    exists st'. split; [reflexivity | ]. split; [exact Hst' | rewrite Hh; exact Hall].
  - destruct (redo_in_range st Hrange) as [st' [-> [Hst' Hh]]].
    exists st'. split; [reflexivity | ]. split; [exact Hst' | rewrite Hh; exact Hall].
Qed.

Lemma run_rooted (first : Annotation) (events : list (Event Annotation))
    (st : State Annotation) :
  rooted first st -> exists st', run events st = Some st' /\ rooted first st'.
Proof.
  revert st. induction events as [ | e events IH]; intros st Hst; cbn [run].
  - exists st. split; [reflexivity | exact Hst].
  - destruct (handle_rooted first e st Hst) as [st' [-> Hst']]. apply IH. exact Hst'.
Qed.

Lemma run_app (events1 events2 : list (Event Annotation)) (st : State Annotation) :
  run (events1 ++ events2) st
  = match run events1 st with
    | Some st' => run events2 st'
    | None => None
    end.
Proof.
  revert st. induction events1 as [ | e events1 IH]; intros st; [reflexivity | ].
  cbn [List.app run]. destruct (handle e st) as [st' | ]; [apply IH | reflexivity].
Qed.

(** Before anything is drawn the two buttons do nothing. *)
Lemma run_no_add (events : list (Event Annotation)) :
  forallb (fun e => negb (is_add e)) events = true -> run events initial = Some initial.
Proof.
  induction events as [ | e events IH]; intros H; [reflexivity | ].
  cbn [forallb] in H. apply andb_true_iff in H. destruct H as [He H].
  destruct e as [a | | ]; [discriminate He | | ]; cbn [run handle]; apply IH; exact H.
Qed.

Lemma first_add_rooted (first : Annotation) : rooted first (addAnnotation first initial).
Proof.
  split; [apply addAnnotation_in_range | ].
  cbn. constructor; [reflexivity | constructor].
Qed.

(** X24.  Once an annotation is drawn, the editor never shows the empty
    drawing again: whatever is added, undone and redone afterwards, no
    handler reads outside the history, and the annotations shown start
    with the first one.  (The history starts empty, so the first entry is
    the drawing with one annotation, and [undo] stops there.) *)
Theorem first_annotation_stays (before after : list (Event Annotation)) (first : Annotation) :
  forallb (fun e => negb (is_add e)) before = true ->
  exists st,
    run (before ++ Add first :: after) initial = Some st /\
    hd_error (annotations st) = Some first /\
    0 <= historyIndex st < Z.of_nat (List.length (history st)).
Proof.
  intros Hbefore. rewrite run_app, (run_no_add before Hbefore). cbn [run handle].
  destruct (run_rooted first after _ (first_add_rooted first)) as [st [Hrun Hst]].
  exists st. split; [exact Hrun | ].
  split; [apply (rooted_head first st Hst) | ]. destruct Hst as [[Hidx _] _]. exact Hidx.
Qed.

(** ** Undo and redo *)

Lemma first_add (events : list (Event Annotation)) :
  existsb is_add events = true ->
  exists before first after,
    events = (before ++ Add first :: after)%list /\
    forallb (fun e => negb (is_add e)) before = true.
Proof.
  induction events as [ | e events IH]; intros H; [discriminate H | ].
  destruct e as [a | | ].
  - exists [], a, events. split; reflexivity.
  - destruct (IH H) as [before [first [after [-> Hb]]]].
    exists (Undo :: before), first, after. split; [reflexivity | exact Hb].
  - destruct (IH H) as [before [first [after [-> Hb]]]].
    exists (Redo :: before), first, after. split; [reflexivity | exact Hb].
Qed.

Lemma drawn_in_range (events : list (Event Annotation)) (st : State Annotation) :
  run events initial = Some st -> existsb is_add events = true -> in_range st.
Proof.
  intros Hrun Hadd. destruct (first_add events Hadd) as [before [first [after [-> Hb]]]].
  rewrite run_app, (run_no_add before Hb) in Hrun. cbn [run handle] in Hrun.
  destruct (run_in_range after _ (addAnnotation_in_range first initial)) as [st' [Hrun' Hst']].
  rewrite Hrun' in Hrun. inversion Hrun; subst st'. exact Hst'.
Qed.

(** X25.  Once something was drawn: [undo] right after an annotation is
    added shows the annotations of before, [redo] then brings the added
    one back (the very state after the addition), and right after an
    addition [redo] does nothing. *)
Theorem undo_redo_round_trip (events : list (Event Annotation)) (st : State Annotation)
    (a : Annotation) :
  run events initial = Some st ->
  existsb is_add events = true ->
  annotations (addAnnotation a st) = (annotations st ++ [a])%list /\
  redo (addAnnotation a st) = Some (addAnnotation a st) /\
  exists st1,
    undo (addAnnotation a st) = Some st1 /\
    annotations st1 = annotations st /\
    redo st1 = Some (addAnnotation a st).
Proof.
  intros Hrun Hadd. destruct (drawn_in_range events st Hrun Hadd) as [Hidx Hshown].
  pose proof (slice0_prefix_length (history st) (historyIndex st + 1)) as Hlen.
  split; [reflexivity | ].
  set (newAnnotations := (annotations st ++ [a])%list).
  set (newHistory := (slice0 (history st) (historyIndex st + 1) ++ [newAnnotations])%list).
  assert (Hnew : Z.of_nat (List.length newHistory) = historyIndex st + 2).
  { unfold newHistory. rewrite length_app. cbn [List.length]. lia. }
  split.
  - unfold redo, addAnnotation. cbn [annotations history historyIndex].
    fold newAnnotations. fold newHistory.
    destruct (Z.ltb_spec (Z.of_nat (List.length newHistory) - 1)
                (Z.of_nat (List.length newHistory) - 1)) as [Hlt | _]; [lia | reflexivity].
  - exists {| annotations := annotations st; history := newHistory;
              historyIndex := Z.of_nat (List.length newHistory) - 1 - 1 |}.
    split; [ | split; [reflexivity | ]].
    + unfold undo, addAnnotation. cbn [annotations history historyIndex].
      fold newAnnotations. fold newHistory.
      destruct (Z.ltb_spec 0 (Z.of_nat (List.length newHistory) - 1)) as [_ | Hge]; [ | lia].
      replace (at_index newHistory (Z.of_nat (List.length newHistory) - 1 - 1))
        with (Some (annotations st)); [reflexivity | ].
      rewrite <- Hshown. symmetry. unfold newHistory.
      replace (Z.of_nat (List.length
                 (slice0 (history st) (historyIndex st + 1) ++ [newAnnotations])) - 1 - 1)
        with (historyIndex st) by (fold newHistory; lia).
      apply at_index_push_slice; lia.
    + unfold redo, addAnnotation. cbn [annotations history historyIndex].
      fold newAnnotations. fold newHistory.
      destruct (Z.ltb_spec (Z.of_nat (List.length newHistory) - 1 - 1)
                  (Z.of_nat (List.length newHistory) - 1)) as [_ | Hge]; [ | lia].
      replace (at_index newHistory (Z.of_nat (List.length newHistory) - 1 - 1 + 1))
        with (Some newAnnotations).
      * f_equal. f_equal. lia.
      * symmetry. unfold newHistory at 1. apply at_index_push_last. lia.
Qed.

End Theory.

Lemma first_annotation_stays_witness :
  exists st,
    run ([Undo; Redo] ++ Add "arrow"%string :: [Add "box"%string; Undo; Undo; Undo]) initial
    = Some st /\
    hd_error (annotations st) = Some "arrow"%string /\
    0 <= historyIndex st < Z.of_nat (List.length (history st)).
Proof.
  apply (first_annotation_stays string [Undo; Redo] [Add "box"%string; Undo; Undo; Undo]
           "arrow"%string).
  reflexivity.
Defined.

Lemma undo_redo_round_trip_witness :
  let st := {| annotations := ["arrow"%string];
               history := [["arrow"%string]; ["arrow"%string; "box"%string]];
               historyIndex := 0 |} in
  annotations (addAnnotation "text"%string st) = (annotations st ++ ["text"%string])%list /\
  redo (addAnnotation "text"%string st) = Some (addAnnotation "text"%string st) /\
  exists st1,
    undo (addAnnotation "text"%string st) = Some st1 /\
    annotations st1 = annotations st /\
    redo st1 = Some (addAnnotation "text"%string st).
Proof.
  apply (undo_redo_round_trip string [Add "arrow"%string; Add "box"%string; Undo]
           {| annotations := ["arrow"%string];
              history := [["arrow"%string]; ["arrow"%string; "box"%string]];
              historyIndex := 0 |} "text"%string).
  - reflexivity.
  - reflexivity.
Defined.

(** The first annotation cannot be undone. *)
Example undo_first_annotation :
  run [Add "arrow"%string; Undo] initial
  = Some {| annotations := ["arrow"%string]; history := [["arrow"%string]];
            historyIndex := 0 |}.
Proof. reflexivity. Qed.

End EditorTheory.

Module SearchHistoryTheory.
Import JS JSFacts SearchBar.

(** The distinct queries of a list that has the newest first, in that
    order. *)
Fixpoint recent_first (queries : list string) : list string :=
  match queries with
  | [] => []
  | q :: queries' => q :: filter (fun h => negb (String.eqb h q)) (recent_first queries')
  end.

Definition not_blank (query : string) : bool := negb (String.length (trim query) =? 0)%nat.

Lemma recent_first_In (queries : list string) (x : string) :
  In x (recent_first queries) -> In x queries.
Proof.
  induction queries as [ | q queries IH]; [intros [] | ].
  cbn [recent_first]. intros [-> | H]; [left; reflexivity | ].
  apply filter_In in H. right. apply IH. apply H.
Qed.

Lemma recent_first_NoDup (queries : list string) : NoDup (recent_first queries).
Proof.
  induction queries as [ | q queries IH]; [constructor | ].
  cbn [recent_first]. constructor; [ | apply NoDup_filter; exact IH].
  intros H. apply filter_In in H. destruct H as [_ H].
  rewrite String.eqb_refl in H. discriminate H.
Qed.

Lemma filter_all {A : Type} (f : A -> bool) (l : list A) :
  (forall x, In x l -> f x = true) -> filter f l = l.
Proof.
  induction l as [ | x l IH]; intros H; [reflexivity | ].
  cbn [filter]. rewrite (H x (or_introl eq_refl)). f_equal.
  apply IH. intros y Hy. apply H. right. exact Hy.
Qed.

(** Dropping one query from a list without duplicates: the first [n]
    that are left are among the first [n + 1]. *)
Lemma filter_firstn_NoDup (q : string) (D : list string) :
  NoDup D ->
  forall n,
    firstn n (filter (fun h => negb (String.eqb h q)) (firstn (S n) D))
    = firstn n (filter (fun h => negb (String.eqb h q)) D).
Proof.
  induction D as [ | x D IH]; intros Hnd n; [reflexivity | ].
  inversion Hnd as [ | ? ? Hx HD]; subst.
  cbn [firstn filter]. destruct (String.eqb_spec x q) as [-> | Hne]; cbn [negb].
  - assert (Hkeep : forall y, In y D -> negb (String.eqb y q) = true).
    { intros y Hy. destruct (String.eqb_spec y q) as [-> | _]; [contradiction | reflexivity]. }
    rewrite (filter_all _ D Hkeep).
    rewrite (filter_all _ (firstn n D)) by (intros y Hy; apply Hkeep; eapply firstn_In; exact Hy).
    rewrite firstn_firstn, Nat.min_id. reflexivity.
  - destruct n as [ | n]; [reflexivity | ].
    cbn [firstn]. f_equal. apply IH. exact HD.
Qed.

Lemma slice0_firstn {A : Type} (l : list A) (k : nat) : slice0 l (Z.of_nat k) = firstn k l.
Proof.
  unfold slice0. destruct (Z.ltb_spec (Z.of_nat k) 0) as [Hneg | _]; [lia | ].
  destruct (Nat.le_gt_cases k (List.length l)) as [Hle | Hgt].
  - f_equal. lia.
  - rewrite !firstn_all2 by lia. reflexivity.
Qed.

Lemma saveToHistory_step (q : string) (st : State) :
  saveToHistory q st
  = if not_blank q then
      let newHistory :=
        firstn 10 (q :: filter (fun h => negb (String.eqb h q)) (searchHistory st)) in
      {| searchHistory := newHistory; stored := Some newHistory |}
    else st.
Proof.
  unfold saveToHistory, not_blank.
  destruct (String.length (trim q) =? 0)%nat; [reflexivity | ].
  cbn [negb]. change 10%Z with (Z.of_nat 10). rewrite slice0_firstn. reflexivity.
Qed.

Definition save_all (queries : list string) (st : State) : State :=
  fold_left (fun st q => saveToHistory q st) queries st.

Lemma save_all_spec (queries : list string) :
  searchHistory (save_all queries (mount None))
  = firstn 10 (recent_first (rev (filter not_blank queries))) /\
  stored (save_all queries (mount None))
  = if existsb not_blank queries
    then Some (searchHistory (save_all queries (mount None))) else None.
Proof.
  induction queries as [ | q queries IH] using rev_ind; [split; reflexivity | ].
  destruct IH as [IHh IHs]. unfold save_all in *.
  rewrite fold_left_app, filter_app, rev_app_distr, existsb_app.
  cbn [fold_left filter existsb]. rewrite orb_false_r.
  set (st := fold_left (fun st q => saveToHistory q st) queries (mount None)) in *.
  rewrite (saveToHistory_step q st).
  destruct (not_blank q) eqn:Hq.
  - cbn [searchHistory stored rev List.app]. rewrite orb_true_r.
    split; [ | reflexivity].
    rewrite IHh. cbn [recent_first]. change 10%nat with (S 9). rewrite !firstn_cons. f_equal.
    apply filter_firstn_NoDup. apply recent_first_NoDup.
  - cbn [rev List.app]. rewrite orb_false_r. split; [exact IHh | exact IHs].
Qed.

(** X26.  The search history after any sequence of searches, from an
    empty storage: the (up to) ten most recent distinct queries that are
    not blank, the newest first, each once; the storage holds the same
    list, so that the component shows it again when it is mounted anew. *)
Theorem saveToHistory_recent (queries : list string) :
  let st := fold_left (fun st q => saveToHistory q st) queries (mount None) in
  searchHistory st = firstn 10 (recent_first (rev (filter not_blank queries))) /\
  NoDup (searchHistory st) /\
  (List.length (searchHistory st) <= 10)%nat /\
  (forall q, In q (searchHistory st) -> In q queries /\ not_blank q = true) /\
  searchHistory (mount (stored st)) = searchHistory st.
Proof.
  cbv zeta. destruct (save_all_spec queries) as [Hh Hs]. unfold save_all in *.
  split; [exact Hh | ].
  split; [rewrite Hh; apply firstn_NoDup; apply recent_first_NoDup | ].
  split; [rewrite Hh; apply firstn_le_length | ].
  split.
  - intros q Hq. rewrite Hh in Hq. apply firstn_In in Hq. apply recent_first_In in Hq.
    apply in_rev in Hq. apply filter_In in Hq. exact Hq.
  - rewrite Hs. destruct (existsb not_blank queries) eqn:He; [reflexivity | ].
    cbn [mount searchHistory]. rewrite Hh.
    replace (filter not_blank queries) with (@nil string); [reflexivity | ].
    symmetry. clear Hh Hs. induction queries as [ | q queries IH]; [reflexivity | ].
    cbn [existsb] in He. apply orb_false_iff in He. destruct He as [Hq He].
    cbn [filter]. rewrite Hq. apply IH. exact He.
Qed.

Example saveToHistory_example :
  searchHistory
    (fold_left (fun st q => saveToHistory q st)
       ["invoice"; "cat"; "  "; "invoice"; "dog"]%string (mount None))
  = ["dog"; "invoice"; "cat"]%string.
Proof. reflexivity. Qed.

End SearchHistoryTheory.

(* ================================================================== *)
(** * Properties of the scan for existing screenshots *)
(* ================================================================== *)

Module ScanTheory.
Import JS RegExp RegExpFacts.

Local Open Scope string_scope.

(** ** From a match to a string of the language *)

(** Expressions without assertion. *)
Fixpoint plain (r : regex) : bool :=
  match r with
  | EndOfLine => false
  | Seq r1 r2 | Alt r1 r2 => plain r1 && plain r2
  | Star r1 => plain r1
  | _ => true
  end.

Lemma plain_derivative (c : ascii) (r : regex) : plain r = true -> plain (derivative c r) = true.
Proof.
  induction r as [ | | p | r1 IH1 r2 IH2 | r1 IH1 r2 IH2 | r1 IH1 | ];
    cbn [plain derivative]; intros H; try reflexivity.
  - destruct (p c); reflexivity.
  - apply andb_true_iff in H. destruct H as [H1 H2].
    rewrite (IH1 H1), H2. cbn [andb].
    destruct (nullable (Some c) r1); [apply IH2; exact H2 | reflexivity].
  - apply andb_true_iff in H. destruct H as [H1 H2]. rewrite (IH1 H1), (IH2 H2). reflexivity.
  - rewrite (IH1 H), H. reflexivity.
Qed.

Lemma nullable_lang (next : option ascii) (r : regex) :
  plain r = true -> nullable next r = true -> lang r [].
Proof.
  induction r as [ | | p | r1 IH1 r2 IH2 | r1 IH1 r2 IH2 | r1 IH1 | ];
    cbn [plain nullable]; intros Hp Hn; try discriminate.
  - constructor.
  - apply andb_true_iff in Hp. destruct Hp as [Hp1 Hp2].
    apply andb_true_iff in Hn. destruct Hn as [Hn1 Hn2].
    change (@nil ascii) with (@nil ascii ++ [])%list.
    apply lang_Seq; [apply IH1 | apply IH2]; assumption.
  - apply andb_true_iff in Hp. destruct Hp as [Hp1 Hp2].
    apply orb_true_iff in Hn. destruct Hn as [Hn1 | Hn2].
    + apply lang_Alt_l. apply IH1; assumption.
    + apply lang_Alt_r. apply IH2; assumption.
  - apply lang_Star_nil.
Qed.

Lemma derivative_lang (c : ascii) (r : regex) :
  plain r = true -> forall s, lang (derivative c r) s -> lang r (c :: s).
Proof.
  induction r as [ | | p | r1 IH1 r2 IH2 | r1 IH1 r2 IH2 | r1 IH1 | ];
    cbn [plain derivative]; intros Hp s H.
  - inversion H.
  - inversion H.
  - destruct (p c) eqn:Hc; inversion H; subst. constructor. exact Hc.
  - apply andb_true_iff in Hp. destruct Hp as [Hp1 Hp2].
    inversion H as [ | | | ? ? ? Hl | ? ? ? Hr | | ]; subst.
    + inversion Hl as [ | | ? ? s1 s2 H1 H2 | | | | ]; subst.
      change (c :: s1 ++ s2)%list with ((c :: s1) ++ s2)%list.
      apply lang_Seq; [apply IH1; assumption | exact H2].
    + destruct (nullable (Some c) r1) eqn:Hn; [ | inversion Hr].
      change (c :: s) with ([] ++ c :: s)%list.
      apply lang_Seq; [apply (nullable_lang (Some c)); assumption | apply IH2; assumption].
  - apply andb_true_iff in Hp. destruct Hp as [Hp1 Hp2].
    inversion H as [ | | | ? ? ? Hl | ? ? ? Hr | | ]; subst.
    + apply lang_Alt_l. apply IH1; assumption.
    + apply lang_Alt_r. apply IH2; assumption.
  - inversion H as [ | | ? ? s1 s2 H1 H2 | | | | ]; subst.
    change (c :: s1 ++ s2)%list with ((c :: s1) ++ s2)%list.
    apply lang_Star_cons; [apply IH1; assumption | exact H2].
  - discriminate Hp.
Qed.

Lemma matches_lang (s : list ascii) (r : regex) :
  plain r = true -> matches r s = true -> lang r s.
Proof.
  revert r. induction s as [ | c s IH]; intros r Hp Hm; cbn [matches] in Hm.
  - apply (nullable_lang None); assumption.
  - apply derivative_lang; [exact Hp | ]. apply IH; [apply plain_derivative; exact Hp | exact Hm].
Qed.

(** ** The parts of a string of a pattern *)

Lemma lang_Seq_inv (r1 r2 : regex) (s : list ascii) :
  lang (Seq r1 r2) s -> exists s1 s2, s = (s1 ++ s2)%list /\ lang r1 s1 /\ lang r2 s2.
Proof.
  intros H. inversion H as [ | | ? ? s1 s2 H1 H2 | | | | ]; subst.
  exists s1, s2. split; [reflexivity | split; assumption].
Qed.

Lemma lang_Empty_inv (s : list ascii) : lang Empty s -> s = [].
Proof. intros H. inversion H. reflexivity. Qed.

Lemma lang_Chr_inv (p : ascii -> bool) (s : list ascii) :
  lang (Chr p) s -> exists c, s = [c] /\ p c = true.
Proof. intros H. inversion H; subst. eexists. split; [reflexivity | assumption]. Qed.

Lemma lang_literal_inv (t : string) (s : list ascii) :
  lang (literal t) s -> s = list_ascii_of_string t.
Proof.
  revert s. induction t as [ | c t IH]; intros s H; cbn [literal] in H.
  - apply lang_Empty_inv. exact H.
  - apply lang_Seq_inv in H. destruct H as [s1 [s2 [-> [H1 H2]]]].
    apply lang_Chr_inv in H1. destruct H1 as [x [-> Hx]].
    unfold chr in Hx. apply Ascii.eqb_eq in Hx. subst x.
    cbn [list_ascii_of_string List.app]. f_equal. apply IH. exact H2.
Qed.

(** A literal read under the flag [i] finds itself. *)
Lemma lang_literal_as_i (t : string) (s : list ascii) :
  lang (literal t) s -> lang (literal_i t) s.
Proof. intros H. rewrite (lang_literal_inv t s H). apply lang_literal_i. Qed.

(** [\d{2}] is a case of [\d{1,2}]. *)
Lemma lang_two_digits (s rest : list ascii) (r : regex) :
  lang (times 2 digit) s -> lang r rest ->
  lang (Seq digit (Seq (opt digit) r)) (s ++ rest).
Proof.
  intros H Hr. cbn [times] in H.
  apply lang_Seq_inv in H. destruct H as [d1 [s' [-> [H1 H]]]].
  apply lang_Seq_inv in H. destruct H as [d2 [s'' [-> [H2 H]]]].
  apply lang_Empty_inv in H. subst s''.
  rewrite app_nil_r, <- app_assoc.
  apply lang_Seq; [exact H1 | ].
  apply lang_Seq; [apply lang_Alt_l; exact H2 | exact Hr].
Qed.

(** X27.  A file name of the form the scan for existing screenshots looks
    for, [Screenshot YYYY-MM-DD at HH.MM.SS.png], is kept by the scan and
    is a default screenshot name: the screenshot is renamed after its
    title once it is processed. *)
Theorem scanned_name_is_default (extname : string -> string) (file : string) :
  test_anchored FileSystemManager.screenshotPattern file = true ->
  FileSystemManager.potential_screenshot extname file = true /\
  Main.isDefaultScreenshotName file = true /\
  Main.shouldRenameFile file = true.
Proof.
  intros Hm.
  assert (Hdefault : Main.isDefaultScreenshotName file = true).
  { unfold Main.isDefaultScreenshotName. apply existsb_exists.
    eexists. split; [left; reflexivity | ].
    unfold test_anchored in *. apply lang_matches.
    apply matches_lang in Hm; [ | reflexivity].
    unfold FileSystemManager.screenshotPattern in Hm. cbn [cat] in Hm.
    repeat match type of Hm with
           | lang (Seq _ _) _ =>
               let s1 := fresh "s" in
               let Hpart := fresh "Hpart" in
               apply lang_Seq_inv in Hm; destruct Hm as [s1 [? [-> [Hpart Hm]]]]
           end.
    apply lang_Empty_inv in Hm. subst.
    unfold Main.date_part, Main.time_part, Main.am_pm. cbn [cat].
    match goal with
    | |- lang _ (?l1 ++ ?d4 ++ ?l2 ++ ?m2 ++ ?l3 ++ ?d2 ++ ?l4 ++ ?hh ++ ?l5 ++ ?mm ++ ?l6
                  ++ ?ss ++ ?l7 ++ [])%list =>
        replace (l1 ++ d4 ++ l2 ++ m2 ++ l3 ++ d2 ++ l4 ++ hh ++ l5 ++ mm ++ l6 ++ ss ++ l7 ++ [])%list
          with (l1 ++ (d4 ++ l2 ++ m2 ++ l3 ++ d2 ++ [])
                   ++ l4 ++ (hh ++ l5 ++ mm ++ l6 ++ ss ++ []) ++ [] ++ l7 ++ [])%list
          by (rewrite !app_nil_r, <- !app_assoc; reflexivity)
    end.
    apply lang_Seq; [apply lang_literal_as_i; assumption | ].
    apply lang_Seq.
    { apply lang_Seq; [assumption | ].
      apply lang_Seq; [apply lang_literal_as_i; assumption | ].
      apply lang_Seq; [assumption | ].
      apply lang_Seq; [apply lang_literal_as_i; assumption | ].
      apply lang_Seq; [assumption | constructor]. }
    apply lang_Seq; [apply lang_literal_as_i; assumption | ].
    apply lang_Seq.
    { apply lang_two_digits; [assumption | ].
      apply lang_Seq; [apply lang_literal_as_i; assumption | ].
      apply lang_Seq; [assumption | ].
      apply lang_Seq; [apply lang_literal_as_i; assumption | ].
      apply lang_Seq; [assumption | constructor]. }
    apply lang_Seq; [apply lang_Alt_r; constructor | ].
    apply lang_Seq; [apply lang_literal_as_i; assumption | constructor]. }
  split; [unfold FileSystemManager.potential_screenshot; rewrite Hm; reflexivity | ].
  split; [exact Hdefault | exact Hdefault].
Qed.

Definition png_extension (_ : string) : string := ".png".

Lemma scanned_name_is_default_witness :
  FileSystemManager.potential_screenshot png_extension "Screenshot 2024-01-15 at 10.30.45.png"
  = true /\
  Main.isDefaultScreenshotName "Screenshot 2024-01-15 at 10.30.45.png" = true /\
  Main.shouldRenameFile "Screenshot 2024-01-15 at 10.30.45.png" = true.
Proof.
  apply (scanned_name_is_default png_extension "Screenshot 2024-01-15 at 10.30.45.png").
  reflexivity.
Defined.

End ScanTheory.

(* ================================================================== *)
(** * Properties of the keyboard shortcuts *)
(* ================================================================== *)

Module KeyboardTheory.
Import JS KeyboardShortcuts.

Local Open Scope string_scope.

(** The shortcuts [App] declares with [cmd]. *)
Definition uses_cmd (a : AppAction) : bool :=
  match a with
  | DeleteSelected | OpenEditor | CloseEditor => false
  | _ => true
  end.

Lemma handleKeyDown_fired {Action : Type} (enabled : bool)
    (shortcuts : list (KeyboardShortcut Action)) (event : KeyboardEvent) (a : Action) :
  handleKeyDown enabled shortcuts event = Some a ->
  enabled = true /\ typing event = false /\
  exists shortcut,
    In shortcut shortcuts /\ shortcut_matches shortcut event = true /\ action shortcut = a.
Proof.
  unfold handleKeyDown. destruct enabled; [ | discriminate]. cbn [negb].
  destruct (typing event); [discriminate | ].
  destruct (find _ shortcuts) as [shortcut | ] eqn:Hfind; [ | discriminate].
  intros H. inversion H; subst. apply find_some in Hfind.
  split; [reflexivity | ]. split; [reflexivity | ].
  exists shortcut. split; [apply Hfind | ]. split; [apply Hfind | reflexivity].
Qed.

(** An event of a key alone, outside a text field. *)
Definition bare_key (event : KeyboardEvent) : bool :=
  negb (event_ctrlKey event) && negb (event_metaKey event) && negb (event_shiftKey event)
  && negb (event_altKey event) && negb (typing event).

(** X28.  The shortcuts of [App].  One fires only when no screenshot is
    being edited and the list of shortcuts is not shown (so the shortcut
    [Escape] never finds an editor to close), outside text fields, without
    the control key and without the alt key; the command key is held on a
    Mac if the shortcut is declared with [cmd], and is not held
    otherwise.  Where the platform is not a Mac, [cmd] is dropped: a key
    alone runs the shortcut declared for it with [cmd] ([a] selects all,
    [d] deselects, [f] focuses the search ...). *)
Theorem app_shortcuts_spec (isMac editing modal : bool) (event : KeyboardEvent) :
  (forall a,
     app_key_down isMac editing modal event = Some a ->
     editing = false /\ modal = false /\ typing event = false /\
     event_ctrlKey event = false /\ event_altKey event = false /\
     event_metaKey event = isMac && uses_cmd a) /\
  (forall shortcut,
     In shortcut (keyboardShortcuts false) ->
     is_set (shiftKey shortcut) = false ->
     bare_key event = true ->
     FallbackHeuristics.toLowerCase (event_key event)
     = FallbackHeuristics.toLowerCase (key shortcut) ->
     app_key_down false false false event = Some (action shortcut)).
Proof.
  split.
  - intros a H. unfold app_key_down in H. apply handleKeyDown_fired in H.
    destruct H as [Hen [Hty [shortcut [Hin [Hm Ha]]]]].
    apply andb_true_iff in Hen. destruct Hen as [He Hmo].
    apply negb_true_iff in He. apply negb_true_iff in Hmo.
    split; [exact He | ]. split; [exact Hmo | ]. split; [exact Hty | ].
    unfold shortcut_matches in Hm.
    destruct (String.eqb _ _) in Hm; [ | discriminate Hm]. cbn [andb] in Hm.
    unfold keyboardShortcuts in Hin. cbn [In] in Hin.
    repeat match type of Hin with
           | _ \/ _ => destruct Hin as [<- | Hin]
           end;
      try contradiction; subst a;
      destruct isMac, (event_ctrlKey event), (event_metaKey event), (event_shiftKey event),
        (event_altKey event);
      try discriminate Hm; repeat split.
  - intros shortcut Hin Hshift Hbare Hkey. unfold bare_key in Hbare.
    destruct event as [k c m s a t]. cbn [event_key event_ctrlKey event_metaKey event_shiftKey
      event_altKey typing] in *.
    destruct c, m, s, a, t; try discriminate Hbare. clear Hbare.
    unfold app_key_down, handleKeyDown.
    cbn [negb andb typing].
    unfold keyboardShortcuts in *. cbn [In] in Hin.
    repeat match type of Hin with
           | _ \/ _ => destruct Hin as [<- | Hin]
           end;
      try contradiction; try discriminate Hshift;
      cbn [find]; unfold shortcut_matches;
      cbn [event_key event_ctrlKey event_metaKey event_shiftKey event_altKey key createShortcut]
        in *;
      rewrite Hkey; vm_compute; reflexivity.
Qed.

Definition plain_a : KeyboardEvent :=
  {| event_key := "A"; event_ctrlKey := false; event_metaKey := false;
     event_shiftKey := false; event_altKey := false; typing := false |}.

Lemma app_shortcuts_spec_witness :
  app_key_down false false false plain_a = Some SelectAll /\
  event_ctrlKey plain_a = false /\ event_metaKey plain_a = false.
Proof.
  destruct (app_shortcuts_spec false false false plain_a) as [Hfires Hbare].
  assert (H : app_key_down false false false plain_a = Some SelectAll).
  { apply (Hbare (createShortcut false "a" SelectAll with_cmd)).
    - cbn. tauto.
    - reflexivity.
    - reflexivity.
    - reflexivity. }
  split; [exact H | ].
  destruct (Hfires SelectAll H) as [_ [_ [_ [Hc [_ Hm]]]]].
  split; [exact Hc | exact Hm].
Defined.

Example app_key_down_example :
  app_key_down false false false
    {| event_key := "f"; event_ctrlKey := true; event_metaKey := false;
       event_shiftKey := false; event_altKey := false; typing := false |} = None /\
  app_key_down true false false
    {| event_key := "f"; event_ctrlKey := false; event_metaKey := true;
       event_shiftKey := false; event_altKey := false; typing := false |} = Some FocusSearch /\
  app_key_down true true false
    {| event_key := "Escape"; event_ctrlKey := false; event_metaKey := false;
       event_shiftKey := false; event_altKey := false; typing := false |} = None.
Proof. repeat split. Qed.

End KeyboardTheory.
